(** * Chart extraction engine (frontend/src/utils/chartDataParser.js)

    A shallow embedding of [parseChartsFromResponse] and of the helpers it
    calls, together with the ECMAScript built-ins they rely on (strings of
    UTF-16 code units, IEEE-754 doubles, JSON, backtracking regular
    expressions), followed by the properties stated for the engine.

    The engine is given twice.  The first embedding runs the searches on
    the matcher of the language specification, which has no bound on what a
    search may use.  The second, [Host], runs them as a host does, on a
    backtrack stack of bounded capacity, where a search can throw a
    RangeError; it is related to the first by [tracks] and [eventually].

    Console output is not modelled: [console.log] and [console.warn] have no
    influence on the value the engine returns. *)

From Stdlib Require Import ZArith NArith List Bool Lia String Ascii.
From Stdlib Require Import Permutation Sorted.
From Stdlib Require Import Floats.SpecFloat.
Import ListNotations.

Set Implicit Arguments.
Local Open Scope nat_scope.

(* ===================================================================== *)
(** * Strings of UTF-16 code units                                        *)
(* ===================================================================== *)

(** A JavaScript string is a sequence of 16-bit code units. *)
Definition char := N.
Definition jstring := list char.

(** [js "abc"] is the JavaScript string with the code units of an ASCII
    literal; it keeps the source's string constants readable. *)
Definition js (s : string) : jstring :=
  List.map N_of_ascii (list_ascii_of_string s).

Definition ch (s : string) : char :=
  match s with
  | String a _ => N_of_ascii a
  | EmptyString => 0%N
  end.

Fixpoint jstr_eqb (a b : jstring) : bool :=
  match a, b with
  | [], [] => true
  | x :: a', y :: b' => N.eqb x y && jstr_eqb a' b'
  | _, _ => false
  end.

Module Str.

(** WhiteSpace and LineTerminator code units: the set matched by the
    regular-expression class [\s] and stripped by [String.prototype.trim]. *)
Definition is_space (c : char) : bool :=
  ((9 <=? c) && (c <=? 13) || (c =? 32) || (c =? 160) || (c =? 5760)
   || (8192 <=? c) && (c <=? 8202) || (c =? 8232) || (c =? 8233)
   || (c =? 8239) || (c =? 8287) || (c =? 12288) || (c =? 65279))%N.

Definition is_digit (c : char) : bool := ((48 <=? c) && (c <=? 57))%N.
Definition is_upper (c : char) : bool := ((65 <=? c) && (c <=? 90))%N.
Definition is_lower (c : char) : bool := ((97 <=? c) && (c <=? 122))%N.

(** The class [\w]: [A-Za-z0-9_]. *)
Definition is_word (c : char) : bool :=
  is_upper c || is_lower c || is_digit c || (c =? 95)%N.

(** Code units excluded by the regular-expression atom [.]. *)
Definition is_line_terminator (c : char) : bool :=
  ((c =? 10) || (c =? 13) || (c =? 8232) || (c =? 8233))%N.

Definition lower (c : char) : char :=
  if is_upper c then (c + 32)%N else c.

(** [String.prototype.toLowerCase], on the ASCII range.  Its only caller,
    [normalizeChartType], receives a [\w+] capture, which is ASCII. *)
Definition toLowerCase (s : jstring) : jstring := List.map lower s.

Fixpoint trimStart (s : jstring) : jstring :=
  match s with
  | c :: s' => if is_space c then trimStart s' else s
  | [] => []
  end.

Definition trimEnd (s : jstring) : jstring := rev (trimStart (rev s)).

(** [String.prototype.trim]. *)
Definition trim (s : jstring) : jstring := trimEnd (trimStart s).

(** [s.substring(a, b)] for [0 <= a <= b]. *)
Definition substring (a b : nat) (s : jstring) : jstring :=
  firstn (b - a) (skipn a s).

Fixpoint is_prefix (p s : jstring) : bool :=
  match p, s with
  | [], _ => true
  | x :: p', y :: s' => N.eqb x y && is_prefix p' s'
  | _ :: _, [] => false
  end.

(** [s.indexOf(sub)]: [None] stands for [-1]. *)
Fixpoint indexOf_from (i : nat) (sub s : jstring) : option nat :=
  if is_prefix sub s then Some i
  else match s with
       | [] => None
       | _ :: s' => indexOf_from (S i) sub s'
       end.

Definition indexOf (sub s : jstring) : option nat := indexOf_from 0 sub s.

(** [s.includes(sub)]. *)
Definition includes (sub s : jstring) : bool :=
  match indexOf sub s with Some _ => true | None => false end.

(** [s.split(sep)] for a one-code-unit separator; the empty string splits
    into one empty piece. *)
Fixpoint split_go (sep : char) (cur : jstring) (s : jstring) : list jstring :=
  match s with
  | [] => [rev cur]
  | c :: s' =>
      if N.eqb c sep then rev cur :: split_go sep [] s'
      else split_go sep (c :: cur) s'
  end.

Definition split (sep : char) (s : jstring) : list jstring := split_go sep [] s.

(** [s.replace(/c/g, '')] for one code unit [c]. *)
Definition remove_all (c : char) (s : jstring) : jstring :=
  filter (fun d => negb (N.eqb d c)) s.

(** A string is truthy when it is not empty. *)
Definition nonempty (s : jstring) : bool :=
  match s with [] => false | _ => true end.

(** [s.match(re)] with the [g] flag is [null], which is falsy, when there
    is no match, and a non-empty array otherwise. *)
Definition nonempty_list {A} (l : list A) : bool :=
  match l with [] => false | _ => true end.

(** Decimal digits of a natural number, as in template literals. *)
Fixpoint digits_fuel (fuel : nat) (n : N) (acc : jstring) : jstring :=
  match fuel with
  | O => acc
  | S f =>
      let acc' := (48 + n mod 10)%N :: acc in
      if (n <? 10)%N then acc' else digits_fuel f (n / 10)%N acc'
  end.

Definition of_N (n : N) : jstring := digits_fuel (S (N.to_nat (N.log2 n))) n [].
Definition of_nat (n : nat) : jstring := of_N (N.of_nat n).
Definition of_Z (z : Z) : jstring :=
  match z with
  | Zneg p => ch "-" :: of_N (Npos p)
  | _ => of_N (Z.to_N z)
  end.

End Str.

(* ===================================================================== *)
(** * Regular expressions                                                 *)
(* ===================================================================== *)

(** A backtracking matcher in continuation-passing style, following the
    matcher semantics of the ECMAScript specification (no [u], [m], [s] or
    [y] flag).  The [i] flag is expressed in the character predicates. *)
Module Regex.

Inductive regex :=
| Empty
| Chr (p : char -> bool)
| Bos
| Eos
| Seq (r1 r2 : regex)
| Alt (r1 r2 : regex)
| Rep (greedy : bool) (lo : nat) (hi : option nat) (r : regex)
| Group (n : nat) (r : regex).

(** Matcher state: the end index, the rest of the input from there, and the
    captures recorded so far as [(group, (start, end))], newest first. *)
Record mstate := MState {
  m_pos : nat;
  m_rest : jstring;
  m_caps : list (nat * (nat * nat))
}.

Definition advance (st : mstate) (rest : jstring) : mstate :=
  {| m_pos := S (m_pos st); m_rest := rest; m_caps := m_caps st |}.

Definition set_cap (n : nat) (from : nat) (st : mstate) : mstate :=
  {| m_pos := m_pos st; m_rest := m_rest st;
     m_caps := (n, (from, m_pos st)) :: m_caps st |}.

Definition or_else {A} (x y : option A) : option A :=
  match x with Some _ => x | None => y end.

Definition dec_hi (hi : option nat) : option nat := option_map pred hi.

Definition continuation := mstate -> option mstate.
Definition matcher := mstate -> continuation -> option mstate.

(** RepeatMatcher: [m] matches the quantified atom, [lo] and [hi] are the
    bounds still to honour ([None] is no upper bound).  An iteration that
    consumes nothing once the minimum is reached fails, so
    [lo + length rest + 1] unfoldings always suffice.  None of the engine's
    patterns has a capture group under a quantifier, so the per-iteration
    capture reset is omitted. *)
Fixpoint repeat_matcher (m : matcher) (greedy : bool) (fuel lo : nat)
  (hi : option nat) (st : mstate) (k : continuation) {struct fuel} : option mstate :=
  match fuel with
  | O => None
  | S fuel' =>
      match hi with
      | Some O => k st
      | _ =>
          let iter :=
            m st (fun st' =>
              if Nat.eqb lo 0 && Nat.eqb (m_pos st') (m_pos st) then None
              else repeat_matcher m greedy fuel' (pred lo) (dec_hi hi) st' k) in
          if Nat.ltb 0 lo then iter
          else if greedy then or_else iter (k st)
          else or_else (k st) iter
      end
  end.

Fixpoint rmatch (r : regex) {struct r} : matcher :=
  match r with
  | Empty => fun st k => k st
  | Chr p => fun st k =>
      match m_rest st with
      | c :: rest => if p c then k (advance st rest) else None
      | [] => None
      end
  | Bos => fun st k => if Nat.eqb (m_pos st) 0 then k st else None
  | Eos => fun st k => match m_rest st with [] => k st | _ :: _ => None end
  | Seq r1 r2 => fun st k => rmatch r1 st (fun st' => rmatch r2 st' k)
  | Alt r1 r2 => fun st k => or_else (rmatch r1 st k) (rmatch r2 st k)
  | Group n r1 => fun st k =>
      rmatch r1 st (fun st' => k (set_cap n (m_pos st) st'))
  | Rep greedy lo hi r1 => fun st k =>
      repeat_matcher (rmatch r1) greedy (S (lo + List.length (m_rest st))) lo hi st k
  end.

(** The result of a successful match: [index], the end of the match, and
    the captured groups. *)
Record rmatch_result := MatchResult {
  index : nat;
  last : nat;
  captures : list (nat * (nat * nat))
}.

Definition match_at (r : regex) (i : nat) (rest : jstring) : option rmatch_result :=
  match rmatch r {| m_pos := i; m_rest := rest; m_caps := [] |} Some with
  | Some st => Some {| index := i; last := m_pos st; captures := m_caps st |}
  | None => None
  end.

(** First match at or after index [i]; [rest] is the input from [i] on. *)
Fixpoint search_from (r : regex) (i : nat) (rest : jstring) : option rmatch_result :=
  match match_at r i rest with
  | Some m => Some m
  | None =>
      match rest with
      | [] => None
      | _ :: rest' => search_from r (S i) rest'
      end
  end.

(** [re.exec(s)] / [s.match(re)] for a pattern without the [g] flag. *)
Definition exec (r : regex) (s : jstring) : option rmatch_result :=
  search_from r 0 s.

(** [re.test(s)]. *)
Definition test (r : regex) (s : jstring) : bool :=
  match exec r s with Some _ => true | None => false end.

(** All matches of a pattern with the [g] flag, in order: what a
    [while ((m = re.exec(s)) !== null)] loop enumerates and what
    [s.match(re)] collects.  The next search starts where the previous
    match ended; a match that consumes nothing would restart one code unit
    further, as [String.prototype.match] does (the engine's patterns all
    consume at least one code unit). *)
Fixpoint exec_all_fuel (fuel : nat) (r : regex) (s : jstring) (from : nat)
  : list rmatch_result :=
  match fuel with
  | O => []
  | S fuel' =>
      match search_from r from (skipn from s) with
      | None => []
      | Some m =>
          let next := if Nat.eqb (last m) (index m) then S (last m) else last m in
          m :: (if Nat.ltb (List.length s) next then []
                else exec_all_fuel fuel' r s next)
      end
  end.

Definition exec_all (r : regex) (s : jstring) : list rmatch_result :=
  exec_all_fuel (S (List.length s)) r s 0.

Fixpoint lookup_cap (n : nat) (caps : list (nat * (nat * nat))) : option (nat * nat) :=
  match caps with
  | [] => None
  | (n', span) :: caps' => if Nat.eqb n n' then Some span else lookup_cap n caps'
  end.

(** [m[n]] for [n >= 1]: [None] is [undefined]. *)
Definition group (s : jstring) (m : rmatch_result) (n : nat) : option jstring :=
  match lookup_cap n (captures m) with
  | Some (a, b) => Some (Str.substring a b s)
  | None => None
  end.

(** [m[0]]. *)
Definition matched (s : jstring) (m : rmatch_result) : jstring :=
  Str.substring (index m) (last m) s.

(** ** Pattern syntax *)

Definition just (c : string) : char -> bool := fun d => N.eqb d (ch c).
(** A letter under the [i] flag: without the [u] flag only the two ASCII
    cases of an ASCII letter canonicalise to the same code unit. *)
Definition just_ci (c : string) : char -> bool :=
  fun d => N.eqb (Str.lower d) (Str.lower (ch c)).
Definition any : char -> bool := fun _ => true.
Definition dot : char -> bool := fun d => negb (Str.is_line_terminator d).
Definition one_of (s : string) : char -> bool :=
  fun d => existsb (N.eqb d) (js s).
Definition none_of (s : string) : char -> bool := fun d => negb (one_of s d).
Definition either (p q : char -> bool) : char -> bool := fun d => p d || q d.
Definition newline : char := 10%N.
Definition bullet : char := 8226%N.
Definition is_nl : char -> bool := fun d => N.eqb d newline.
Definition not_nl : char -> bool := fun d => negb (N.eqb d newline).

Fixpoint seq (rs : list regex) : regex :=
  match rs with
  | [] => Empty
  | [r] => r
  | r :: rs' => Seq r (seq rs')
  end.

Fixpoint alt (rs : list regex) : regex :=
  match rs with
  | [] => Empty
  | [r] => r
  | r :: rs' => Alt r (alt rs')
  end.

Definition lit (s : string) : regex :=
  seq (List.map (fun c => Chr (N.eqb c)) (js s)).
Definition lit_ci (s : string) : regex :=
  seq (List.map (fun c => Chr (fun d => N.eqb (Str.lower d) (Str.lower c))) (js s)).

Definition star (r : regex) := Rep true 0 None r.
Definition plus (r : regex) := Rep true 1 None r.
Definition opt (r : regex) := Rep true 0 (Some 1) r.
Definition star_lazy (r : regex) := Rep false 0 None r.
Definition plus_lazy (r : regex) := Rep false 1 None r.
Definition rep (lo hi : nat) (r : regex) := Rep true lo (Some hi) r.
Definition rep_lazy (lo hi : nat) (r : regex) := Rep false lo (Some hi) r.
Definition at_least (lo : nat) (r : regex) := Rep true lo None r.

(** [s.replace(re, '')] for a pattern without the [g] flag. *)
Definition remove_first (r : regex) (s : jstring) : jstring :=
  match exec r s with
  | Some m => firstn (index m) s ++ skipn (last m) s
  | None => s
  end.

End Regex.

(* ===================================================================== *)
(** * Numbers                                                             *)
(* ===================================================================== *)

(** The Number type: IEEE-754 binary64, with the operations of the
    standard library's executable specification of floating point. *)
Module Num.

Definition number := spec_float.

Definition prec : Z := 53.
Definition emax : Z := 1024.

Definition zero : number := S754_zero false.
Definition NaN : number := S754_nan.
Definition infinity (neg : bool) : number := S754_infinity neg.

(** [a + b] on numbers, rounding to nearest, ties to even. *)
Definition add (a b : number) : number := SFadd prec emax a b.

(** [a === b] on numbers: [NaN] differs from everything, [-0] equals [0]. *)
Definition eqb (a b : number) : bool := SFeqb a b.

(** [isNaN(x)] and [isFinite(x)] for a number [x]. *)
Definition isNaN (x : number) : bool :=
  match x with S754_nan => true | _ => false end.

Definition isFinite (x : number) : bool :=
  match x with S754_nan | S754_infinity _ => false | _ => true end.

(** ToBoolean: [0], [-0] and [NaN] are falsy. *)
Definition truthy (x : number) : bool :=
  match x with S754_nan | S754_zero _ => false | _ => true end.

Definition of_Z (z : Z) : number := binary_normalize prec emax z 0 false.

(** The number nearest to [m * 10^e] for [m >= 0], with the given sign:
    the value of a decimal literal.  For a negative exponent the quotient
    is computed with at least 64 significant bits and a sticky bit, which
    rounds as the exact quotient does. *)
Definition of_decimal (neg : bool) (m : Z) (e : Z) : number :=
  if (m <=? 0)%Z then S754_zero neg
  else if (0 <=? e)%Z then
    binary_normalize prec emax (cond_Zopp neg (m * 10 ^ e)) 0 false
  else
    let d := (10 ^ (- e))%Z in
    let k := Z.max 0 (66 + Z.log2 d - Z.log2 m) in
    let n := (m * 2 ^ k)%Z in
    let q := (n / d)%Z in
    let sticky := if (n mod d =? 0)%Z then 0%Z else 1%Z in
    binary_normalize prec emax (cond_Zopp neg (2 * q + sticky)) (- k - 1) false.

(** *** Number::toString *)

(** Number of decimal digits of a positive integer. *)
Fixpoint count_digits (fuel : nat) (z : Z) : Z :=
  match fuel with
  | O => 0
  | S f => if (z <? 10)%Z then 1 else (1 + count_digits f (z / 10))%Z
  end.

(** For [x = num / den > 0], the integer [n] with [10^(n-1) <= x < 10^n]. *)
Definition decimal_exponent (num den : Z) : Z :=
  if (den <=? num)%Z then
    count_digits (S (Z.to_nat (Z.log2 num))) (num / den)
  else
    (* x < 1: the least j >= 0 with num * 10^(j+1) >= den gives n = - j *)
    (fix up (fuel : nat) (j : Z) (scaled : Z) {struct fuel} : Z :=
       match fuel with
       | O => (- j)%Z
       | S f => if (den <=? scaled * 10)%Z then (- j)%Z
                else up f (j + 1)%Z (scaled * 10)%Z
       end) (S (Z.to_nat (Z.log2 den))) 0%Z num.

(** The candidate digit strings of length [k] for [x = num / den] with
    decimal exponent [n]: [x / 10^(n-k)] rounded down and up, and whether
    [x] is at most half way between them ([below]) or exactly half way. *)
Definition scaled_quotient (num den n k : Z) : Z * Z * Z :=
  let '(a, b) := if (k <=? n)%Z then (num, den * 10 ^ (n - k))%Z
                 else (num * 10 ^ (k - n), den)%Z in
  (a / b, a mod b, b)%Z.

(** The digits [s] (with [k] digits) and the exponent [n] of
    Number::toString: [k] is as small as possible such that [s * 10^(n-k)]
    reads back as [x]; among the two neighbours the closer one is taken,
    the even one on a tie. *)
Fixpoint shortest (fuel : nat) (x : number) (num den n k : Z) : Z * Z :=
  let '(lo, r, b) := scaled_quotient num den n k in
  let hi := (lo + 1)%Z in
  let ok_lo := match of_decimal false lo (n - k), x with
               | S754_finite _ m1 e1, S754_finite _ m2 e2 =>
                   Pos.eqb m1 m2 && Z.eqb e1 e2
               | _, _ => false
               end in
  let ok_hi := match of_decimal false hi (n - k), x with
               | S754_finite _ m1 e1, S754_finite _ m2 e2 =>
                   Pos.eqb m1 m2 && Z.eqb e1 e2
               | _, _ => false
               end in
  let take_hi := if (hi =? 10 ^ k)%Z then (10 ^ (k - 1), n + 1)%Z else (hi, n) in
  let take_lo := (lo, n) in
  let pick :=
    if ok_lo && ok_hi then
      match (2 * r ?= b)%Z with
      | Lt => Some take_lo
      | Gt => Some take_hi
      | Eq => Some (if Z.even lo then take_lo else take_hi)
      end
    else if ok_lo then Some take_lo
    else if ok_hi then Some take_hi
    else None in
  match pick, fuel with
  | Some res, _ => res
  | None, S f => shortest f x num den n (k + 1)
  | None, O => take_lo
  end.

Definition digit_string (s : Z) : jstring := Str.of_N (Z.to_N s).

Definition zeros (n : Z) : jstring := repeat (ch "0") (Z.to_nat n).

(** The text of a positive finite number from its digits [s] and decimal
    exponent [n] (steps 6 to 10 of Number::toString, radix 10). *)
Definition format_digits (s n : Z) : jstring :=
  let ds := digit_string s in
  let k := Z.of_nat (List.length ds) in
  if ((k <=? n) && (n <=? 21))%Z then ds ++ zeros (n - k)
  else if ((0 <? n) && (n <=? 21))%Z then
    firstn (Z.to_nat n) ds ++ js "." ++ skipn (Z.to_nat n) ds
  else if ((-6 <? n) && (n <=? 0))%Z then
    js "0." ++ zeros (- n) ++ ds
  else
    let e := (n - 1)%Z in
    let exp := (if (e <? 0)%Z then js "-" else js "+") ++ Str.of_N (Z.abs_N e) in
    match ds with
    | [] => []
    | [d] => d :: js "e" ++ exp
    | d :: rest => d :: js "." ++ rest ++ js "e" ++ exp
    end.

(** Number::toString(x), radix 10. *)
Definition to_string (x : number) : jstring :=
  match x with
  | S754_nan => js "NaN"
  | S754_zero _ => js "0"
  | S754_infinity neg => (if neg then js "-" else []) ++ js "Infinity"
  | S754_finite neg m e =>
      let num := if (0 <=? e)%Z then (Zpos m * 2 ^ e)%Z else Zpos m in
      let den := if (0 <=? e)%Z then 1%Z else (2 ^ (- e))%Z in
      let n := decimal_exponent num den in
      let '(s, n') := shortest 17 (S754_finite false m e) num den n 1 in
      (if neg then js "-" else []) ++ format_digits s n'
  end.

(** *** Reading a decimal literal *)

Fixpoint take_digits (s : jstring) : jstring * jstring :=
  match s with
  | c :: s' =>
      if Str.is_digit c then let '(ds, r) := take_digits s' in (c :: ds, r)
      else ([], s)
  | [] => ([], [])
  end.

Definition digits_value (ds : jstring) : Z :=
  fold_left (fun acc c => (acc * 10 + Z.of_N (c - 48))%Z) ds 0%Z.

(** An optional exponent part [[eE][+-]?digits]; without digits there is no
    exponent part and nothing is consumed. *)
Definition take_exponent (s : jstring) : Z * jstring :=
  match s with
  | c :: s1 =>
      if (N.eqb c (ch "e") || N.eqb c (ch "E"))%bool then
        let '(neg, s2) :=
          match s1 with
          | d :: s2 =>
              if N.eqb d (ch "-") then (true, s2)
              else if N.eqb d (ch "+") then (false, s2)
              else (false, s1)
          | [] => (false, s1)
          end in
        match take_digits s2 with
        | ([], _) => (0%Z, s)
        | (ds, r) => (cond_Zopp neg (digits_value ds), r)
        end
      else (0%Z, s)
  | [] => (0%Z, s)
  end.

(** The value of integer digits [ip], fraction digits [fp] and a decimal
    exponent [e]. *)
Definition decimal_value (neg : bool) (ip fp : jstring) (e : Z) : number :=
  of_decimal neg (digits_value (ip ++ fp)) (e - Z.of_nat (List.length fp)).

(** [parseFloat(s)]: leading white space is skipped and the longest prefix
    that is a StrDecimalLiteral is read; [NaN] when there is none. *)
Definition parseFloat (s : jstring) : number :=
  let s0 := Str.trimStart s in
  let '(neg, s1) :=
    match s0 with
    | c :: r =>
        if N.eqb c (ch "-") then (true, r)
        else if N.eqb c (ch "+") then (false, r)
        else (false, s0)
    | [] => (false, s0)
    end in
  if Str.is_prefix (js "Infinity") s1 then infinity neg
  else
    let '(ip, s2) := take_digits s1 in
    let '(fp, s3, has_dot) :=
      match s2 with
      | c :: r =>
          if N.eqb c (ch ".") then
            let '(fp, s3) := take_digits r in (fp, s3, true)
          else ([], s2, false)
      | [] => ([], s2, false)
      end in
    match ip, fp with
    | [], [] => NaN
    | _, _ =>
        let '(e, _) := take_exponent s3 in
        decimal_value neg ip fp e
    end.

End Num.

(* ===================================================================== *)
(** * Exceptions                                                          *)
(* ===================================================================== *)

Inductive exn := SyntaxError | TypeError | RangeError.

(** The outcome of evaluating an expression that may throw. *)
Inductive result (A : Type) :=
| Ok (a : A)
| Throw (e : exn).

Arguments Ok {A} a.
Arguments Throw {A} e.

Definition bind {A B} (x : result A) (f : A -> result B) : result B :=
  match x with
  | Ok a => f a
  | Throw e => Throw e
  end.

Declare Scope js_scope.
Delimit Scope js_scope with jsm.
Notation "x <- c ;; k" := (bind c (fun x => k))
  (at level 61, c at next level, right associativity) : js_scope.
Notation "' pat <- c ;; k" := (bind c (fun x => match x with pat => k end))
  (at level 61, pat pattern, c at next level, right associativity) : js_scope.

(** [xs.every(f)], [xs.map(f)] and [xs.filter(f)] for a callback that may
    throw: the callback runs on the elements in order and the first
    exception ends the traversal. *)
Fixpoint every {A} (f : A -> result bool) (xs : list A) : result bool :=
  match xs with
  | [] => Ok true
  | x :: xs' => bind (f x) (fun b => if b then every f xs' else Ok false)
  end.

Fixpoint mapM {A B} (f : A -> result B) (xs : list A) : result (list B) :=
  match xs with
  | [] => Ok []
  | x :: xs' => bind (f x) (fun y => bind (mapM f xs') (fun ys => Ok (y :: ys)))
  end.

Fixpoint reduceM {A B} (f : B -> A -> result B) (xs : list A) (acc : B) : result B :=
  match xs with
  | [] => Ok acc
  | x :: xs' => bind (f acc x) (fun acc' => reduceM f xs' acc')
  end.

(* ===================================================================== *)
(** * Values                                                              *)
(* ===================================================================== *)

(** The values [JSON.parse] builds.  An object keeps its properties in
    property order; [undefined] is the absence of a value ([None]). *)
#[local] Unset Elimination Schemes.
Inductive value :=
| VNull
| VBool (b : bool)
| VNum (n : Num.number)
| VStr (s : jstring)
| VArr (elems : list value)
| VObj (fields : list (jstring * value)).
#[local] Set Elimination Schemes.

Module JS.

Definition typeof (v : value) : jstring :=
  match v with
  | VNull | VArr _ | VObj _ => js "object"
  | VBool _ => js "boolean"
  | VNum _ => js "number"
  | VStr _ => js "string"
  end.

(** ToBoolean. *)
Definition truthy (v : value) : bool :=
  match v with
  | VNull => false
  | VBool b => b
  | VNum n => Num.truthy n
  | VStr s => Str.nonempty s
  | VArr _ | VObj _ => true
  end.

Definition truthy_opt (v : option value) : bool :=
  match v with Some v' => truthy v' | None => false end.

(** [a || b] when [a] may be [undefined]. *)
Definition or_default (a : option value) (b : value) : value :=
  match a with
  | Some v => if truthy v then v else b
  | None => b
  end.

Fixpoint assoc (k : jstring) (fs : list (jstring * value)) : option value :=
  match fs with
  | [] => None
  | (k', v) :: fs' => if jstr_eqb k k' then Some v else assoc k fs'
  end.

(** An array index: the canonical decimal text of an integer below
    [2^32 - 1]. *)
Definition array_index (k : jstring) : option N :=
  match k with
  | [] => None
  | c :: rest =>
      if forallb Str.is_digit k
         && (negb (N.eqb c (ch "0")) || match rest with [] => true | _ => false end)
      then
        let n := Z.to_N (Num.digits_value k) in
        if (n <? 4294967295)%N then Some n else None
      else None
  end.

(** The own property [k] of an object, an array or a string ([length]
    included). *)
Definition get_own (v : value) (k : jstring) : option value :=
  match v with
  | VObj fs => assoc k fs
  | VArr l =>
      match array_index k with
      | Some i => nth_error l (N.to_nat i)
      | None =>
          if jstr_eqb k (js "length")
          then Some (VNum (Num.of_Z (Z.of_nat (List.length l))))
          else None
      end
  | VStr s =>
      match array_index k with
      | Some i => option_map (fun c => VStr [c]) (nth_error s (N.to_nat i))
      | None =>
          if jstr_eqb k (js "length")
          then Some (VNum (Num.of_Z (Z.of_nat (List.length s))))
          else None
      end
  | _ => None
  end.

(** [v.k] and [v[k]].  Reading a property of [null] throws.  The engine
    reads properties of parsed records only, under the names [name],
    [value], [x], [y] and the record's own keys; none of the four names is
    defined on [Object.prototype] or [Array.prototype], so the lookup is
    the own-property lookup. *)
Definition get (v : value) (k : jstring) : result (option value) :=
  match v with
  | VNull => Throw TypeError
  | _ => Ok (get_own v k)
  end.

(** [k in v]: throws unless [v] is an object; same remark as for [get]. *)
Definition has_property (k : jstring) (v : value) : result bool :=
  match v with
  | VObj _ | VArr _ =>
      Ok (match get_own v k with Some _ => true | None => false end)
  | _ => Throw TypeError
  end.

Fixpoint indices (i n : nat) : list jstring :=
  match n with
  | O => []
  | S n' => Str.of_nat i :: indices (S i) n'
  end.

(** [Object.keys(v)]: own enumerable string keys in property order; throws
    on [null]. *)
Definition keys (v : value) : result (list jstring) :=
  match v with
  | VNull => Throw TypeError
  | VObj fs => Ok (List.map fst fs)
  | VArr l => Ok (indices 0 (List.length l))
  | VStr s => Ok (indices 0 (List.length s))
  | VBool _ | VNum _ => Ok []
  end.

(** [[...v]]: the elements of an array, the code points of a string; the
    other values are not iterable. *)
Fixpoint code_points (s : jstring) : list value :=
  match s with
  | [] => []
  | c :: s' =>
      match s' with
      | d :: s'' =>
          if ((55296 <=? c) && (c <=? 56319) && (56320 <=? d) && (d <=? 57343))%N
          then VStr [c; d] :: code_points s''
          else VStr [c] :: code_points s'
      | [] => [VStr [c]]
      end
  end.

Definition spread (v : value) : result (list value) :=
  match v with
  | VArr l => Ok l
  | VStr s => Ok (code_points s)
  | _ => Throw TypeError
  end.

(** [Array.isArray(v)]. *)
Definition isArray (v : value) : bool :=
  match v with VArr _ => true | _ => false end.

(** [xs.includes(k)] on an array of strings. *)
Definition includes (k : jstring) (xs : list jstring) : bool :=
  existsb (jstr_eqb k) xs.

Fixpoint join (sep : jstring) (xs : list jstring) : jstring :=
  match xs with
  | [] => []
  | [x] => x
  | x :: xs' => x ++ sep ++ join sep xs'
  end.

(** ToString of a value, through ToPrimitive for objects and arrays.  A
    parsed object is converted by the inherited [toString], which gives
    ["[object Object]"], unless it has an own [toString] property: that
    property is not callable, no conversion is left and a TypeError is
    thrown.  An array is converted by [join], which maps [null] to the
    empty string. *)
Fixpoint to_string (v : value) : result jstring :=
  match v with
  | VNull => Ok (js "null")
  | VBool b => Ok (if b then js "true" else js "false")
  | VNum n => Ok (Num.to_string n)
  | VStr s => Ok s
  | VObj fs =>
      match assoc (js "toString") fs with
      | Some _ => Throw TypeError
      | None => Ok (js "[object Object]")
      end
  | VArr l =>
      bind ((fix elems (l : list value) : result (list jstring) :=
               match l with
               | [] => Ok []
               | x :: l' =>
                   bind (match x with VNull => Ok [] | _ => to_string x end)
                     (fun s => bind (elems l') (fun ss => Ok (s :: ss)))
               end) l)
           (fun ss => Ok (join (js ",") ss))
  end.

(** ToNumber on the primitives other than strings. *)
Definition prim_to_number (v : value) : Num.number :=
  match v with
  | VNum n => n
  | VBool true => Num.of_Z 1
  | _ => Num.zero
  end.

Definition is_primitive (v : value) : bool :=
  match v with VArr _ | VObj _ => false | _ => true end.

(** ToPrimitive with no hint. *)
Definition to_primitive (v : value) : result value :=
  if is_primitive v then Ok v else bind (to_string v) (fun s => Ok (VStr s)).

(** The [+] operator. *)
Definition add (a b : value) : result value :=
  bind (to_primitive a) (fun pa =>
  bind (to_primitive b) (fun pb =>
    match pa, pb with
    | VStr _, _ | _, VStr _ =>
        bind (to_string pa) (fun sa =>
        bind (to_string pb) (fun sb => Ok (VStr (sa ++ sb))))
    | _, _ => Ok (VNum (Num.add (prim_to_number pa) (prim_to_number pb)))
    end)).

(** [v === 0]. *)
Definition is_zero (v : value) : bool :=
  match v with
  | VNum n => Num.eqb n Num.zero
  | _ => false
  end.

(** [v.length === 0]: the length of an array or of a string is its number
    of elements; an object has the [length] it was given, if any. *)
Definition length_is_zero (v : value) : bool :=
  match v with
  | VArr l => Nat.eqb (List.length l) 0
  | VStr s => Nat.eqb (List.length s) 0
  | VObj fs => match assoc (js "length") fs with Some l => is_zero l | None => false end
  | _ => false
  end.

End JS.

(* ===================================================================== *)
(** * JSON                                                                *)
(* ===================================================================== *)

Module JSON.

Definition hex_digit (n : N) : char :=
  if (n <? 10)%N then (48 + n)%N else (87 + n)%N.

(** [\uXXXX] with lower-case hexadecimal digits. *)
Definition unicode_escape (c : char) : jstring :=
  js "\u" ++ [hex_digit (c / 4096 mod 16); hex_digit (c / 256 mod 16);
              hex_digit (c / 16 mod 16); hex_digit (c mod 16)]%N.

Definition is_high_surrogate (c : char) : bool := ((55296 <=? c) && (c <=? 56319))%N.
Definition is_low_surrogate (c : char) : bool := ((56320 <=? c) && (c <=? 57343))%N.

(** The body of QuoteJSONString: the two-character escapes, [\uXXXX] for
    the other control characters and for lone surrogates. *)
Fixpoint quote_body (s : jstring) : jstring :=
  match s with
  | [] => []
  | c :: s' =>
      if N.eqb c 8 then js "\b" ++ quote_body s'
      else if N.eqb c 9 then js "\t" ++ quote_body s'
      else if N.eqb c 10 then js "\n" ++ quote_body s'
      else if N.eqb c 12 then js "\f" ++ quote_body s'
      else if N.eqb c 13 then js "\r" ++ quote_body s'
      else if N.eqb c 34 then [92; 34]%N ++ quote_body s'
      else if N.eqb c 92 then [92; 92]%N ++ quote_body s'
      else if (c <? 32)%N then unicode_escape c ++ quote_body s'
      else if is_high_surrogate c then
        match s' with
        | d :: s'' =>
            if is_low_surrogate d then c :: d :: quote_body s''
            else unicode_escape c ++ quote_body s'
        | [] => unicode_escape c
        end
      else if is_low_surrogate c then unicode_escape c ++ quote_body s'
      else c :: quote_body s'
  end.

Definition quote (s : jstring) : jstring := [34%N] ++ quote_body s ++ [34%N].

(** [JSON.stringify(v)] with no replacer and no indentation. *)
Fixpoint stringify (v : value) : jstring :=
  match v with
  | VNull => js "null"
  | VBool b => if b then js "true" else js "false"
  | VNum n => if Num.isFinite n then Num.to_string n else js "null"
  | VStr s => quote s
  | VArr l =>
      js "[" ++
      JS.join (js ",")
        ((fix elems (l : list value) : list jstring :=
            match l with
            | [] => []
            | x :: l' => stringify x :: elems l'
            end) l)
      ++ js "]"
  | VObj fs =>
      js "{" ++
      JS.join (js ",")
        ((fix members (fs : list (jstring * value)) : list jstring :=
            match fs with
            | [] => []
            | (k, x) :: fs' => (quote k ++ js ":" ++ stringify x) :: members fs'
            end) fs)
      ++ js "}"
  end.

(** *** JSON.parse *)

Definition is_ws (c : char) : bool :=
  ((c =? 9) || (c =? 10) || (c =? 13) || (c =? 32))%N.

Fixpoint skip_ws (s : jstring) : jstring :=
  match s with
  | c :: s' => if is_ws c then skip_ws s' else s
  | [] => []
  end.

Definition hex_value (c : char) : option N :=
  if Str.is_digit c then Some (c - 48)%N
  else if ((97 <=? c) && (c <=? 102))%N then Some (c - 87)%N
  else if ((65 <=? c) && (c <=? 70))%N then Some (c - 55)%N
  else None.

Definition hex4 (a b c d : char) : option char :=
  match hex_value a, hex_value b, hex_value c, hex_value d with
  | Some x, Some y, Some z, Some w => Some (x * 4096 + y * 256 + z * 16 + w)%N
  | _, _, _, _ => None
  end.

(** A string literal after its opening quote: the text and the input left
    after the closing quote. *)
Fixpoint parse_string (s : jstring) (acc : jstring) : option (jstring * jstring) :=
  match s with
  | [] => None
  | c :: s' =>
      if N.eqb c 34 then Some (rev acc, s')
      else if N.eqb c 92 then
        match s' with
        | e :: s'' =>
            if N.eqb e 34 then parse_string s'' (34%N :: acc)
            else if N.eqb e 92 then parse_string s'' (92%N :: acc)
            else if N.eqb e 47 then parse_string s'' (47%N :: acc)
            else if N.eqb e (ch "b") then parse_string s'' (8%N :: acc)
            else if N.eqb e (ch "f") then parse_string s'' (12%N :: acc)
            else if N.eqb e (ch "n") then parse_string s'' (10%N :: acc)
            else if N.eqb e (ch "r") then parse_string s'' (13%N :: acc)
            else if N.eqb e (ch "t") then parse_string s'' (9%N :: acc)
            else if N.eqb e (ch "u") then
              match s'' with
              | h1 :: h2 :: h3 :: h4 :: s3 =>
                  match hex4 h1 h2 h3 h4 with
                  | Some u => parse_string s3 (u :: acc)
                  | None => None
                  end
              | _ => None
              end
            else None
        | [] => None
        end
      else if (c <? 32)%N then None
      else parse_string s' (c :: acc)
  end.

(** A number literal: an optional minus sign, [0] or digits without a
    leading zero, an optional fraction with at least one digit, an optional
    exponent with at least one digit. *)
Definition parse_number (s : jstring) : option (Num.number * jstring) :=
  let '(neg, s1) :=
    match s with
    | c :: r => if N.eqb c (ch "-") then (true, r) else (false, s)
    | [] => (false, s)
    end in
  let int_part :=
    match s1 with
    | c :: r =>
        if N.eqb c (ch "0") then Some ([c], r)
        else if Str.is_digit c then Some (Num.take_digits s1)
        else None
    | [] => None
    end in
  match int_part with
  | None => None
  | Some (ip, s2) =>
      let '(fp, s3) :=
        match s2 with
        | c :: r =>
            if N.eqb c (ch ".") then
              match Num.take_digits r with
              | ([], _) => ([], s2)
              | (fp, s3) => (fp, s3)
              end
            else ([], s2)
        | [] => ([], s2)
        end in
      let '(e, s4) := Num.take_exponent s3 in
      Some (Num.decimal_value neg ip fp e, s4)
  end.

(** CreateDataProperty in property order: an existing key keeps its place
    and takes the new value; a new array-index key goes among the index
    keys, which come first in ascending order; any other new key goes
    last. *)
Fixpoint replace_field (k : jstring) (v : value) (fs : list (jstring * value))
  : list (jstring * value) :=
  match fs with
  | [] => []
  | (k', v') :: fs' =>
      if jstr_eqb k k' then (k', v) :: fs' else (k', v') :: replace_field k v fs'
  end.

Fixpoint insert_index (i : N) (k : jstring) (v : value) (fs : list (jstring * value))
  : list (jstring * value) :=
  match fs with
  | [] => [(k, v)]
  | (k', v') :: fs' =>
      match JS.array_index k' with
      | Some j => if (j <? i)%N then (k', v') :: insert_index i k v fs'
                  else (k, v) :: fs
      | None => (k, v) :: fs
      end
  end.

Definition define_property (k : jstring) (v : value) (fs : list (jstring * value))
  : list (jstring * value) :=
  match JS.assoc k fs with
  | Some _ => replace_field k v fs
  | None =>
      match JS.array_index k with
      | Some i => insert_index i k v fs
      | None => fs ++ [(k, v)]
      end
  end.

Definition starts_with (p : string) (s : jstring) : option jstring :=
  if Str.is_prefix (js p) s then Some (skipn (String.length p) s) else None.

(** One JSON value and the input left after it.  Every call consumes input
    or is followed by a call that does, so [2 * length + 2] unfoldings
    always suffice. *)
Fixpoint parse_value (fuel : nat) (s : jstring) {struct fuel}
  : option (value * jstring) :=
  match fuel with
  | O => None
  | S f =>
      match skip_ws s with
      | [] => None
      | c :: r =>
          if N.eqb c (ch "{") then
            match skip_ws r with
            | d :: r' =>
                if N.eqb d (ch "}") then Some (VObj [], r')
                else parse_members f (skip_ws r) []
            | [] => None
            end
          else if N.eqb c (ch "[") then
            match skip_ws r with
            | d :: r' =>
                if N.eqb d (ch "]") then Some (VArr [], r')
                else parse_elements f r []
            | [] => None
            end
          else if N.eqb c 34 then
            match parse_string r [] with
            | Some (str, r') => Some (VStr str, r')
            | None => None
            end
          else if N.eqb c (ch "t") then
            option_map (fun r' => (VBool true, r')) (starts_with "true" (c :: r))
          else if N.eqb c (ch "f") then
            option_map (fun r' => (VBool false, r')) (starts_with "false" (c :: r))
          else if N.eqb c (ch "n") then
            option_map (fun r' => (VNull, r')) (starts_with "null" (c :: r))
          else
            match parse_number (c :: r) with
            | Some (n, r') => Some (VNum n, r')
            | None => None
            end
      end
  end

with parse_elements (fuel : nat) (s : jstring) (acc : list value) {struct fuel}
  : option (value * jstring) :=
  match fuel with
  | O => None
  | S f =>
      match parse_value f s with
      | Some (v, r) =>
          match skip_ws r with
          | d :: r' =>
              if N.eqb d (ch ",") then parse_elements f r' (v :: acc)
              else if N.eqb d (ch "]") then Some (VArr (rev (v :: acc)), r')
              else None
          | [] => None
          end
      | None => None
      end
  end

with parse_members (fuel : nat) (s : jstring) (acc : list (jstring * value))
  {struct fuel} : option (value * jstring) :=
  match fuel with
  | O => None
  | S f =>
      match s with
      | q :: r0 =>
          if N.eqb q 34 then
            match parse_string r0 [] with
            | Some (key, r1) =>
                match skip_ws r1 with
                | c :: r2 =>
                    if N.eqb c (ch ":") then
                      match parse_value f r2 with
                      | Some (v, r3) =>
                          let acc' := define_property key v acc in
                          match skip_ws r3 with
                          | d :: r4 =>
                              if N.eqb d (ch ",") then parse_members f (skip_ws r4) acc'
                              else if N.eqb d (ch "}") then Some (VObj acc', r4)
                              else None
                          | [] => None
                          end
                      | None => None
                      end
                    else None
                | [] => None
                end
            | None => None
            end
          else None
      | [] => None
      end
  end.

(** [JSON.parse(text)] with no reviver: a SyntaxError unless the text is
    one JSON value surrounded by optional white space. *)
Definition parse (text : jstring) : result value :=
  match parse_value (2 * List.length text + 2) text with
  | Some (v, r) =>
      match skip_ws r with
      | [] => Ok v
      | _ :: _ => Throw SyntaxError
      end
  | None => Throw SyntaxError
  end.

End JSON.

(* ===================================================================== *)
(** * Chart specifications                                                *)
(* ===================================================================== *)

Module Chart.

(** The value of a chart's [type]: a canonical kind, or, for the two
    tokens that name a property inherited by [typeMap] from
    [Object.prototype], that inherited member. *)
Inductive chart_type :=
| Kind (name : jstring)
| Inherited (name : jstring).

Record Position := { x : nat; y : nat; w : nat; h : nat }.
Record Options := { showLegend : bool; showGrid : bool }.
Record Style := { colors : list jstring }.

Record ChartSpec := {
  id : jstring;
  type : chart_type;
  title : jstring;
  data : value;
  position : Position;
  options : Options;
  style : Style
}.

End Chart.

Import Chart.

(* ===================================================================== *)
(** * The patterns of chartDataParser.js                                  *)
(* ===================================================================== *)

Module Patterns.
Import Regex.

Definition ws : regex := Chr Str.is_space.
Definition word_or_space : char -> bool := either Str.is_word Str.is_space.
Definition digit_or_comma : char -> bool := either Str.is_digit (just ",").

(** [[-•\d.]] *)
Definition item_marker : char -> bool :=
  fun d => N.eqb d (ch "-") || N.eqb d bullet || Str.is_digit d || N.eqb d (ch ".").

(** [/```json\s*\n([\s\S]*?)\n```/g] *)
Definition codeBlockPattern : regex :=
  seq [lit "```json"; star ws; Chr is_nl; Group 1 (star_lazy (Chr any));
       Chr is_nl; lit "```"].

(** One [\{[^[\]]*\}\s*] of the array pattern. *)
Definition flat_object : regex :=
  seq [Chr (just "{"); star (Chr (none_of "[]")); Chr (just "}"); star ws].

(** [/\[\s*] [\{[^[\]]*\}\s*] [(?:,\s*\{[^[\]]*\}\s* )] [*\]/g] *)
Definition jsonArrayPattern : regex :=
  seq [Chr (just "["); star ws; flat_object;
       star (seq [Chr (just ","); star ws; flat_object]); Chr (just "]")].

(** [/^(.*?)\s*\(TYPE:\s*(\w+)\)\s*$/i] *)
Definition typePattern1 : regex :=
  seq [Bos; Group 1 (star_lazy (Chr dot)); star ws; Chr (just "("); lit_ci "TYPE:";
       star ws; Group 2 (plus (Chr Str.is_word)); Chr (just ")"); star ws; Eos].

(** [/^(.*?)\s*\[(\w+)\]\s*$/i] *)
Definition typePattern2 : regex :=
  seq [Bos; Group 1 (star_lazy (Chr dot)); star ws; Chr (just "[");
       Group 2 (plus (Chr Str.is_word)); Chr (just "]"); star ws; Eos].

(** [/\*\*([^*]+)\*\*\s*$/] *)
Definition boldPattern : regex :=
  seq [lit "**"; Group 1 (plus (Chr (none_of "*"))); lit "**"; star ws; Eos].

(** [/^Chart Title:\s*/i] *)
Definition chartTitlePrefix : regex :=
  seq [Bos; lit_ci "Chart Title:"; star ws].

(** [/#{1,3}\s+([^\n]+)\s*$/] *)
Definition headingPattern : regex :=
  seq [rep 1 3 (Chr (just "#")); plus ws; Group 1 (plus (Chr not_nl)); star ws; Eos].

(** [/([^:\n]+):\s*$/] *)
Definition colonPattern : regex :=
  seq [Group 1 (plus (Chr (fun d => negb (N.eqb d (ch ":")) && not_nl d)));
       Chr (just ":"); star ws; Eos].

(** [(?:#{1,3}\s+|\*\* )], the opening of a heading or of bold text. *)
Definition heading_or_bold : regex :=
  Alt (seq [rep 1 3 (Chr (just "#")); plus ws]) (lit "**").

(** [/(?:#{1,3}\s+|\*\* )([\w\s]+?)(?:\*\* )?(?:\n|$)/] *)
Definition nearHeadingPattern : regex :=
  seq [heading_or_bold; Group 1 (plus_lazy (Chr word_or_space)); opt (lit "**");
       Alt (Chr is_nl) Eos].

(** [/(?:\d+\.|[-•])\s+\*\*([^*]+)\*\*/] *)
Definition nearListPattern : regex :=
  seq [Alt (seq [plus (Chr Str.is_digit); Chr (just ".")])
           (Chr (fun d => N.eqb d (ch "-") || N.eqb d bullet));
       plus ws; lit "**"; Group 1 (plus (Chr (none_of "*"))); lit "**"].

(** [/\|([^\n]+)\|[\s\S]+?\n((?:\|[^\n]+\|\n?)+)/g] *)
Definition tablePattern : regex :=
  seq [Chr (just "|"); Group 1 (plus (Chr not_nl)); Chr (just "|");
       plus_lazy (Chr any); Chr is_nl;
       Group 2 (plus (seq [Chr (just "|"); plus (Chr not_nl); Chr (just "|");
                           opt (Chr is_nl)]))].

(** One [[-•\d.]\s+[^\n]+:\s*[\d,]+[^\n]*\n?] line of a list section. *)
Definition list_line : regex :=
  seq [Chr item_marker; plus ws; plus (Chr not_nl); Chr (just ":"); star ws;
       plus (Chr digit_or_comma); star (Chr not_nl); opt (Chr is_nl)].

(** [/(?:#{1,3}\s+|\*\* )([\w\s]+?)(?:\*\* )?[\s\S]{0,50}?((?:] list line [){3,})/g] *)
Definition sectionPattern : regex :=
  seq [heading_or_bold; Group 1 (plus_lazy (Chr word_or_space)); opt (lit "**");
       rep_lazy 0 50 (Chr any); Group 2 (at_least 3 list_line)].

(** [/[-•\d.]\s+([^:]+?):\s*([\d,]+)/g] *)
Definition itemPattern : regex :=
  seq [Chr item_marker; plus ws; Group 1 (plus_lazy (Chr (none_of ":")));
       Chr (just ":"); star ws; Group 2 (plus (Chr digit_or_comma))].

Definition time_words : list string :=
  ["date"; "time"; "month"; "year"; "day"; "period"]%string.

(** [/date|time|month|year|day|period/i] *)
Definition timePattern : regex := alt (List.map lit_ci time_words).

End Patterns.

(* ===================================================================== *)
(** * The engine                                                          *)
(* ===================================================================== *)

(** Calling a method on [undefined] throws a TypeError. *)
Definition required {A} (v : option A) : result A :=
  match v with
  | Some a => Ok a
  | None => Throw TypeError
  end.

(** [typeof v === 'number' && p(v)] for a possibly undefined [v]. *)
Definition number_where (p : Num.number -> bool) (v : option value) : bool :=
  match v with
  | Some (VNum n) => p n
  | _ => false
  end.

(** [a || b] on strings, [a] possibly [null]. *)
Definition or_string (a : option jstring) (b : jstring) : jstring :=
  match a with
  | Some s => if Str.nonempty s then s else b
  | None => b
  end.

Fixpoint filterM {A} (f : A -> result bool) (xs : list A) : result (list A) :=
  match xs with
  | [] => Ok []
  | a :: xs' =>
      bind (f a) (fun b =>
      bind (filterM f xs') (fun ys => Ok (if b then a :: ys else ys)))
  end.

(** [Array.prototype.sort] with a comparator: a stable insertion sort.  For
    a comparator that is a consistent ordering every conforming engine
    returns this result. *)
Fixpoint insert_by {A} (cmp : A -> A -> comparison) (a : A) (l : list A) : list A :=
  match l with
  | [] => [a]
  | b :: l' =>
      match cmp a b with
      | Gt => b :: insert_by cmp a l'
      | _ => a :: l
      end
  end.

Definition sort_by {A} (cmp : A -> A -> comparison) (l : list A) : list A :=
  fold_right (insert_by cmp) [] l.

Definition MAX_CHARTS : nat := 8.

Local Open Scope js_scope.

Section Engine.

(** [String.prototype.localeCompare] is implementation-defined: the engine
    is parameterised by it.  [Date_now] is the reading of the clock, held
    fixed during one run. *)
Variable localeCompare : jstring -> jstring -> comparison.
Variable Date_now : Z.

(** The callback of [data.every] in [isValidChartData]: does the item
    have a valid structure? *)
Definition validItem (item : value) : result bool :=
  if negb (jstr_eqb (JS.typeof item) (js "object"))
     || match item with VNull => true | _ => false end
  then Ok false
  else
    keys <- JS.keys item ;;
    if Nat.eqb (List.length keys) 0 then Ok false
    else
      has_name <- JS.has_property (js "name") item ;;
      has_value <- (if has_name then JS.has_property (js "value") item else Ok false) ;;
      if has_value then
        value <- JS.get item (js "value") ;;
        Ok (number_where (fun v => negb (Num.isNaN v) && Num.isFinite v) value)
      else
        has_x <- JS.has_property (js "x") item ;;
        has_y <- (if has_x then JS.has_property (js "y") item else Ok false) ;;
        if has_y then
          vx <- JS.get item (js "x") ;;
          vy <- JS.get item (js "y") ;;
          Ok (number_where (fun _ => true) vx && number_where (fun _ => true) vy)
        else
          numericFields <-
            filterM (fun k =>
                       v <- JS.get item k ;;
                       Ok (number_where (fun n => negb (Num.isNaN n)) v))
                    keys ;;
          Ok (Nat.leb 1 (List.length numericFields)).

(** The callback of [data.map]: [item.value || 0]. *)
Definition valueOrZero (item : value) : result value :=
  v <- JS.get item (js "value") ;;
  Ok (JS.or_default v (VNum Num.zero)).

(** Validate if data is suitable for chart creation. *)
Definition isValidChartData (data : value) : result bool :=
  match data with
  | VArr items =>
      if Nat.eqb (List.length items) 0 then Ok false
      else
        hasValidStructure <- every validItem items ;;
        if negb hasValidStructure then Ok false
        else
          values <- mapM valueOrZero items ;;
          sum <- reduceM JS.add values (VNum Num.zero) ;;
          if JS.is_zero sum then Ok false else Ok true
  | _ => Ok false
  end.

(** Create a signature for data to detect duplicates. *)
Definition createDataSignature (data : value) : result jstring :=
  items <- JS.spread data ;;
  let sorted :=
    sort_by (fun a b =>
               let aStr := JSON.stringify a in
               let bStr := JSON.stringify b in
               localeCompare aStr bStr)
            items in
  Ok (JSON.stringify (VArr sorted)).

Definition typeMap : list (jstring * jstring) :=
  [ (js "bar", js "bar"); (js "column", js "bar"); (js "line", js "line");
    (js "pie", js "pie"); (js "donut", js "pie"); (js "area", js "area");
    (js "scatter", js "scatter"); (js "scatterplot", js "scatter");
    (js "radar", js "radar"); (js "table", js "table");
    (js "heatmap", js "heatmap"); (js "gauge", js "gauge");
    (js "funnel", js "funnel"); (js "treemap", js "treemap");
    (js "histogram", js "histogram") ].

Fixpoint lookup_string (k : jstring) (m : list (jstring * jstring)) : option jstring :=
  match m with
  | [] => None
  | (k', v) :: m' => if jstr_eqb k k' then Some v else lookup_string k m'
  end.

(** Normalize chart type names.  [typeMap[normalized]] also finds the
    properties [typeMap] inherits from [Object.prototype]; the lower-case
    ones are [constructor] and [__proto__], and they are truthy. *)
Definition normalizeChartType (typeStr : jstring) : chart_type :=
  let normalized := Str.trim (Str.toLowerCase typeStr) in
  match lookup_string normalized typeMap with
  | Some kind => Kind kind
  | None =>
      if jstr_eqb normalized (js "constructor") || jstr_eqb normalized (js "__proto__")
      then Inherited normalized
      else Kind (js "bar")
  end.

(** Extract title and chart type from a title string. *)
Definition extractTitleAndType (titleStr : jstring)
  : result (jstring * option chart_type) :=
  if negb (Str.nonempty titleStr) then Ok (js "Chart", None)
  else
    match Regex.exec Patterns.typePattern1 titleStr with
    | Some match1 =>
        t <- required (Regex.group titleStr match1 1) ;;
        k <- required (Regex.group titleStr match1 2) ;;
        Ok (Str.trim t, Some (normalizeChartType k))
    | None =>
        match Regex.exec Patterns.typePattern2 titleStr with
        | Some match2 =>
            t <- required (Regex.group titleStr match2 1) ;;
            k <- required (Regex.group titleStr match2 2) ;;
            Ok (Str.trim t, Some (normalizeChartType k))
        | None => Ok (Str.trim titleStr, None)
        end
    end.

(** Extract title before a code block; [None] is [null]. *)
Definition extractTitleBeforeCodeBlock (fullText : jstring) (codeBlockIndex : nat)
  : result (option jstring) :=
  let beforeBlock := Str.substring (codeBlockIndex - 150) codeBlockIndex fullText in
  match Regex.exec Patterns.boldPattern beforeBlock with
  | Some boldMatch =>
      t <- required (Regex.group beforeBlock boldMatch 1) ;;
      Ok (Some (Regex.remove_first Patterns.chartTitlePrefix (Str.trim t)))
  | None =>
      match Regex.exec Patterns.headingPattern beforeBlock with
      | Some headingMatch =>
          t <- required (Regex.group beforeBlock headingMatch 1) ;;
          Ok (Some (Str.trim t))
      | None =>
          match Regex.exec Patterns.colonPattern beforeBlock with
          | Some colonMatch =>
              t <- required (Regex.group beforeBlock colonMatch 1) ;;
              Ok (Some (Str.trim t))
          | None => Ok None
          end
      end
  end.

(** Extract title from text near a data block; [None] is [null]. *)
Definition extractTitleNearData (fullText dataBlock : jstring)
  : result (option jstring) :=
  match Str.indexOf dataBlock fullText with
  | None => Ok None
  | Some dataIndex =>
      let beforeData := Str.substring (dataIndex - 200) dataIndex fullText in
      match Regex.exec Patterns.nearHeadingPattern beforeData with
      | Some headingMatch =>
          t <- required (Regex.group beforeData headingMatch 1) ;;
          Ok (Some (Str.trim t))
      | None =>
          match Regex.exec Patterns.nearListPattern beforeData with
          | Some listMatch =>
              t <- required (Regex.group beforeData listMatch 1) ;;
              Ok (Some (Str.trim t))
          | None => Ok None
          end
      end
  end.

(** Detect appropriate chart type based on data structure. *)
Definition detectChartType (data : value) : result jstring :=
  if negb (JS.truthy data) then Ok (js "bar")
  else
    if JS.length_is_zero data then Ok (js "bar")
    else
      firstItem <- JS.get data (js "0") ;;
      item <- required firstItem ;;
      keys <- JS.keys item ;;
      if JS.includes (js "x") keys && JS.includes (js "y") keys then Ok (js "scatter")
      else if existsb (fun k => Regex.test Patterns.timePattern k) keys then Ok (js "line")
      else if Nat.ltb 5 (List.length keys) then Ok (js "table")
      else Ok (js "bar").

(** Calculate position for new chart. *)
Definition calculatePosition (index : nat) : Position :=
  let row := index / 2 in
  let col := index mod 2 in
  {| x := col * 6; y := row * 4; w := 6; h := 4 |}.

(** Get default color scheme. *)
Definition getDefaultColors : list jstring :=
  [js "#8B5CF6"; js "#3B82F6"; js "#10B981"; js "#F59E0B"; js "#EF4444"; js "#EC4899"].

(** [`chart_${Date.now()}_${n}`] *)
Definition chart_id (n : nat) : jstring :=
  js "chart_" ++ Str.of_Z Date_now ++ js "_" ++ Str.of_nat n.

(** The record [{ name, value }] built by the table and list extractors. *)
Definition name_value (name : jstring) (v : Num.number) : value :=
  VObj [(js "name", VStr name); (js "value", VNum v)].

(** The body of the table loop for one match: the chart to push, if any. *)
Definition tableChart (text : jstring) (m : Regex.rmatch_result) (charts : list ChartSpec)
  : result (option ChartSpec) :=
  g1 <- required (Regex.group text m 1) ;;
  g2 <- required (Regex.group text m 2) ;;
  let headers := filter Str.nonempty (List.map Str.trim (Str.split (ch "|") g1)) in
  let rows := filter (fun r => Str.includes (js "|") r && negb (Str.includes (js "---") r))
                     (Str.split Regex.newline g2) in
  if Nat.ltb 0 (List.length rows) && Nat.leb 2 (List.length headers) then
    let data :=
      filter (fun d => JS.truthy_opt (JS.get_own d (js "name"))
                       && JS.truthy_opt (JS.get_own d (js "value")))
        (List.map (fun row =>
           let cells := filter Str.nonempty (List.map Str.trim (Str.split (ch "|") row)) in
           let name := or_string (nth_error cells 0) [] in
           let parsed := Num.parseFloat (match nth_error cells 1 with
                                         | Some c => c
                                         | None => js "undefined"
                                         end) in
           name_value name (if Num.truthy parsed then parsed else Num.zero))
           rows) in
    if Nat.ltb 0 (List.length data) then
      near <- extractTitleNearData text (Regex.matched text m) ;;
      Ok (Some {| id := chart_id (List.length charts);
                  type := Kind (js "bar");
                  title := or_string near (js "Data Table");
                  data := VArr data;
                  position := calculatePosition (List.length charts);
                  options := {| showLegend := true; showGrid := true |};
                  style := {| colors := getDefaultColors |} |})
    else Ok None
  else Ok None.

Fixpoint tableLoop (text : jstring) (ms : list Regex.rmatch_result)
  (charts : list ChartSpec) : result (list ChartSpec) :=
  match ms with
  | [] => Ok charts
  | m :: ms' =>
      c <- tableChart text m charts ;;
      tableLoop text ms' (match c with Some chart => charts ++ [chart] | None => charts end)
  end.

(** Extract charts from markdown tables. *)
Definition extractChartsFromTables (text : jstring) : result (list ChartSpec) :=
  tableLoop text (Regex.exec_all Patterns.tablePattern text) [].

(** The inner loop of the list extractor: the [{ name, value }] pairs of
    one section. *)
Fixpoint listItems (listContent : jstring) (ms : list Regex.rmatch_result)
  (data : list value) : result (list value) :=
  match ms with
  | [] => Ok data
  | itemMatch :: ms' =>
      g1 <- required (Regex.group listContent itemMatch 1) ;;
      g2 <- required (Regex.group listContent itemMatch 2) ;;
      let name := Str.trim g1 in
      let v := Num.parseFloat (Str.remove_all (ch ",") g2) in
      listItems listContent ms'
        (if Str.nonempty name && negb (Num.isNaN v)
         then data ++ [name_value name v] else data)
  end.

Definition listChart (text : jstring) (m : Regex.rmatch_result) (charts : list ChartSpec)
  : result (option ChartSpec) :=
  g1 <- required (Regex.group text m 1) ;;
  listContent <- required (Regex.group text m 2) ;;
  let title := Str.trim g1 in
  data <- listItems listContent (Regex.exec_all Patterns.itemPattern listContent) [] ;;
  if Nat.leb 3 (List.length data) then
    Ok (Some {| id := chart_id (List.length charts);
                type := Kind (js "bar");
                title := or_string (Some title) (js "Data Chart");
                data := VArr data;
                position := calculatePosition (List.length charts);
                options := {| showLegend := false; showGrid := true |};
                style := {| colors := getDefaultColors |} |})
  else Ok None.

Fixpoint listLoop (text : jstring) (ms : list Regex.rmatch_result)
  (charts : list ChartSpec) : result (list ChartSpec) :=
  match ms with
  | [] => Ok charts
  | m :: ms' =>
      c <- listChart text m charts ;;
      listLoop text ms' (match c with Some chart => charts ++ [chart] | None => charts end)
  end.

(** Extract charts from bullet/numbered lists with data. *)
Definition extractChartsFromLists (text : jstring) : result (list ChartSpec) :=
  listLoop text (Regex.exec_all Patterns.sectionPattern text) [].

(** ** The run-scoped state of [parseChartsFromResponse]

    [charts] and [seenDataSignatures] are mutated in place, so what a
    [try] block has written before it throws is still there in the
    [catch]: a computation returns the state together with its outcome. *)
Record run_state := {
  charts : list ChartSpec;
  seenDataSignatures : list jstring
}.

Definition run (A : Type) := run_state -> run_state * result A.

Definition ret {A} (a : A) : run A := fun st => (st, Ok a).

Definition bind_run {A B} (c : run A) (f : A -> run B) : run B :=
  fun st =>
    match c st with
    | (st', Ok a) => f a st'
    | (st', Throw e) => (st', Throw e)
    end.

Definition lift {A} (r : result A) : run A := fun st => (st, r).

Definition gets {A} (f : run_state -> A) : run A := fun st => (st, Ok (f st)).

(** [try { body } catch (e) { }] with a handler that only logs. *)
Definition try_catch (body : run unit) : run_state -> run_state :=
  fun st => fst (body st).

(** [seenDataSignatures.has(s)] and [seenDataSignatures.add(s)]. *)
Definition set_has (s : jstring) (seen : list jstring) : bool :=
  existsb (jstr_eqb s) seen.

Definition add_signature (s : jstring) : run unit :=
  fun st =>
    ({| charts := charts st;
        seenDataSignatures :=
          if set_has s (seenDataSignatures st) then seenDataSignatures st
          else seenDataSignatures st ++ [s] |}, Ok tt).

(** [charts.push(c)]. *)
Definition push_chart (c : ChartSpec) : run unit :=
  fun st =>
    ({| charts := charts st ++ [c]; seenDataSignatures := seenDataSignatures st |}, Ok tt).

Declare Scope run_scope.
Delimit Scope run_scope with run.
Notation "x <- c ;; k" := (bind_run c (fun x => k))
  (at level 61, c at next level, right associativity) : run_scope.
Notation "' pat <- c ;; k" := (bind_run c (fun x => match x with pat => k end))
  (at level 61, pat pattern, c at next level, right associativity) : run_scope.
Notation "c ;; k" := (bind_run c (fun _ => k))
  (at level 61, right associativity) : run_scope.

(** What follows the parse of a candidate, common to the fenced-block and
    inline-array loops up to the way the title is looked up. *)
Definition acceptCandidate (data : value) (findTitle : result (option jstring))
  : run unit :=
  (valid <- lift (isValidChartData data) ;;
   if negb valid then ret tt
   else
     dataSignature <- lift (createDataSignature data) ;;
     seen <- gets seenDataSignatures ;;
     if set_has dataSignature seen then ret tt
     else
       add_signature dataSignature ;;
       n <- gets (fun st => List.length (charts st)) ;;
       found <- lift findTitle ;;
       let titleRaw := or_string found (js "Chart " ++ Str.of_nat (n + 1)) in
       ' (title, type) <- lift (extractTitleAndType titleRaw) ;;
       chartType <- match type with
                    | Some t => ret t
                    | None => d <- lift (detectChartType data) ;; ret (Kind d)
                    end ;;
       push_chart {| id := chart_id n;
                     type := chartType;
                     title := title;
                     data := data;
                     position := calculatePosition n;
                     options := {| showLegend := true; showGrid := true |};
                     style := {| colors := getDefaultColors |} |})%run.

(** The [try] block of the fenced-block loop. *)
Definition codeBlockBody (responseText : jstring) (codeBlockMatch : Regex.rmatch_result)
  : run unit :=
  (g <- lift (required (Regex.group responseText codeBlockMatch 1)) ;;
   let jsonData := Str.trim g in
   data <- lift (JSON.parse jsonData) ;;
   acceptCandidate data
     (extractTitleBeforeCodeBlock responseText (Regex.index codeBlockMatch)))%run.

(** Pattern 0: the [while] loop over the fenced blocks. *)
Fixpoint codeBlockLoop (responseText : jstring) (ms : list Regex.rmatch_result)
  (st : run_state) : run_state :=
  match ms with
  | [] => st
  | codeBlockMatch :: ms' =>
      if Nat.leb MAX_CHARTS (List.length (charts st)) then st
      else codeBlockLoop responseText ms'
             (try_catch (codeBlockBody responseText codeBlockMatch) st)
  end.

(** The [try] block of the inline-array loop. *)
Definition jsonMatchBody (responseText : jstring) (match_ : jstring) : run unit :=
  (data <- lift (JSON.parse match_) ;;
   acceptCandidate data (extractTitleNearData responseText match_))%run.

(** Pattern 1: the [for] loop over the inline arrays. *)
Fixpoint jsonMatchLoop (responseText : jstring) (jsonMatches : list jstring)
  (st : run_state) : run_state :=
  match jsonMatches with
  | [] => st
  | match_ :: rest =>
      if Nat.leb MAX_CHARTS (List.length (charts st)) then st
      else jsonMatchLoop responseText rest
             (try_catch (jsonMatchBody responseText match_) st)
  end.

(** The state after patterns 0 and 1. *)
Definition parseJsonCandidates (responseText : jstring) : run_state :=
  let st0 := {| charts := []; seenDataSignatures := [] |} in
  let st1 := codeBlockLoop responseText
               (Regex.exec_all Patterns.codeBlockPattern responseText) st0 in
  let jsonMatches :=
    List.map (Regex.matched responseText)
             (Regex.exec_all Patterns.jsonArrayPattern responseText) in
  if Str.nonempty_list jsonMatches && Nat.ltb (List.length (charts st1)) MAX_CHARTS
  then jsonMatchLoop responseText jsonMatches st1
  else st1.

(** Patterns 2 and 3: [charts.push(...extracted.slice(0, remainingSlots))]
    when the limit is not reached. *)
Definition appendExtracted (extract : jstring -> result (list ChartSpec))
  (responseText : jstring) (charts : list ChartSpec) : result (list ChartSpec) :=
  if Nat.ltb (List.length charts) MAX_CHARTS then
    extracted <- extract responseText ;;
    let remainingSlots := MAX_CHARTS - List.length charts in
    Ok (charts ++ firstn remainingSlots extracted)
  else Ok charts.

(** Parse agent response and extract chart configurations. *)
Definition parseChartsFromResponse (responseText : jstring) : result (list ChartSpec) :=
  let st := parseJsonCandidates responseText in
  charts2 <- appendExtracted extractChartsFromTables responseText (charts st) ;;
  charts3 <- appendExtracted extractChartsFromLists responseText charts2 ;;
  Ok charts3.

End Engine.

(* ===================================================================== *)
(** * Definitions used to state the properties                            *)
(* ===================================================================== *)

Module RegexSpec.
Import Regex.

(** The groups that every successful match of [r] has recorded. *)
Fixpoint defines (r : regex) (n : nat) : bool :=
  match r with
  | Group m r1 => Nat.eqb n m || defines r1 n
  | Seq r1 r2 => defines r1 n || defines r2 n
  | Alt r1 r2 => defines r1 n && defines r2 n
  | _ => false
  end.

Definition is_set (n : nat) (caps : list (nat * (nat * nat))) : Prop :=
  exists span, lookup_cap n caps = Some span.

(** From [st] to [st'] every recorded group stays recorded, and the groups
    in [ds] are recorded. *)
Definition records (ds : nat -> bool) (st st' : mstate) : Prop :=
  forall n, ds n = true \/ is_set n (m_caps st) -> is_set n (m_caps st').

End RegexSpec.

(** * The fenced-block and inline-array loops as a step relation *)
Section PipelineSpec.

Variable localeCompare : jstring -> jstring -> comparison.
Variable Date_now : Z.

(** [st'] is [st] with one more chart, built from [data]. *)
Definition pushed (st : run_state) (data : value) (st' : run_state) : Prop :=
  exists c sig,
    charts st' = charts st ++ [c] /\
    seenDataSignatures st' = seenDataSignatures st ++ [sig] /\
    Chart.data c = data /\
    isValidChartData data = Ok true /\
    createDataSignature localeCompare data = Ok sig /\
    set_has sig (seenDataSignatures st) = false /\
    position c = calculatePosition (List.length (charts st)) /\
    id c = chart_id Date_now (List.length (charts st)).

(** [st'] has the charts of [st]; a signature may have been recorded. *)
Definition skipped (st st' : run_state) : Prop :=
  charts st' = charts st /\
  (seenDataSignatures st' = seenDataSignatures st \/
   exists sig, seenDataSignatures st' = seenDataSignatures st ++ [sig]).

(** One iteration of either loop, entered below the limit. *)
Inductive step (st st' : run_state) : Prop :=
| step_skip : skipped st st' -> step st st'
| step_push data :
    List.length (charts st) < MAX_CHARTS -> pushed st data st' -> step st st'.

Inductive steps : run_state -> run_state -> Prop :=
| steps_refl st : steps st st
| steps_cons st st1 st2 : step st st1 -> steps st1 st2 -> steps st st2.

Definition initial : run_state := {| charts := []; seenDataSignatures := [] |}.

Definition within_limit (st : run_state) : Prop :=
  List.length (charts st) <= MAX_CHARTS.

Definition all_valid (cs : list ChartSpec) : Prop :=
  Forall (fun c => isValidChartData (Chart.data c) = Ok true) cs.

(** Every chart has a signature, the signatures are pairwise distinct, and
    all of them are in the set of seen signatures. *)
Definition distinct_signatures (st : run_state) : Prop :=
  exists sigs,
    Forall2 (fun c s => createDataSignature localeCompare (Chart.data c) = Ok s)
            (charts st) sigs /\
    NoDup sigs /\ incl sigs (seenDataSignatures st).

(** Every chart sits at the grid cell of its index in the list. *)
Definition positioned (cs : list ChartSpec) : Prop :=
  forall i c, nth_error cs i = Some c -> position c = calculatePosition i.

End PipelineSpec.

(** * What the table and list extractors guarantee *)

(** Groups 1 and 2 of a match are defined. *)
Definition has_groups (text : jstring) (m : Regex.rmatch_result) : Prop :=
  (exists g, Regex.group text m 1 = Some g) /\ (exists g, Regex.group text m 2 = Some g).

(** A [{ name, value }] record with a non-empty name and a value other than
    [NaN]. *)
Definition named_number (r : value) : Prop :=
  exists name v, r = name_value name v /\ name <> [] /\ Num.isNaN v = false.

(** A bar chart over a non-empty array of such records. *)
Definition name_value_chart (c : ChartSpec) : Prop :=
  type c = Kind (js "bar") /\
  exists rows, data c = VArr rows /\ rows <> [] /\ Forall named_number rows.

(* ===================================================================== *)
(** * Concrete inputs                                                     *)
(* ===================================================================== *)

(** [jsq] reads a literal in which the apostrophe stands for the double
    quote, so that JSON text can be written down. *)
Definition jsq (s : string) : jstring :=
  List.map (fun c => if N.eqb c 39 then 34%N else c) (js s).

Definition nl : jstring := [Regex.newline].

(** A fenced block holding [body]. *)
Definition fenced (body : jstring) : jstring :=
  js "```json" ++ nl ++ body ++ nl ++ js "```" ++ nl.

(** A reference instance of [localeCompare]: the comparison of the code
    units. *)
Fixpoint code_unit_compare (a b : jstring) : comparison :=
  match a, b with
  | [], [] => Eq
  | [], _ :: _ => Lt
  | _ :: _, [] => Gt
  | x :: a', y :: b' =>
      match N.compare x y with
      | Eq => code_unit_compare a' b'
      | c => c
      end
  end.

(** The record [{"name": name, "value": v}] with an integer value. *)
Definition record (name : string) (v : Z) : value :=
  name_value (js name) (Num.of_Z v).

(** Ten fenced blocks with ten different one-record datasets. *)
Definition block (i : nat) : jstring :=
  fenced (jsq "[{'name':'A','value':" ++ Str.of_nat i ++ js "}]").

Definition ten_blocks : jstring := List.concat (List.map block (List.seq 1 10)).

Definition dataset (i : nat) : value := VArr [record "A" (Z.of_nat i)].

(** A table whose two values cancel. *)
Definition cancelling_table : jstring :=
  js "| Region | Sales |" ++ nl ++ js "|---|---|" ++ nl ++
  js "| East | 5 |" ++ nl ++ js "| West | -5 |" ++ nl.

(** A list section whose values are all zero. *)
Definition zero_list : jstring :=
  js "## Sales" ++ nl ++ js "- a: 0" ++ nl ++ js "- b: 0" ++ nl ++ js "- c: 0" ++ nl.

(** The same table twice, the second time with its rows swapped. *)
Definition sales_table : jstring :=
  js "| Region | Sales |" ++ nl ++ js "|---|---|" ++ nl ++
  js "| East | 120 |" ++ nl ++ js "| West | 95 |" ++ nl.

Definition sales_table_swapped : jstring :=
  js "| Region | Sales |" ++ nl ++ js "|---|---|" ++ nl ++
  js "| West | 95 |" ++ nl ++ js "| East | 120 |" ++ nl.

Definition table_twice : jstring :=
  sales_table ++ nl ++ js "Again:" ++ nl ++ nl ++ sales_table_swapped.

(** A fenced dataset followed by a table. *)
Definition block_then_table : jstring :=
  fenced (jsq "[{'name':'A','value':1}]") ++ nl ++ sales_table.


(** The zero-sum dataset as the only data block. *)
Definition zero_block : jstring :=
  fenced (jsq "[{'name':'A','value':0},{'name':'B','value':0}]").

(** An annotated title immediately followed by a fenced array. *)
Definition revenue_text : jstring :=
  js "**Revenue (TYPE: line)**" ++ nl ++
  fenced (jsq "[{'name':'Q1','value':10},{'name':'Q2','value':12}]").

(** A fenced array whose only record has an overflowing literal. *)
Definition overflow_block : jstring := fenced (jsq "[{'value':1e999}]").

(* ===================================================================== *)
(** * Definitions that state the claims                                   *)
(* ===================================================================== *)

(** The fenced block matched by [m] holds JSON text that parses to the valid
    dataset [d]. *)
Definition fenced_candidate (text : jstring) (m : Regex.rmatch_result) (d : value) : Prop :=
  exists g, Regex.group text m 1 = Some g /\
            JSON.parse (Str.trim g) = Ok d /\
            isValidChartData d = Ok true.


(** A decidable test for the absence of duplicates in a list of strings. *)
Fixpoint distinct (l : list jstring) : bool :=
  match l with
  | [] => true
  | a :: l' => negb (existsb (jstr_eqb a) l') && distinct l'
  end.

(** Both properties [a] and [b] are present on [item]. *)
Definition has_both (a b : jstring) (item : value) : bool :=
  match JS.get_own item a, JS.get_own item b with
  | Some _, Some _ => true
  | _, _ => false
  end.

(** The item has neither the name/value shape nor the x/y shape: the
    Validator judges it by its generic rule. *)
Definition generic_shape (item : value) : Prop :=
  has_both (js "name") (js "value") item = false /\
  has_both (js "x") (js "y") item = false.

(** The element's [value] field read as a number, [0] when it is absent. *)
Definition value_reading (item : value) : Num.number :=
  match JS.get_own item (js "value") with
  | Some (VNum n) => n
  | _ => Num.zero
  end.

(** The sum of the [value] fields, from left to right, starting from [0]. *)
Definition value_sum (items : list value) : Num.number :=
  fold_left (fun acc item => Num.add acc (value_reading item)) items Num.zero.

(** The element's [value] field is absent or a number. *)
Definition numeric_or_absent (item : value) : Prop :=
  match JS.get_own item (js "value") with
  | None | Some (VNum _) => True
  | Some _ => False
  end.

(** The only record of [overflow_block] once parsed. *)
Definition infinite_record : value := VObj [(js "value", VNum (Num.infinity false))].

(** What the engine adds up for an element whose [value] is absent or a
    number: [item.value || 0]. *)
Definition engine_reading (item : value) : Num.number :=
  match JS.get_own item (js "value") with
  | Some (VNum n) => if Num.truthy n then n else Num.zero
  | _ => Num.zero
  end.

(** Two running sums agree, or both are a zero. *)
Definition same_or_zeros (a b : Num.number) : Prop :=
  a = b \/ (exists sa sb, a = S754_zero sa /\ b = S754_zero sb).

(** [w] read at the start of [s], letter case ignored. *)
Fixpoint starts_with_ci (w s : jstring) : bool :=
  match w, s with
  | [], _ => true
  | c :: w', d :: s' => N.eqb (Str.lower d) (Str.lower c) && starts_with_ci w' s'
  | _ :: _, [] => false
  end.

(** [w] occurs in [k], letter case ignored. *)
Definition occurs_ci (w k : jstring) : Prop :=
  exists pre post, k = pre ++ post /\ starts_with_ci w post = true.

(** The field name contains one of the time-related words. *)
Definition time_related (k : jstring) : Prop :=
  exists w, In w Patterns.time_words /\ occurs_ci (js w) k.

(** The state after reading the letters of [w] from [st], letter case
    ignored. *)
Fixpoint read_ci (w : jstring) (st : Regex.mstate) : option Regex.mstate :=
  match w with
  | [] => Some st
  | c :: w' =>
      match Regex.m_rest st with
      | d :: rest =>
          if N.eqb (Str.lower d) (Str.lower c) then read_ci w' (Regex.advance st rest)
          else None
      | [] => None
      end
  end.

Definition is_some {A} (o : option A) : bool :=
  match o with Some _ => true | None => false end.

(** What the language requires of [localeCompare]: it is a consistent
    comparison function.  Swapping the arguments gives the opposite answer
    and "not after" is transitive; it may return [0] for two different
    strings (it has to for canonically equivalent ones). *)
Record consistent_comparator (cmp : jstring -> jstring -> comparison) : Prop := {
  cmp_opp : forall a b, cmp b a = CompOpp (cmp a b);
  cmp_le_trans : forall a b c, cmp a b <> Gt -> cmp b c <> Gt -> cmp a c <> Gt
}.

(** [cmp] returns [0] for two of the strings only when they are the same
    string. *)
Definition separates (cmp : jstring -> jstring -> comparison) (strs : list jstring) : Prop :=
  forall a b, In a strs -> In b strs -> cmp a b = Eq -> a = b.

(** A comparison that takes no account of soft hyphens (U+00AD), which
    collation ignores: the code units are compared once these are left
    out. *)
Definition soft_hyphen : char := 173%N.

Definition without_soft_hyphens (s : jstring) : jstring :=
  filter (fun c => negb (N.eqb c soft_hyphen)) s.

Definition compare_ignoring_soft_hyphens (a b : jstring) : comparison :=
  code_unit_compare (without_soft_hyphens a) (without_soft_hyphens b).

(** Two records whose names differ by a soft hyphen only. *)
Definition hyphenated : value :=
  name_value (js "a" ++ [soft_hyphen]) (Num.of_Z 1).

Definition unhyphenated : value := name_value (js "a") (Num.of_Z 1).

(** [a] is not after [b]. *)
Definition not_after (cmp : jstring -> jstring -> comparison) (a b : jstring) : Prop :=
  cmp a b <> Gt.

(* ===================================================================== *)
(** * The rest of chartDataParser.js and what uses its output             *)
(* ===================================================================== *)

(** The patterns of [extractDataFromText]. *)
Module TextPatterns.
Import Regex.

Definition digit_comma_dot : char -> bool :=
  fun d => Str.is_digit d || N.eqb d (ch ",") || N.eqb d (ch ".").

(** [[:\(]] *)
Definition colon_or_paren : char -> bool :=
  fun d => N.eqb d (ch ":") || N.eqb d (ch "(").

(** [/[-•]\s*([^:(\n]+?)[:\(]\s*([\d,.]+)/g] *)
Definition bulletPattern : regex :=
  seq [Chr (fun d => N.eqb d (ch "-") || N.eqb d bullet); star Patterns.ws;
       Group 1 (plus_lazy (Chr (fun d => negb (colon_or_paren d) && not_nl d)));
       Chr colon_or_paren; star Patterns.ws; Group 2 (plus (Chr digit_comma_dot))].

(** One capitalised word, [[A-Z][a-z]+]. *)
Definition capitalised : regex :=
  seq [Chr Str.is_upper; plus (Chr Str.is_lower)].

(** The second pattern: group 1 is one capitalised word followed by any
    number of [\s+] and a capitalised word; then [\s*], [[:\(]], [\s*] and
    group 2, [[\d,.]+]. *)
Definition namePattern : regex :=
  seq [Group 1 (seq [capitalised; star (seq [plus Patterns.ws; capitalised])]);
       star Patterns.ws; Chr colon_or_paren; star Patterns.ws;
       Group 2 (plus (Chr digit_comma_dot))].

End TextPatterns.

(** The [while] loop of [extractDataFromText] over the matches of one
    pattern: it stops as soon as [data] holds [maxItems] items. *)
Fixpoint textItems (text : jstring) (ms : list Regex.rmatch_result) (maxItems : nat)
  (data : list value) : result (list value) :=
  match ms with
  | [] => Ok data
  | m :: ms' =>
      if Nat.ltb (List.length data) maxItems then
        (g1 <- required (Regex.group text m 1) ;;
         g2 <- required (Regex.group text m 2) ;;
         let name := Str.trim g1 in
         let v := Num.parseFloat (Str.remove_all (ch ",") g2) in
         textItems text ms' maxItems
           (if negb (Num.isNaN v) && Nat.ltb 0 (List.length name)
            then data ++ [name_value name v] else data))%jsm
      else Ok data
  end.

(** Extract data points from text description, for a count [maxItems] that
    is a non-negative integer (10 when the argument is left out).  The
    second pattern is tried only when the first has found nothing. *)
Definition extractDataFromText (text : jstring) (maxItems : nat) : result (list value) :=
  (data1 <- textItems text (Regex.exec_all TextPatterns.bulletPattern text) maxItems [] ;;
   data2 <- (if Nat.ltb 0 (List.length data1) then Ok data1
             else textItems text (Regex.exec_all TextPatterns.namePattern text)
                            maxItems data1) ;;
   Ok (firstn maxItems data2))%jsm.

(** ** DashboardPanel.jsx: the grid layout built from the charts *)

Module Grid.

Record item := {
  i : jstring;
  x : nat; y : nat; w : nat; h : nat;
  minW : nat; minH : nat
}.

(** [a || b] on non-negative integers: [0] is falsy. *)
Definition or_nat (a b : nat) : nat :=
  match a with O => b | S _ => a end.

Fixpoint layout_from (idx : nat) (charts : list ChartSpec) : list item :=
  match charts with
  | [] => []
  | chart :: rest =>
      {| i := Chart.id chart;
         x := or_nat (Chart.x (position chart)) ((idx mod 2) * 6);
         y := or_nat (Chart.y (position chart)) ((idx / 2) * 4);
         w := or_nat (Chart.w (position chart)) 6;
         h := or_nat (Chart.h (position chart)) 4;
         minW := 3; minH := 3 |} :: layout_from (S idx) rest
  end.

(** [charts.map((chart, idx) => ({ i: chart.id, x: chart.position?.x ||
    (idx % 2) * 6, ... }))] for charts that have a position. *)
Definition gridLayout (charts : list ChartSpec) : list item := layout_from 0 charts.

End Grid.

(** ** Definitions that state the further properties *)

(** Two grid rectangles share a cell. *)
Definition overlaps (p q : Position) : Prop :=
  Chart.x p < Chart.x q + Chart.w q /\ Chart.x q < Chart.x p + Chart.w p /\
  Chart.y p < Chart.y q + Chart.h q /\ Chart.y q < Chart.y p + Chart.h p.

(** The canonical kinds: the values of [typeMap]. *)
Definition canonical_kinds : list jstring :=
  [js "bar"; js "line"; js "pie"; js "area"; js "scatter"; js "radar"; js "table";
   js "heatmap"; js "gauge"; js "funnel"; js "treemap"; js "histogram"].

(** A chart type the engine can produce: a canonical kind, or one of the two
    members [typeMap] inherits under a lower-case name. *)
Definition producible_type (t : chart_type) : Prop :=
  match t with
  | Kind k => In k canonical_kinds
  | Inherited n => n = js "constructor" \/ n = js "__proto__"
  end.

(** No white space at either end. *)
Definition is_trimmed (s : jstring) : bool :=
  match s with
  | [] => true
  | c :: _ => negb (Str.is_space c) && negb (Str.is_space (List.last s c))
  end.

(** The element has both a [name] and a [value] field. *)
Definition name_value_shaped (item : value) : Prop :=
  has_both (js "name") (js "value") item = true.

(** The element's [value] field is a finite number. *)
Definition finite_value (item : value) : bool :=
  number_where (fun v => negb (Num.isNaN v) && Num.isFinite v)
               (JS.get_own item (js "value")).

(** A [{ name, value }] record with a non-empty name and a truthy value
    (a number other than [0], [-0] and [NaN]). *)
Definition named_nonzero (r : value) : Prop :=
  exists name v, r = name_value name v /\ name <> [] /\ Num.truthy v = true.

(** What [extractChartsFromTables] returns for one table. *)
Definition table_chart (c : ChartSpec) : Prop :=
  type c = Kind (js "bar") /\
  options c = {| showLegend := true; showGrid := true |} /\
  style c = {| colors := getDefaultColors |} /\
  title c <> [] /\
  exists rows, data c = VArr rows /\ rows <> [] /\ Forall named_nonzero rows.

(** What [extractChartsFromLists] returns for one section. *)
Definition list_chart (c : ChartSpec) : Prop :=
  type c = Kind (js "bar") /\
  options c = {| showLegend := false; showGrid := true |} /\
  style c = {| colors := getDefaultColors |} /\
  title c <> [] /\
  exists rows, data c = VArr rows /\ 3 <= List.length rows /\ Forall named_number rows.

(** The kinds [detectChartType] can return. *)
Definition detected_kinds : list jstring :=
  [js "bar"; js "scatter"; js "line"; js "table"].

(** What the fenced-block and inline-array loops push: validated data, a
    trimmed title, a type the engine can produce, legend and grid shown, the
    default colours. *)
Definition json_chart (c : ChartSpec) : Prop :=
  isValidChartData (data c) = Ok true /\
  is_trimmed (title c) = true /\
  producible_type (type c) /\
  options c = {| showLegend := true; showGrid := true |} /\
  style c = {| colors := getDefaultColors |}.

(** Every chart carries the identifier of its index in the list. *)
Definition identified (Date_now : Z) (cs : list ChartSpec) : Prop :=
  forall i c, nth_error cs i = Some c -> id c = chart_id Date_now i.


(** No code unit of [text] satisfies [q]. *)
Definition lacks (q : char -> bool) (text : jstring) : Prop :=
  forall d, In d text -> q d = false.

(** Every match of [r] consumes a code unit that satisfies [q]: some atom
    that no match can skip accepts only such code units. *)
Fixpoint requires (q : char -> bool) (r : Regex.regex) : Prop :=
  match r with
  | Regex.Empty | Regex.Bos | Regex.Eos => False
  | Regex.Chr p => forall d, p d = true -> q d = true
  | Regex.Seq r1 r2 => requires q r1 \/ requires q r2
  | Regex.Alt r1 r2 => requires q r1 /\ requires q r2
  | Regex.Rep _ lo hi r1 => 0 < lo /\ hi <> Some 0 /\ requires q r1
  | Regex.Group _ r1 => requires q r1
  end.

(** The rest of the input holds no code unit that satisfies [q]. *)
Definition clean (q : char -> bool) (st : Regex.mstate) : Prop :=
  lacks q (Regex.m_rest st).

(** The matcher fails whenever its continuation fails on clean states. *)
Definition passes_clean (q : char -> bool) (m : Regex.matcher) : Prop :=
  forall st k, clean q st -> (forall st', clean q st' -> k st' = None) -> m st k = None.

(** The code units one of which every data block contains: a backquote, an
    opening bracket, a vertical bar or a colon. *)
Definition data_marker : char -> bool := Regex.one_of "`[|:".

(** The layout item of a chart that keeps the chart's own position. *)
Definition stored_item (c : ChartSpec) : Grid.item :=
  {| Grid.i := id c;
     Grid.x := Chart.x (position c); Grid.y := Chart.y (position c);
     Grid.w := Chart.w (position c); Grid.h := Chart.h (position c);
     Grid.minW := 3; Grid.minH := 3 |}.

(* ===================================================================== *)
(** * The host's regular-expression engine                                *)
(* ===================================================================== *)

(** The matcher of [Regex] is the one of the language specification, which
    puts no bound on what a search may use.  An engine runs it on a
    backtrack stack: an entry is pushed for every choice left open (the
    second branch of a disjunction, the exit of a greedy quantifier, the
    next iteration of a lazy one) and popped when the choice is taken up.
    The stack has a capacity, and a search that needs more throws a
    RangeError.  The capacity, and which of the choices an engine has to
    keep on its stack, are implementation-defined: the model keeps every
    choice left open, as the matcher of the language specification does in
    its continuations, and takes the capacity as a parameter.

    [Backtrack] is the same matcher with the depth of that stack made
    explicit: a search returns its result together with the deepest stack
    it reached. *)
Module Backtrack.
Import Regex.

Definition outcome := (option mstate * nat)%type.
Definition continuation := mstate -> nat -> outcome.
Definition matcher := mstate -> nat -> continuation -> outcome.

(** A choice at depth [d]: [first] runs with the entry for [second] on
    the stack; when it fails the entry is popped and [second] runs. *)
Definition choice (d : nat) (first second : nat -> outcome) : outcome :=
  match first (S d) with
  | (Some st, deepest) => (Some st, deepest)
  | (None, deepest) =>
      let (r, deepest') := second d in (r, Nat.max deepest deepest')
  end.

Fixpoint repeat_matcher (m : matcher) (greedy : bool) (fuel lo : nat)
  (hi : option nat) (st : mstate) (d : nat) (k : continuation) {struct fuel}
  : outcome :=
  match fuel with
  | O => (None, d)
  | S fuel' =>
      match hi with
      | Some O => k st d
      | _ =>
          let iter := fun d' =>
            m st d' (fun st' d'' =>
              if Nat.eqb lo 0 && Nat.eqb (m_pos st') (m_pos st) then (None, d'')
              else repeat_matcher m greedy fuel' (pred lo) (dec_hi hi) st' d'' k) in
          if Nat.ltb 0 lo then iter d
          else if greedy then choice d iter (k st)
          else choice d (k st) iter
      end
  end.

Fixpoint rmatch (r : regex) {struct r} : matcher :=
  match r with
  | Empty => fun st d k => k st d
  | Chr p => fun st d k =>
      match m_rest st with
      | c :: rest => if p c then k (advance st rest) d else (None, d)
      | [] => (None, d)
      end
  | Bos => fun st d k => if Nat.eqb (m_pos st) 0 then k st d else (None, d)
  | Eos => fun st d k => match m_rest st with [] => k st d | _ :: _ => (None, d) end
  | Seq r1 r2 => fun st d k => rmatch r1 st d (fun st' d' => rmatch r2 st' d' k)
  | Alt r1 r2 => fun st d k =>
      choice d (fun d' => rmatch r1 st d' k) (fun d' => rmatch r2 st d' k)
  | Group n r1 => fun st d k =>
      rmatch r1 st d (fun st' d' => k (set_cap n (m_pos st) st') d')
  | Rep greedy lo hi r1 => fun st d k =>
      repeat_matcher (rmatch r1) greedy (S (lo + List.length (m_rest st))) lo hi st d k
  end.

(** One attempt at index [i], on an empty stack. *)
Definition match_at (r : regex) (i : nat) (rest : jstring)
  : option rmatch_result * nat :=
  match rmatch r {| m_pos := i; m_rest := rest; m_caps := [] |} 0
               (fun st d => (Some st, d)) with
  | (Some st, deepest) =>
      (Some {| index := i; last := m_pos st; captures := m_caps st |}, deepest)
  | (None, deepest) => (None, deepest)
  end.

(** First match at or after index [i], and the deepest stack of the
    attempts made. *)
Fixpoint search_from (r : regex) (i : nat) (rest : jstring)
  : option rmatch_result * nat :=
  match match_at r i rest with
  | (Some m, deepest) => (Some m, deepest)
  | (None, deepest) =>
      match rest with
      | [] => (None, deepest)
      | _ :: rest' =>
          let (m, deepest') := search_from r (S i) rest' in
          (m, Nat.max deepest deepest')
      end
  end.

End Backtrack.

(* ===================================================================== *)
(** * The engine on a host                                                *)
(* ===================================================================== *)

(** [s.some(f)] for a callback that may throw. *)
Fixpoint some {A} (f : A -> result bool) (xs : list A) : result bool :=
  match xs with
  | [] => Ok false
  | x :: xs' => bind (f x) (fun b => if b then Ok true else some f xs')
  end.

(** The functions of chartDataParser.js as a host runs them: every search
    of a regular expression goes through the host's engine, whose backtrack
    stack holds [capacity] entries.  Inside a [try] block the RangeError of
    a search is caught like any other exception; the four scans of
    [parseChartsFromResponse] and the table and list extractors run outside
    every [try] block. *)
Module Host.
Section Host.

Variable capacity : nat.
Variable localeCompare : jstring -> jstring -> comparison.
Variable Date_now : Z.

(** The result of a search that stays within the capacity. *)
Definition within {A} (o : A * nat) : result A :=
let (a, deepest) := o in
if Nat.ltb capacity deepest then Throw RangeError else Ok a.

(** [re.exec(s)] with [re.lastIndex] at [from]. *)
Definition exec_from (r : Regex.regex) (s : jstring) (from : nat)
: result (option Regex.rmatch_result) :=
within (Backtrack.search_from r from (skipn from s)).

(** [re.exec(s)] / [s.match(re)] for a pattern without the [g] flag. *)
Definition exec (r : Regex.regex) (s : jstring) : result (option Regex.rmatch_result) :=
exec_from r s 0.

(** [re.test(s)]. *)
Definition test (r : Regex.regex) (s : jstring) : result bool :=
m <- exec r s ;;
Ok (match m with Some _ => true | None => false end).

(** [s.match(re)] with the [g] flag, and a
  [while ((m = re.exec(s)) !== null)] loop whose body neither searches
  nor leaves the loop: all the matches, in order. *)
Fixpoint exec_all_fuel (fuel : nat) (r : Regex.regex) (s : jstring) (from : nat)
: result (list Regex.rmatch_result) :=
match fuel with
| O => Ok []
| S fuel' =>
    found <- exec_from r s from ;;
    match found with
    | None => Ok []
    | Some m =>
        let next := if Nat.eqb (Regex.last m) (Regex.index m)
                    then S (Regex.last m) else Regex.last m in
        rest <- (if Nat.ltb (List.length s) next then Ok []
                 else exec_all_fuel fuel' r s next) ;;
        Ok (m :: rest)
    end
end.

Definition exec_all (r : Regex.regex) (s : jstring)
: result (list Regex.rmatch_result) :=
exec_all_fuel (S (List.length s)) r s 0.

(** [s.replace(re, '')] for a pattern without the [g] flag. *)
Definition remove_first (r : Regex.regex) (s : jstring) : result jstring :=
found <- exec r s ;;
Ok (match found with
    | Some m => firstn (Regex.index m) s ++ skipn (Regex.last m) s
    | None => s
    end).

(** Extract title and chart type from a title string. *)
Definition extractTitleAndType (titleStr : jstring)
: result (jstring * option chart_type) :=
if negb (Str.nonempty titleStr) then Ok (js "Chart", None)
else
  found1 <- exec Patterns.typePattern1 titleStr ;;
  match found1 with
  | Some match1 =>
      t <- required (Regex.group titleStr match1 1) ;;
      k <- required (Regex.group titleStr match1 2) ;;
      Ok (Str.trim t, Some (normalizeChartType k))
  | None =>
      found2 <- exec Patterns.typePattern2 titleStr ;;
      match found2 with
      | Some match2 =>
          t <- required (Regex.group titleStr match2 1) ;;
          k <- required (Regex.group titleStr match2 2) ;;
          Ok (Str.trim t, Some (normalizeChartType k))
      | None => Ok (Str.trim titleStr, None)
      end
  end.

(** Extract title before a code block; [None] is [null]. *)
Definition extractTitleBeforeCodeBlock (fullText : jstring) (codeBlockIndex : nat)
: result (option jstring) :=
let beforeBlock := Str.substring (codeBlockIndex - 150) codeBlockIndex fullText in
bold <- exec Patterns.boldPattern beforeBlock ;;
match bold with
| Some boldMatch =>
    t <- required (Regex.group beforeBlock boldMatch 1) ;;
    title <- remove_first Patterns.chartTitlePrefix (Str.trim t) ;;
    Ok (Some title)
| None =>
    heading <- exec Patterns.headingPattern beforeBlock ;;
    match heading with
    | Some headingMatch =>
        t <- required (Regex.group beforeBlock headingMatch 1) ;;
        Ok (Some (Str.trim t))
    | None =>
        colon <- exec Patterns.colonPattern beforeBlock ;;
        match colon with
        | Some colonMatch =>
            t <- required (Regex.group beforeBlock colonMatch 1) ;;
            Ok (Some (Str.trim t))
        | None => Ok None
        end
    end
end.

(** Extract title from text near a data block; [None] is [null]. *)
Definition extractTitleNearData (fullText dataBlock : jstring)
: result (option jstring) :=
match Str.indexOf dataBlock fullText with
| None => Ok None
| Some dataIndex =>
    let beforeData := Str.substring (dataIndex - 200) dataIndex fullText in
    heading <- exec Patterns.nearHeadingPattern beforeData ;;
    match heading with
    | Some headingMatch =>
        t <- required (Regex.group beforeData headingMatch 1) ;;
        Ok (Some (Str.trim t))
    | None =>
        list <- exec Patterns.nearListPattern beforeData ;;
        match list with
        | Some listMatch =>
            t <- required (Regex.group beforeData listMatch 1) ;;
            Ok (Some (Str.trim t))
        | None => Ok None
        end
    end
end.

(** Detect appropriate chart type based on data structure. *)
Definition detectChartType (data : value) : result jstring :=
if negb (JS.truthy data) then Ok (js "bar")
else
  if JS.length_is_zero data then Ok (js "bar")
  else
    firstItem <- JS.get data (js "0") ;;
    item <- required firstItem ;;
    keys <- JS.keys item ;;
    if JS.includes (js "x") keys && JS.includes (js "y") keys then Ok (js "scatter")
    else
      timed <- some (fun k => test Patterns.timePattern k) keys ;;
      if timed then Ok (js "line")
      else if Nat.ltb 5 (List.length keys) then Ok (js "table")
      else Ok (js "bar").

(** The body of the table loop for one match: the chart to push, if any. *)
Definition tableChart (text : jstring) (m : Regex.rmatch_result) (charts : list ChartSpec)
: result (option ChartSpec) :=
g1 <- required (Regex.group text m 1) ;;
g2 <- required (Regex.group text m 2) ;;
let headers := filter Str.nonempty (List.map Str.trim (Str.split (ch "|") g1)) in
let rows := filter (fun r => Str.includes (js "|") r && negb (Str.includes (js "---") r))
                   (Str.split Regex.newline g2) in
if Nat.ltb 0 (List.length rows) && Nat.leb 2 (List.length headers) then
  let data :=
    filter (fun d => JS.truthy_opt (JS.get_own d (js "name"))
                     && JS.truthy_opt (JS.get_own d (js "value")))
      (List.map (fun row =>
         let cells := filter Str.nonempty (List.map Str.trim (Str.split (ch "|") row)) in
         let name := or_string (nth_error cells 0) [] in
         let parsed := Num.parseFloat (match nth_error cells 1 with
                                       | Some c => c
                                       | None => js "undefined"
                                       end) in
         name_value name (if Num.truthy parsed then parsed else Num.zero))
         rows) in
  if Nat.ltb 0 (List.length data) then
    near <- extractTitleNearData text (Regex.matched text m) ;;
    Ok (Some {| id := chart_id Date_now (List.length charts);
                type := Kind (js "bar");
                title := or_string near (js "Data Table");
                data := VArr data;
                position := calculatePosition (List.length charts);
                options := {| showLegend := true; showGrid := true |};
                style := {| colors := getDefaultColors |} |})
  else Ok None
else Ok None.

(** The [while] loop of [extractChartsFromTables]: the search for the next
  table and the body, in turn. *)
Fixpoint tableScan (fuel : nat) (text : jstring) (from : nat) (charts : list ChartSpec)
: result (list ChartSpec) :=
match fuel with
| O => Ok charts
| S fuel' =>
    found <- exec_from Patterns.tablePattern text from ;;
    match found with
    | None => Ok charts
    | Some m =>
        c <- tableChart text m charts ;;
        let charts' := match c with Some chart => charts ++ [chart] | None => charts end in
        let next := if Nat.eqb (Regex.last m) (Regex.index m)
                    then S (Regex.last m) else Regex.last m in
        if Nat.ltb (List.length text) next then Ok charts'
        else tableScan fuel' text next charts'
    end
end.

(** Extract charts from markdown tables. *)
Definition extractChartsFromTables (text : jstring) : result (list ChartSpec) :=
tableScan (S (List.length text)) text 0 [].

(** The body of the list loop for one section.  The inner loop searches
  for the items; what it does with an item ([trim], [parseFloat] and the
  removal of the commas, whose pattern offers no choice) needs no
  stack, so the items are found first and then read by [listItems]. *)
Definition listChart (text : jstring) (m : Regex.rmatch_result) (charts : list ChartSpec)
: result (option ChartSpec) :=
g1 <- required (Regex.group text m 1) ;;
listContent <- required (Regex.group text m 2) ;;
let title := Str.trim g1 in
items <- exec_all Patterns.itemPattern listContent ;;
data <- listItems listContent items [] ;;
if Nat.leb 3 (List.length data) then
  Ok (Some {| id := chart_id Date_now (List.length charts);
              type := Kind (js "bar");
              title := or_string (Some title) (js "Data Chart");
              data := VArr data;
              position := calculatePosition (List.length charts);
              options := {| showLegend := false; showGrid := true |};
              style := {| colors := getDefaultColors |} |})
else Ok None.

(** The [while] loop of [extractChartsFromLists]. *)
Fixpoint listScan (fuel : nat) (text : jstring) (from : nat) (charts : list ChartSpec)
: result (list ChartSpec) :=
match fuel with
| O => Ok charts
| S fuel' =>
    found <- exec_from Patterns.sectionPattern text from ;;
    match found with
    | None => Ok charts
    | Some m =>
        c <- listChart text m charts ;;
        let charts' := match c with Some chart => charts ++ [chart] | None => charts end in
        let next := if Nat.eqb (Regex.last m) (Regex.index m)
                    then S (Regex.last m) else Regex.last m in
        if Nat.ltb (List.length text) next then Ok charts'
        else listScan fuel' text next charts'
    end
end.

(** Extract charts from bullet/numbered lists with data. *)
Definition extractChartsFromLists (text : jstring) : result (list ChartSpec) :=
listScan (S (List.length text)) text 0 [].

Declare Scope host_scope.
Delimit Scope host_scope with host.
Notation "x <- c ;; k" := (bind_run c (fun x => k))
(at level 61, c at next level, right associativity) : host_scope.
Notation "' pat <- c ;; k" := (bind_run c (fun x => match x with pat => k end))
(at level 61, pat pattern, c at next level, right associativity) : host_scope.
Notation "c ;; k" := (bind_run c (fun _ => k))
(at level 61, right associativity) : host_scope.

(** What follows the parse of a candidate. *)
Definition acceptCandidate (data : value) (findTitle : result (option jstring))
: run unit :=
(valid <- lift (isValidChartData data) ;;
 if negb valid then ret tt
 else
   dataSignature <- lift (createDataSignature localeCompare data) ;;
   seen <- gets seenDataSignatures ;;
   if set_has dataSignature seen then ret tt
   else
     add_signature dataSignature ;;
     n <- gets (fun st => List.length (charts st)) ;;
     found <- lift findTitle ;;
     let titleRaw := or_string found (js "Chart " ++ Str.of_nat (n + 1)) in
     ' (title, type) <- lift (extractTitleAndType titleRaw) ;;
     chartType <- match type with
                  | Some t => ret t
                  | None => d <- lift (detectChartType data) ;; ret (Kind d)
                  end ;;
     push_chart {| id := chart_id Date_now n;
                   type := chartType;
                   title := title;
                   data := data;
                   position := calculatePosition n;
                   options := {| showLegend := true; showGrid := true |};
                   style := {| colors := getDefaultColors |} |})%host.

(** The [try] block of the fenced-block loop. *)
Definition codeBlockBody (responseText : jstring) (codeBlockMatch : Regex.rmatch_result)
: run unit :=
(g <- lift (required (Regex.group responseText codeBlockMatch 1)) ;;
 let jsonData := Str.trim g in
 data <- lift (JSON.parse jsonData) ;;
 acceptCandidate data
   (extractTitleBeforeCodeBlock responseText (Regex.index codeBlockMatch)))%host.

(** Pattern 0: the [while] loop over the fenced blocks.  The search is
  the condition of the loop, outside the [try] block; the loop is left at
  the limit, before any further search. *)
Fixpoint codeBlockScan (fuel : nat) (responseText : jstring) (from : nat)
(st : run_state) : result run_state :=
match fuel with
| O => Ok st
| S fuel' =>
    found <- exec_from Patterns.codeBlockPattern responseText from ;;
    match found with
    | None => Ok st
    | Some codeBlockMatch =>
        if Nat.leb MAX_CHARTS (List.length (charts st)) then Ok st
        else
          let st' := try_catch (codeBlockBody responseText codeBlockMatch) st in
          let next := if Nat.eqb (Regex.last codeBlockMatch) (Regex.index codeBlockMatch)
                      then S (Regex.last codeBlockMatch)
                      else Regex.last codeBlockMatch in
          if Nat.ltb (List.length responseText) next then Ok st'
          else codeBlockScan fuel' responseText next st'
    end
end.

(** The [try] block of the inline-array loop. *)
Definition jsonMatchBody (responseText : jstring) (match_ : jstring) : run unit :=
(data <- lift (JSON.parse match_) ;;
 acceptCandidate data (extractTitleNearData responseText match_))%host.

(** Pattern 1: the [for] loop over the inline arrays. *)
Fixpoint jsonMatchLoop (responseText : jstring) (jsonMatches : list jstring)
(st : run_state) : run_state :=
match jsonMatches with
| [] => st
| match_ :: rest =>
    if Nat.leb MAX_CHARTS (List.length (charts st)) then st
    else jsonMatchLoop responseText rest
           (try_catch (jsonMatchBody responseText match_) st)
end.

(** The state after patterns 0 and 1. *)
Definition parseJsonCandidates (responseText : jstring) : result run_state :=
let st0 := {| charts := []; seenDataSignatures := [] |} in
st1 <- codeBlockScan (S (List.length responseText)) responseText 0 st0 ;;
found <- exec_all Patterns.jsonArrayPattern responseText ;;
let jsonMatches := List.map (Regex.matched responseText) found in
Ok (if Str.nonempty_list jsonMatches && Nat.ltb (List.length (charts st1)) MAX_CHARTS
    then jsonMatchLoop responseText jsonMatches st1
    else st1).

(** Parse agent response and extract chart configurations. *)
Definition parseChartsFromResponse (responseText : jstring) : result (list ChartSpec) :=
st <- parseJsonCandidates responseText ;;
charts2 <- appendExtracted extractChartsFromTables responseText (charts st) ;;
charts3 <- appendExtracted extractChartsFromLists responseText charts2 ;;
Ok charts3.

End Host.
End Host.

(** ** Definitions that relate the host to the matcher of the language *)

(** From some capacity on, the host's computation gives [a]. *)
Definition eventually {A} (h : nat -> A) (a : A) : Prop :=
  exists enough, forall capacity, enough <= capacity -> h capacity = a.

(** The host's result is that of the language, unless a search has
    exhausted the stack. *)
Definition exhausted_or {A} (h i : result A) : Prop :=
  h = Throw RangeError \/ h = i.

(** Both: at every capacity the host throws a RangeError or agrees with the
    language, and from some capacity on it agrees. *)
Definition tracks {A} (h : nat -> result A) (i : result A) : Prop :=
  (forall capacity, exhausted_or (h capacity) i) /\ eventually h i.


(** A continuation of [Backtrack] that gives the results of one of [Regex]. *)
Definition same_results (kn : Backtrack.continuation) (k : Regex.continuation) : Prop :=
  forall st d, fst (kn st d) = k st.


(** The first atom of [r], which every match has to consume first, accepts
    only code units that satisfy [q]. *)
Fixpoint starts_with (q : char -> bool) (r : Regex.regex) : Prop :=
  match r with
  | Regex.Chr p => forall d, p d = true -> q d = true
  | Regex.Seq r1 _ => starts_with q r1
  | Regex.Group _ r1 => starts_with q r1
  | _ => False
  end.

(** A vertical bar followed by [n] letters: the opening of a table row that
    never closes. *)
Definition open_row (n : nat) : jstring := ch "|" :: repeat (ch "a") n.
Module RegexFacts.
Import Regex RegexSpec.

Lemma records_refl ds st : (forall n, ds n = false) -> records ds st st.
Proof. intros H n [Hn | Hn]; [rewrite H in Hn; discriminate | exact Hn]. Qed.

Lemma records_trans d1 d2 d3 st1 st2 st3 :
  records d1 st1 st2 -> records d2 st2 st3 ->
  (forall n, d3 n = true -> d1 n = true \/ d2 n = true) ->
  records d3 st1 st3.
Proof.
  intros H1 H2 H3 n [Hn | Hn].
  - destruct (H3 n Hn) as [Ha | Hb].
    + apply H2. right. apply H1. now left.
    + apply H2. now left.
  - apply H2. right. apply H1. now right.
Qed.

Lemma is_set_set_cap n from st m :
  is_set m (m_caps (set_cap n from st)) <-> m = n \/ is_set m (m_caps st).
Proof.
  unfold is_set, set_cap; simpl.
  destruct (Nat.eqb_spec m n) as [-> | Hne].
  - split; [now left | intros _; eexists; reflexivity].
  - split; [intros H; now right | intros [H | H]; [contradiction | exact H]].
Qed.

Definition sound (ds : nat -> bool) (m : matcher) : Prop :=
  forall st k res, m st k = Some res ->
    exists st', k st' = Some res /\ records ds st st'.

Lemma or_else_Some {A} (x y : option A) r :
  or_else x y = Some r -> x = Some r \/ y = Some r.
Proof. destruct x; simpl; intros H; [left | right]; assumption. Qed.

Lemma repeat_matcher_sound m greedy :
  sound (fun _ => false) m ->
  forall fuel lo hi, sound (fun _ => false) (fun st k => repeat_matcher m greedy fuel lo hi st k).
Proof.
  intros Hm fuel.
  induction fuel as [| fuel IH]; intros lo hi st k res H; simpl in H.
  - discriminate.
  - assert (Hstop : k st = Some res ->
                    exists st', k st' = Some res /\ records (fun _ => false) st st').
    { intros Hk. exists st. split; [exact Hk | now apply records_refl]. }
    assert (Hiter : m st (fun st' =>
               if Nat.eqb lo 0 && Nat.eqb (m_pos st') (m_pos st) then None
               else repeat_matcher m greedy fuel (pred lo) (dec_hi hi) st' k) = Some res ->
             exists st', k st' = Some res /\ records (fun _ => false) st st').
    { intros Hi. apply Hm in Hi. destruct Hi as (st1 & Hk1 & Hr1).
      destruct (Nat.eqb lo 0 && Nat.eqb (m_pos st1) (m_pos st)); [discriminate |].
      apply IH in Hk1. destruct Hk1 as (st2 & Hk2 & Hr2).
      exists st2. split; [exact Hk2 |].
      eapply records_trans; eauto. }
    destruct hi as [[| hi'] |].
    + now apply Hstop.
    + destruct (Nat.ltb 0 lo); [now apply Hiter |].
      destruct greedy; apply or_else_Some in H; destruct H; auto.
    + destruct (Nat.ltb 0 lo); [now apply Hiter |].
      destruct greedy; apply or_else_Some in H; destruct H; auto.
Qed.

Lemma sound_weaken (d1 d2 : nat -> bool) m :
  (forall n, d2 n = true -> d1 n = true) -> sound d1 m -> sound d2 m.
Proof.
  intros Hd Hs st k res H. apply Hs in H. destruct H as (st' & Hk & Hr).
  exists st'. split; [exact Hk |].
  intros n [Hn | Hn]; apply Hr; [left; now apply Hd | now right].
Qed.

(** A successful match hands the continuation a state in which the groups
    of [defines r] are recorded, together with those recorded before. *)
Lemma rmatch_sound r : sound (defines r) (rmatch r).
Proof.
  induction r as [| p | | | r1 IH1 r2 IH2 | r1 IH1 r2 IH2 | g lo hi r1 IH1 | n r1 IH1];
    intros st k res H; cbn [rmatch] in H.
  - exists st. split; [exact H | now apply records_refl].
  - destruct (m_rest st) as [| c rest]; [discriminate |].
    destruct (p c); [| discriminate].
    exists (advance st rest). split; [exact H |].
    intros n [Hn | Hn]; [discriminate | exact Hn].
  - destruct (Nat.eqb (m_pos st) 0); [| discriminate].
    exists st. split; [exact H | now apply records_refl].
  - destruct (m_rest st); [| discriminate].
    exists st. split; [exact H | now apply records_refl].
  - apply IH1 in H. destruct H as (st1 & H & Hr1).
    apply IH2 in H. destruct H as (st2 & H & Hr2).
    exists st2. split; [exact H |].
    eapply records_trans; eauto.
    intros n Hn. simpl in Hn. now apply orb_true_iff in Hn.
  - apply or_else_Some in H. destruct H as [H | H].
    + apply IH1 in H. destruct H as (st1 & H & Hr1). exists st1. split; [exact H |].
      intros n [Hn | Hn]; apply Hr1; [left | now right].
      simpl in Hn. now apply andb_true_iff in Hn.
    + apply IH2 in H. destruct H as (st1 & H & Hr1). exists st1. split; [exact H |].
      intros n [Hn | Hn]; apply Hr1; [left | now right].
      simpl in Hn. now apply andb_true_iff in Hn.
  - assert (Hm : sound (fun _ => false) (rmatch r1)).
    { eapply sound_weaken; [| exact IH1]. intros; discriminate. }
    destruct (repeat_matcher_sound g Hm _ _ _ _ _ H) as (st' & Hk & Hr).
    exists st'. split; [exact Hk |].
    intros n [Hn | Hn]; [discriminate | apply Hr; now right].
  - apply IH1 in H. destruct H as (st1 & H & Hr1).
    exists (set_cap n (m_pos st) st1). split; [exact H |].
    intros m Hm. apply is_set_set_cap.
    destruct Hm as [Hm | Hm].
    + simpl in Hm. apply orb_true_iff in Hm. destruct Hm as [Hm | Hm].
      * left. now apply Nat.eqb_eq.
      * right. apply Hr1. now left.
    + right. apply Hr1. now right.
Qed.

Lemma match_at_defines r i rest m n :
  match_at r i rest = Some m -> defines r n = true -> is_set n (captures m).
Proof.
  unfold match_at. intros H Hn.
  destruct (rmatch r _ Some) as [st |] eqn:E; [| discriminate].
  injection H as <-. simpl.
  apply rmatch_sound in E. destruct E as (st' & Hs & Hr).
  injection Hs as ->. apply Hr. now left.
Qed.

Lemma search_from_defines r n : defines r n = true ->
  forall rest i m, search_from r i rest = Some m -> is_set n (captures m).
Proof.
  intros Hn rest. induction rest as [| c rest IH]; intros i m H; simpl in H.
  - destruct (match_at r i []) eqn:E; [| discriminate].
    injection H as ->. eapply match_at_defines; eauto.
  - destruct (match_at r i (c :: rest)) eqn:E.
    + injection H as ->. eapply match_at_defines; eauto.
    + eapply IH; eauto.
Qed.

Lemma exec_defines r n s m :
  defines r n = true -> exec r s = Some m -> exists g, group s m n = Some g.
Proof.
  intros Hn H. unfold exec in H.
  destruct (search_from_defines r n Hn _ _ H) as ((a, b) & Hab).
  unfold group. rewrite Hab. eauto.
Qed.

Lemma exec_all_fuel_defines r n s : defines r n = true ->
  forall fuel from m, In m (exec_all_fuel fuel r s from) -> exists g, group s m n = Some g.
Proof.
  intros Hn fuel. induction fuel as [| fuel IH]; intros from m H; simpl in H.
  - contradiction.
  - destruct (search_from r from (skipn from s)) as [m0 |] eqn:E; [| contradiction].
    destruct H as [<- | H].
    + destruct (search_from_defines r n Hn _ _ E) as ((a, b) & Hab).
      unfold group. rewrite Hab. eauto.
    + destruct (Nat.ltb _ _); [contradiction |]. eapply IH; eauto.
Qed.

Lemma exec_all_defines r n s m : defines r n = true ->
  In m (exec_all r s) -> exists g, group s m n = Some g.
Proof. intros Hn. apply exec_all_fuel_defines; assumption. Qed.

End RegexFacts.

Module EngineFacts.
Import Regex RegexSpec RegexFacts.

(** ** The title helpers never throw *)

Ltac use_group H n :=
  let g := fresh "g" in
  let Hg := fresh "Hg" in
  match type of H with
  | exec ?r ?s = Some ?m =>
      destruct (@exec_defines r n s m eq_refl H) as [g Hg];
      rewrite Hg; cbn [required bind]
  end.

Lemma extractTitleAndType_ok titleStr :
  exists title type, extractTitleAndType titleStr = Ok (title, type).
Proof.
  unfold extractTitleAndType.
  destruct (negb (Str.nonempty titleStr)); [eauto |].
  destruct (exec Patterns.typePattern1 titleStr) as [m1 |] eqn:E1.
  - use_group E1 1. use_group E1 2. eauto.
  - destruct (exec Patterns.typePattern2 titleStr) as [m2 |] eqn:E2.
    + use_group E2 1. use_group E2 2. eauto.
    + eauto.
Qed.

Lemma extractTitleBeforeCodeBlock_ok fullText i :
  exists t, extractTitleBeforeCodeBlock fullText i = Ok t.
Proof.
  unfold extractTitleBeforeCodeBlock.
  set (before := Str.substring (i - 150) i fullText).
  destruct (exec Patterns.boldPattern before) as [m1 |] eqn:E1.
  - use_group E1 1. eauto.
  - destruct (exec Patterns.headingPattern before) as [m2 |] eqn:E2.
    + use_group E2 1. eauto.
    + destruct (exec Patterns.colonPattern before) as [m3 |] eqn:E3.
      * use_group E3 1. eauto.
      * eauto.
Qed.

Lemma extractTitleNearData_ok fullText dataBlock :
  exists t, extractTitleNearData fullText dataBlock = Ok t.
Proof.
  unfold extractTitleNearData.
  destruct (Str.indexOf dataBlock fullText) as [i |]; [| eauto].
  set (before := Str.substring (i - 200) i fullText).
  destruct (exec Patterns.nearHeadingPattern before) as [m1 |] eqn:E1.
  - use_group E1 1. eauto.
  - destruct (exec Patterns.nearListPattern before) as [m2 |] eqn:E2.
    + use_group E2 1. eauto.
    + eauto.
Qed.

End EngineFacts.

Module ValidatorFacts.

Lemma every_true {A} (f : A -> result bool) xs :
  every f xs = Ok true -> Forall (fun a => f a = Ok true) xs.
Proof.
  induction xs as [| a xs IH]; simpl; intros H; [constructor |].
  destruct (f a) as [[|] | e] eqn:E; simpl in H; try discriminate.
  constructor; auto.
Qed.

Lemma filterM_In {A} (f : A -> result bool) xs ys a :
  filterM f xs = Ok ys -> In a ys -> In a xs /\ f a = Ok true.
Proof.
  revert ys. induction xs as [| b xs IH]; simpl; intros ys H Hin.
  - injection H as <-. contradiction.
  - destruct (f b) as [fb | e] eqn:E; simpl in H; [| discriminate].
    destruct (filterM f xs) as [zs | e]; simpl in H; [| discriminate].
    injection H as <-.
    destruct fb.
    + destruct Hin as [<- | Hin]; [auto |].
      destruct (IH zs eq_refl Hin); auto.
    + destruct (IH zs eq_refl Hin); auto.
Qed.

(** A structurally valid item is an object or an array. *)
Definition is_record (item : value) : Prop :=
  match item with VObj _ | VArr _ => True | _ => False end.

Lemma validItem_record item : validItem item = Ok true -> is_record item.
Proof. destruct item; simpl; intros H; try discriminate; exact I. Qed.

Lemma isValidChartData_inv data :
  isValidChartData data = Ok true ->
  exists items, data = VArr items /\ items <> [] /\
                Forall (fun item => validItem item = Ok true) items.
Proof.
  destruct data as [| | | | items |]; simpl; try discriminate.
  destruct items as [| item items]; [discriminate |].
  cbn [List.length Nat.eqb].
  destruct (every validItem (item :: items)) as [[|] | e] eqn:E; simpl; try discriminate.
  intros _. exists (item :: items). repeat split; [discriminate |].
  now apply every_true.
Qed.

Lemma keys_record item : is_record item -> exists ks, JS.keys item = Ok ks.
Proof. destruct item; simpl; intros H; try contradiction; eauto. Qed.

Lemma detectChartType_ok data :
  isValidChartData data = Ok true -> exists kind, detectChartType data = Ok kind.
Proof.
  intros H. destruct (isValidChartData_inv _ H) as (items & -> & Hne & Hall).
  destruct items as [| item items]; [contradiction |].
  inversion Hall as [| ? ? Hitem _]; subst.
  apply validItem_record in Hitem.
  unfold detectChartType. cbn.
  destruct (keys_record _ Hitem) as [ks ->]. cbn.
  repeat match goal with |- context [if ?b then _ else _] => destruct b end; eauto.
Qed.

End ValidatorFacts.

(** * The fenced-block and inline-array loops as a step relation *)
Section Pipeline.

Variable localeCompare : jstring -> jstring -> comparison.
Variable Date_now : Z.

Import ValidatorFacts EngineFacts.

#[local] Abbreviation accept := (acceptCandidate localeCompare Date_now).
#[local] Abbreviation signature := (createDataSignature localeCompare).
#[local] Abbreviation pushed := (pushed localeCompare Date_now).
#[local] Abbreviation step := (step localeCompare Date_now).
#[local] Abbreviation steps := (steps localeCompare Date_now).
#[local] Abbreviation distinct_signatures := (distinct_signatures localeCompare).



Ltac run_unfold :=
  unfold bind_run, lift, gets, ret, add_signature, push_chart; cbn [fst snd].

Lemma run_state_eta (st : run_state) :
  {| charts := charts st; seenDataSignatures := seenDataSignatures st |} = st.
Proof. destruct st; reflexivity. Qed.

Lemma acceptCandidate_cases data findTitle st :
  let st' := fst (accept data findTitle st) in
  skipped st st' \/ pushed st data st'.
Proof.
  unfold acceptCandidate. run_unfold.
  destruct (isValidChartData data) as [[|] | e] eqn:Ev; cbn;
    try (left; split; auto; fail).
  destruct (signature data) as [sig | e] eqn:Es; cbn;
    try (left; split; auto; fail).
  destruct (set_has sig (seenDataSignatures st)) eqn:Eh; cbn;
    try (left; split; auto; fail).
  assert (Hskip : forall cs, cs = charts st ->
            skipped st {| charts := cs;
                          seenDataSignatures := seenDataSignatures st ++ [sig] |}).
  { intros cs ->. split; [reflexivity | right; exists sig; reflexivity]. }
  destruct findTitle as [found | e]; cbn; rewrite ?Eh; [| left; now apply Hskip].
  destruct (extractTitleAndType _) as [[title ty] | e]; cbn; rewrite ?Eh;
    [| left; now apply Hskip].
  destruct ty as [t |]; cbn; rewrite ?Eh.
  - right. eexists; exists sig. cbn. repeat split; auto.
  - destruct (detectChartType data) as [d | e]; cbn; rewrite ?Eh.
    + right. eexists; exists sig. cbn. repeat split; auto.
    + left; now apply Hskip.
Qed.

(** Once a candidate is valid and new, nothing after the signature check
    throws: the chart is pushed. *)
Lemma acceptCandidate_push data found st sig title ty :
  isValidChartData data = Ok true ->
  signature data = Ok sig ->
  set_has sig (seenDataSignatures st) = false ->
  extractTitleAndType
    (or_string found (js "Chart " ++ Str.of_nat (List.length (charts st) + 1)))
  = Ok (title, ty) ->
  exists chartType,
    match ty with
    | Some t => chartType = t
    | None => exists d, detectChartType data = Ok d /\ chartType = Kind d
    end /\
    fst (accept data (Ok found) st) =
    {| charts := charts st ++
         [{| id := chart_id Date_now (List.length (charts st));
             type := chartType;
             title := title;
             data := data;
             position := calculatePosition (List.length (charts st));
             options := {| showLegend := true; showGrid := true |};
             style := {| colors := getDefaultColors |} |}];
       seenDataSignatures := seenDataSignatures st ++ [sig] |}.
Proof.
  intros Hv Hs Hh Ht.
  unfold acceptCandidate. run_unfold.
  rewrite Hv; cbn [negb fst snd]. rewrite Hs; cbn [fst snd].
  rewrite Hh; cbn [fst snd charts seenDataSignatures]. rewrite Hh, Ht.
  destruct ty as [t |]; cbn [fst snd charts seenDataSignatures].
  - exists t. split; reflexivity.
  - destruct (detectChartType_ok _ Hv) as [d Hd]. rewrite Hd.
    exists (Kind d). split; [eauto | reflexivity].
Qed.


Lemma codeBlockBody_step text m st :
  List.length (charts st) < MAX_CHARTS ->
  step st (try_catch (codeBlockBody localeCompare Date_now text m) st).
Proof.
  intros Hlt. unfold try_catch, codeBlockBody. run_unfold.
  destruct (required (Regex.group text m 1)) as [g | e]; cbn;
    [| apply step_skip; split; auto].
  destruct (JSON.parse (Str.trim g)) as [data | e]; cbn;
    [| apply step_skip; split; auto].
  destruct (acceptCandidate_cases data
              (extractTitleBeforeCodeBlock text (Regex.index m)) st) as [H | H].
  - now apply step_skip.
  - now apply step_push with data.
Qed.

Lemma jsonMatchBody_step text match_ st :
  List.length (charts st) < MAX_CHARTS ->
  step st (try_catch (jsonMatchBody localeCompare Date_now text match_) st).
Proof.
  intros Hlt. unfold try_catch, jsonMatchBody. run_unfold.
  destruct (JSON.parse match_) as [data | e]; cbn;
    [| apply step_skip; split; auto].
  destruct (acceptCandidate_cases data (extractTitleNearData text match_) st) as [H | H].
  - now apply step_skip.
  - now apply step_push with data.
Qed.

Lemma codeBlockLoop_steps text ms st :
  steps st (codeBlockLoop localeCompare Date_now text ms st).
Proof.
  revert st. induction ms as [| m ms IH]; intros st; cbn [codeBlockLoop];
    [apply steps_refl |].
  destruct (Nat.leb_spec MAX_CHARTS (List.length (charts st))); [apply steps_refl |].
  eapply steps_cons; [apply codeBlockBody_step; assumption | apply IH].
Qed.

Lemma jsonMatchLoop_steps text ms st :
  steps st (jsonMatchLoop localeCompare Date_now text ms st).
Proof.
  revert st. induction ms as [| m ms IH]; intros st; cbn [jsonMatchLoop];
    [apply steps_refl |].
  destruct (Nat.leb_spec MAX_CHARTS (List.length (charts st))); [apply steps_refl |].
  eapply steps_cons; [apply jsonMatchBody_step; assumption | apply IH].
Qed.

Lemma steps_trans st1 st2 st3 : steps st1 st2 -> steps st2 st3 -> steps st1 st3.
Proof.
  intros H. revert st3.
  induction H as [st | st sa sb Hs _ IH]; intros st3 H3; [exact H3 |].
  eapply steps_cons; [exact Hs | apply IH; exact H3].
Qed.


Lemma parseJsonCandidates_steps text :
  steps initial (parseJsonCandidates localeCompare Date_now text).
Proof.
  unfold parseJsonCandidates. fold initial.
  destruct (_ && _).
  - eapply steps_trans; [apply codeBlockLoop_steps | apply jsonMatchLoop_steps].
  - apply codeBlockLoop_steps.
Qed.

(** ** Invariants of the two loops *)

(** Any property of the state that holds initially and is kept by one
    iteration holds after the loops. *)
Lemma steps_invariant (P : run_state -> Prop) :
  (forall st st', P st -> step st st' -> P st') ->
  forall st st', steps st st' -> P st -> P st'.
Proof. intros Hstep st st' H. induction H; eauto. Qed.


Lemma step_within_limit st st' : within_limit st -> step st st' -> within_limit st'.
Proof.
  unfold within_limit. intros H [[Hc _] | data Hlt (c & sig & Hc & _)]; rewrite Hc.
  - exact H.
  - rewrite length_app. simpl. lia.
Qed.


Lemma step_all_valid st st' :
  all_valid (charts st) -> step st st' -> all_valid (charts st').
Proof.
  unfold all_valid.
  intros H [[Hc _] | data Hlt (c & sig & Hc & _ & Hd & Hv & _)]; rewrite Hc.
  - exact H.
  - apply Forall_app. split; [exact H |]. constructor; [| constructor].
    now rewrite Hd.
Qed.


Lemma set_has_false s seen : set_has s seen = false -> ~ In s seen.
Proof.
  unfold set_has. intros H Hin.
  assert (existsb (jstr_eqb s) seen = true); [| congruence].
  apply existsb_exists. exists s. split; [exact Hin |].
  clear. induction s as [| c s IH]; simpl; [reflexivity |].
  now rewrite N.eqb_refl.
Qed.

Lemma step_distinct_signatures st st' :
  distinct_signatures st -> step st st' -> distinct_signatures st'.
Proof.
  intros (sigs & Hf & Hnd & Hincl) [[Hc Hs] | data Hlt H].
  - exists sigs. rewrite Hc. repeat split; auto.
    destruct Hs as [-> | [sig ->]]; [exact Hincl |].
    intros a Ha. apply in_or_app. left. auto.
  - destruct H as (c & sig & Hc & Hs & Hd & Hv & Hsig & Hnew & _).
    exists (sigs ++ [sig]). rewrite Hc, Hs. repeat split.
    + apply Forall2_app; [exact Hf |]. constructor; [| constructor].
      now rewrite Hd.
    + apply NoDup_app; [exact Hnd | repeat constructor; intros [] | ].
      intros a Ha [<- | []]. apply set_has_false in Hnew. auto.
    + intros a Ha. apply in_app_or in Ha. apply in_or_app.
      destruct Ha as [Ha | Ha]; [left; auto | right; exact Ha].
Qed.


Lemma positioned_app cs c :
  positioned cs -> position c = calculatePosition (List.length cs) ->
  positioned (cs ++ [c]).
Proof.
  intros H Hc i c' Hi.
  destruct (Nat.lt_ge_cases i (List.length cs)) as [Hlt | Hge].
  - rewrite nth_error_app1 in Hi by assumption. auto.
  - rewrite nth_error_app2 in Hi by assumption.
    destruct (i - List.length cs) as [| j] eqn:Ej; simpl in Hi.
    + injection Hi as <-. replace i with (List.length cs) by lia. exact Hc.
    + destruct j; discriminate.
Qed.

Lemma step_positioned st st' :
  positioned (charts st) -> step st st' -> positioned (charts st').
Proof.
  intros H [[Hc _] | data Hlt (c & sig & Hc & _ & _ & _ & _ & _ & Hp & _)]; rewrite Hc.
  - exact H.
  - now apply positioned_app.
Qed.

(** The charts only grow. *)
Lemma step_prefix st st' : step st st' -> exists more, charts st' = charts st ++ more.
Proof.
  intros [[Hc _] | data Hlt (c & sig & Hc & _)]; rewrite Hc.
  - exists []. now rewrite app_nil_r.
  - eauto.
Qed.

Lemma steps_prefix st st' : steps st st' -> exists more, charts st' = charts st ++ more.
Proof.
  induction 1 as [st | st st1 st2 H1 _ IH].
  - exists []. now rewrite app_nil_r.
  - destruct (step_prefix H1) as [m1 E1]. destruct IH as [m2 E2].
    exists (m1 ++ m2). now rewrite E2, E1, app_assoc.
Qed.

End Pipeline.

(** * The table and list extractors *)
Section Extractors.

Variable Date_now : Z.

Import Regex RegexSpec RegexFacts EngineFacts.

Lemma nonempty_neq (s : jstring) : Str.nonempty s = true -> s <> [].
Proof. destruct s; [discriminate | discriminate]. Qed.

Lemma truthy_not_nan v : Num.truthy v = true -> Num.isNaN v = false.
Proof. destruct v; simpl; auto; discriminate. Qed.

Lemma name_value_get_name name v :
  JS.get_own (name_value name v) (js "name") = Some (VStr name).
Proof. reflexivity. Qed.

Lemma name_value_get_value name v :
  JS.get_own (name_value name v) (js "value") = Some (VNum v).
Proof. reflexivity. Qed.

Lemma tableChart_spec text m cs :
  has_groups text m ->
  exists r, tableChart Date_now text m cs = Ok r /\
    match r with
    | Some c => name_value_chart c /\
                position c = calculatePosition (List.length cs)
    | None => True
    end.
Proof.
  intros [[g1 H1] [g2 H2]]. unfold tableChart.
  rewrite H1, H2. cbn [required bind].
  destruct (_ && _); [| exists None; split; [reflexivity | exact I]].
  match goal with |- context [filter ?f (List.map ?g ?rows)] =>
    set (data := filter f (List.map g rows));
    assert (Hdata : Forall named_number data)
  end.
  { apply Forall_forall. intros r Hr. apply filter_In in Hr.
    destruct Hr as [Hr Hf]. apply in_map_iff in Hr. destruct Hr as (row & <- & _).
    rewrite name_value_get_name, name_value_get_value in Hf.
    apply andb_true_iff in Hf. destruct Hf as [Hn Hv]. cbn in Hn, Hv.
    eexists; eexists. split; [reflexivity |].
    split; [now apply nonempty_neq | now apply truthy_not_nan]. }
  destruct (Nat.ltb 0 (List.length data)) eqn:El;
    [| exists None; split; [reflexivity | exact I]].
  destruct (extractTitleNearData_ok text (matched text m)) as [t ->].
  cbn [bind]. eexists. split; [reflexivity |]. cbn.
  split; [| reflexivity]. split; [reflexivity |].
  exists data. repeat split; auto.
  intros E. rewrite E in El. discriminate.
Qed.

Lemma tableLoop_spec text ms : Forall (has_groups text) ms ->
  forall cs, Forall name_value_chart cs -> positioned cs ->
  exists out, tableLoop Date_now text ms cs = Ok out /\
              Forall name_value_chart out /\ positioned out.
Proof.
  induction 1 as [| m ms Hm _ IH]; intros cs Hcs Hpos; cbn [tableLoop].
  - eauto.
  - destruct (@tableChart_spec text m cs Hm) as (r & -> & Hr). cbn [bind].
    destruct r as [c |].
    + destruct Hr as [Hc Hp]. apply IH.
      * apply Forall_app. split; [exact Hcs | constructor; [exact Hc | constructor]].
      * now apply positioned_app.
    + now apply IH.
Qed.

Lemma positioned_nil : positioned [].
Proof. intros [| i] c H; discriminate. Qed.

Lemma exec_all_has_groups r text :
  defines r 1 = true -> defines r 2 = true ->
  Forall (has_groups text) (exec_all r text).
Proof.
  intros H1 H2. apply Forall_forall. intros m Hm.
  split; eapply exec_all_defines; eauto.
Qed.

Lemma extractChartsFromTables_spec text :
  exists out, extractChartsFromTables Date_now text = Ok out /\
              Forall name_value_chart out /\ positioned out.
Proof.
  unfold extractChartsFromTables. apply tableLoop_spec.
  - now apply exec_all_has_groups.
  - constructor.
  - apply positioned_nil.
Qed.

Lemma listItems_spec listContent ms : Forall (has_groups listContent) ms ->
  forall data, Forall named_number data ->
  exists out, listItems listContent ms data = Ok out /\ Forall named_number out.
Proof.
  induction 1 as [| m ms [[g1 H1] [g2 H2]] _ IH]; intros data Hdata; cbn [listItems].
  - eauto.
  - rewrite H1, H2. cbn [required bind]. apply IH.
    destruct (Str.nonempty (Str.trim g1) && _) eqn:E; [| exact Hdata].
    apply andb_true_iff in E. destruct E as [En Ev].
    apply Forall_app. split; [exact Hdata |]. constructor; [| constructor].
    eexists; eexists. split; [reflexivity |].
    split; [now apply nonempty_neq | now apply negb_true_iff in Ev].
Qed.

Lemma listChart_spec text m cs :
  has_groups text m ->
  exists r, listChart Date_now text m cs = Ok r /\
    match r with
    | Some c => name_value_chart c /\
                position c = calculatePosition (List.length cs)
    | None => True
    end.
Proof.
  intros [[g1 H1] [g2 H2]]. unfold listChart.
  rewrite H1, H2. cbn [required bind].
  destruct (@listItems_spec g2 _
              (@exec_all_has_groups Patterns.itemPattern g2 eq_refl eq_refl)
              [] (Forall_nil _)) as (data & -> & Hdata).
  cbn [bind].
  destruct (Nat.leb 3 (List.length data)) eqn:El;
    [| exists None; split; [reflexivity | exact I]].
  eexists. split; [reflexivity |]. cbn.
  split; [| reflexivity]. split; [reflexivity |].
  exists data. repeat split; auto.
  intros E. rewrite E in El. discriminate.
Qed.

Lemma listLoop_spec text ms : Forall (has_groups text) ms ->
  forall cs, Forall name_value_chart cs -> positioned cs ->
  exists out, listLoop Date_now text ms cs = Ok out /\
              Forall name_value_chart out /\ positioned out.
Proof.
  induction 1 as [| m ms Hm _ IH]; intros cs Hcs Hpos; cbn [listLoop].
  - eauto.
  - destruct (@listChart_spec text m cs Hm) as (r & -> & Hr). cbn [bind].
    destruct r as [c |].
    + destruct Hr as [Hc Hp]. apply IH.
      * apply Forall_app. split; [exact Hcs | constructor; [exact Hc | constructor]].
      * now apply positioned_app.
    + now apply IH.
Qed.

Lemma extractChartsFromLists_spec text :
  exists out, extractChartsFromLists Date_now text = Ok out /\
              Forall name_value_chart out /\ positioned out.
Proof.
  unfold extractChartsFromLists. apply listLoop_spec.
  - now apply exec_all_has_groups.
  - constructor.
  - apply positioned_nil.
Qed.

End Extractors.

(** * The whole run *)
Section Run.

Variable localeCompare : jstring -> jstring -> comparison.
Variable Date_now : Z.

#[local] Abbreviation parse := (parseChartsFromResponse localeCompare Date_now).
#[local] Abbreviation jsonCharts :=
  (fun text => charts (parseJsonCandidates localeCompare Date_now text)).

Lemma firstn_positioned n cs : positioned cs -> positioned (firstn n cs).
Proof.
  intros H i c Hi. apply H.
  rewrite nth_error_firstn in Hi.
  destruct (Nat.ltb i n); [exact Hi | discriminate].
Qed.


Lemma appendExtracted_spec extract text cs out :
  extract text = Ok out ->
  List.length cs <= MAX_CHARTS ->
  exists k, appendExtracted extract text cs = Ok (cs ++ firstn k out) /\
            List.length (cs ++ firstn k out) <= MAX_CHARTS.
Proof.
  intros Ho Hle. unfold appendExtracted.
  destruct (Nat.ltb_spec (List.length cs) MAX_CHARTS) as [Hlt | Hge].
  - rewrite Ho. cbn [bind]. eexists. split; [reflexivity |].
    rewrite length_app, length_firstn. lia.
  - exists 0. cbn [firstn]. rewrite app_nil_r. auto.
Qed.

Lemma jsonCharts_within_limit text : List.length (jsonCharts text) <= MAX_CHARTS.
Proof.
  apply (@steps_invariant localeCompare Date_now within_limit
           (@step_within_limit localeCompare Date_now) _ _
           (parseJsonCandidates_steps localeCompare Date_now text)).
  unfold within_limit, initial, MAX_CHARTS. simpl. lia.
Qed.

(** The output is the charts of the fenced-block and inline-array loops,
    followed by the first table charts, followed by the first list
    charts. *)
Lemma parse_structure text :
  exists tables lists k1 k2,
    extractChartsFromTables Date_now text = Ok tables /\
    extractChartsFromLists Date_now text = Ok lists /\
    parse text = Ok (jsonCharts text ++ firstn k1 tables ++ firstn k2 lists) /\
    List.length (jsonCharts text ++ firstn k1 tables ++ firstn k2 lists) <= MAX_CHARTS.
Proof.
  destruct (extractChartsFromTables_spec Date_now text) as (tables & Ht & _).
  destruct (extractChartsFromLists_spec Date_now text) as (lists & Hl & _).
  unfold parseChartsFromResponse.
  destruct (@appendExtracted_spec (extractChartsFromTables Date_now) text
              (jsonCharts text) tables Ht (jsonCharts_within_limit text))
    as (k1 & -> & Hlt).
  cbn [bind].
  destruct (@appendExtracted_spec (extractChartsFromLists Date_now) text
              (jsonCharts text ++ firstn k1 tables) lists Hl Hlt)
    as (k2 & -> & Hll).
  cbn [bind]. exists tables, lists, k1, k2. rewrite <- app_assoc in *.
  repeat split; auto.
Qed.


Lemma parse_within_limit text :
  exists cs, parse text = Ok cs /\ List.length cs <= MAX_CHARTS.
Proof.
  destruct (parse_structure text) as (t & l & k1 & k2 & _ & _ & H & Hlen). eauto.
Qed.

Lemma jsonCharts_all_valid text : all_valid (jsonCharts text).
Proof.
  apply (@steps_invariant localeCompare Date_now (fun st => all_valid (charts st))
           (@step_all_valid localeCompare Date_now) _ _
           (parseJsonCandidates_steps localeCompare Date_now text)).
  constructor.
Qed.

Lemma jsonCharts_positioned text : positioned (jsonCharts text).
Proof.
  apply (@steps_invariant localeCompare Date_now (fun st => positioned (charts st))
           (@step_positioned localeCompare Date_now) _ _
           (parseJsonCandidates_steps localeCompare Date_now text)).
  apply positioned_nil.
Qed.

Lemma jsonCharts_distinct_signatures text :
  distinct_signatures localeCompare (parseJsonCandidates localeCompare Date_now text).
Proof.
  apply (@steps_invariant localeCompare Date_now (distinct_signatures localeCompare)
           (@step_distinct_signatures localeCompare Date_now) _ _
           (parseJsonCandidates_steps localeCompare Date_now text)).
  exists []. repeat split; [constructor | constructor | intros a []].
Qed.

End Run.

Lemma jstr_eqb_eq a b : jstr_eqb a b = true <-> a = b.
Proof.
  revert b. induction a as [| c a IH]; intros [| d b]; simpl; split; intros H;
    try reflexivity; try discriminate.
  - apply andb_true_iff in H. destruct H as [Hc Ha].
    apply N.eqb_eq in Hc. apply IH in Ha. now subst.
  - injection H as -> ->. rewrite N.eqb_refl. simpl. now apply IH.
Qed.

Lemma set_has_true_iff s seen : set_has s seen = true <-> In s seen.
Proof.
  unfold set_has. rewrite existsb_exists. split.
  - intros (a & Ha & E). apply jstr_eqb_eq in E. now subst.
  - intros H. exists s. split; [exact H | now apply jstr_eqb_eq].
Qed.

Lemma not_In_set_has s seen : ~ In s seen -> set_has s seen = false.
Proof.
  intros H. destruct (set_has s seen) eqn:E; [| reflexivity].
  apply set_has_true_iff in E. contradiction.
Qed.

Lemma distinct_NoDup l : distinct l = true -> NoDup l.
Proof.
  induction l as [| a l IH]; simpl; intros H; constructor;
    apply andb_true_iff in H; destruct H as [Ha Hl].
  - intros Hin. apply negb_true_iff in Ha.
    apply set_has_true_iff in Hin. unfold set_has in Hin. congruence.
  - auto.
Qed.

(** * Fenced blocks that are all valid and all different *)
Section AllNew.

Variable localeCompare : jstring -> jstring -> comparison.
Variable Date_now : Z.

Import EngineFacts.

(** Below the limit, a fenced block holding a valid dataset with a new
    signature adds exactly one chart, carrying that dataset. *)
Lemma codeBlockBody_push text m d sig st :
  fenced_candidate text m d ->
  createDataSignature localeCompare d = Ok sig ->
  ~ In sig (seenDataSignatures st) ->
  exists c,
    Chart.data c = d /\
    try_catch (codeBlockBody localeCompare Date_now text m) st =
    {| charts := charts st ++ [c];
       seenDataSignatures := seenDataSignatures st ++ [sig] |}.
Proof.
  intros (g & Hg & Hp & Hv) Hs Hnew.
  unfold try_catch, codeBlockBody, bind_run, lift. rewrite Hg. cbn [required fst snd].
  rewrite Hp.
  destruct (extractTitleBeforeCodeBlock_ok text (Regex.index m)) as [found ->].
  destruct (extractTitleAndType_ok
              (or_string found (js "Chart " ++ Str.of_nat (List.length (charts st) + 1))))
    as (title & ty & Ht).
  destruct (@acceptCandidate_push localeCompare Date_now d found st sig title ty
              Hv Hs (not_In_set_has _ _ Hnew) Ht) as (chartType & _ & ->).
  eexists. split; [| reflexivity]. reflexivity.
Qed.

Lemma codeBlockLoop_all_new text ms ds :
  Forall2 (fenced_candidate text) ms ds ->
  forall sigs st,
    Forall2 (fun d s => createDataSignature localeCompare d = Ok s) ds sigs ->
    NoDup sigs ->
    (forall s, In s sigs -> ~ In s (seenDataSignatures st)) ->
    List.map Chart.data (charts (codeBlockLoop localeCompare Date_now text ms st)) =
    List.map Chart.data (charts st) ++ firstn (MAX_CHARTS - List.length (charts st)) ds.
Proof.
  induction 1 as [| m d ms ds Hm _ IH]; intros sigs st Hsigs Hnd Hnew; cbn [codeBlockLoop].
  - rewrite firstn_nil. now rewrite app_nil_r.
  - destruct (Nat.leb_spec MAX_CHARTS (List.length (charts st))) as [Hge | Hlt].
    + replace (MAX_CHARTS - List.length (charts st)) with 0 by lia.
      cbn [firstn]. now rewrite app_nil_r.
    + inversion Hsigs as [| ? sig ? sigs' Hsig Hsigs']; subst.
      inversion Hnd as [| ? ? Hnotin Hnd']; subst.
      destruct (@codeBlockBody_push text m d sig st Hm Hsig (Hnew sig (or_introl eq_refl)))
        as (c & Hc & ->).
      rewrite (IH sigs' _ Hsigs' Hnd').
      * cbn [charts]. rewrite length_app, map_app. cbn [List.length List.map].
        rewrite Hc, <- app_assoc.
        replace (MAX_CHARTS - List.length (charts st))
          with (S (MAX_CHARTS - (List.length (charts st) + 1))) by lia.
        reflexivity.
      * intros s Hs. cbn [seenDataSignatures]. intros Hin.
        apply in_app_or in Hin. destruct Hin as [Hin | [<- | []]].
        -- exact (Hnew s (or_intror Hs) Hin).
        -- contradiction.
Qed.

(** With at least [MAX_CHARTS] fenced blocks, all valid and all different,
    the output is the first [MAX_CHARTS] datasets, in order. *)
Lemma parse_fenced_first_eight text ds sigs :
  Forall2 (fenced_candidate text)
          (Regex.exec_all Patterns.codeBlockPattern text) ds ->
  Forall2 (fun d s => createDataSignature localeCompare d = Ok s) ds sigs ->
  NoDup sigs ->
  MAX_CHARTS <= List.length ds ->
  exists cs, parseChartsFromResponse localeCompare Date_now text = Ok cs /\
             List.map Chart.data cs = firstn MAX_CHARTS ds.
Proof.
  intros Hc Hs Hnd Hlen.
  pose proof (@codeBlockLoop_all_new text _ ds Hc sigs (initial) Hs Hnd
                (fun s _ H => H)) as Hloop.
  cbn [initial charts List.map List.length app] in Hloop.
  rewrite Nat.sub_0_r in Hloop.
  assert (Hfull : List.length (charts (codeBlockLoop localeCompare Date_now text
                    (Regex.exec_all Patterns.codeBlockPattern text) initial)) = MAX_CHARTS).
  { rewrite <- (length_map Chart.data), Hloop, length_firstn. lia. }
  unfold parseChartsFromResponse, parseJsonCandidates. fold initial.
  rewrite Hfull, Nat.ltb_irrefl, andb_false_r.
  unfold appendExtracted. rewrite Hfull, Nat.ltb_irrefl. cbn [bind].
  rewrite Hfull, Nat.ltb_irrefl.
  eexists. split; [reflexivity | exact Hloop].
Qed.

End AllNew.

(* ===================================================================== *)
(** * The claims                                                          *)
(* ===================================================================== *)

(** Close a goal between closed terms by evaluating both sides. *)
Ltac by_evaluation := vm_compute; reflexivity.

(** Evaluate the list of matches in a goal about [Forall2]. *)
Ltac eval_matches :=
  match goal with
  | |- Forall2 _ ?ms _ =>
      let v := eval vm_compute in ms in
      replace ms with v by (vm_compute; reflexivity)
  end.

(** C1.  For every input string [parseChartsFromResponse] returns at most
    [MAX_CHARTS = 8] ChartSpecs; and when the input holds at least eight
    fenced blocks, all of them valid and pairwise different by signature,
    the output is made of the first eight datasets, in order of
    appearance. *)
Theorem parse_returns_at_most_eight_charts :
  (forall localeCompare Date_now text,
     exists cs, parseChartsFromResponse localeCompare Date_now text = Ok cs /\
                List.length cs <= 8) /\
  (forall localeCompare Date_now text ds sigs,
     Forall2 (fenced_candidate text)
             (Regex.exec_all Patterns.codeBlockPattern text) ds ->
     Forall2 (fun d s => createDataSignature localeCompare d = Ok s) ds sigs ->
     NoDup sigs ->
     8 <= List.length ds ->
     exists cs, parseChartsFromResponse localeCompare Date_now text = Ok cs /\
                List.map Chart.data cs = firstn 8 ds).
Proof.
  split.
  - intros. apply parse_within_limit.
  - intros. eapply parse_fenced_first_eight; eauto.
Qed.

(** Ten different valid fenced blocks give the first eight datasets. *)
Lemma parse_returns_at_most_eight_charts_witness :
  10 = List.length (List.map dataset (List.seq 1 10)) /\
  exists cs, parseChartsFromResponse code_unit_compare 0%Z ten_blocks = Ok cs /\
             List.map Chart.data cs = List.map dataset (List.seq 1 8).
Proof.
  split; [reflexivity |].
  apply (proj2 parse_returns_at_most_eight_charts code_unit_compare 0%Z ten_blocks
           (List.map dataset (List.seq 1 10))
           (List.map (fun i => JSON.stringify (dataset i)) (List.seq 1 10))).
  - eval_matches.
    repeat (constructor;
            [eexists; split; [vm_compute; reflexivity |
                              split; [vm_compute; reflexivity |
                                      vm_compute; reflexivity]] |]).
    constructor.
  - repeat (constructor; [vm_compute; reflexivity |]). constructor.
  - apply distinct_NoDup. vm_compute. reflexivity.
  - simpl. lia.
Defined.

(** C3, as amended.  Every ChartSpec built by the fenced-block and
    inline-array loops has data that satisfies the Validator.  The charts of
    the table and list extractors, appended after them, are not passed to
    the Validator: each is a bar chart over a non-empty array of
    [{ name, value }] records with a non-empty name and a value other than
    [NaN]. *)
Theorem json_charts_satisfy_validator :
  forall localeCompare Date_now text,
    exists tables lists k1 k2,
      extractChartsFromTables Date_now text = Ok tables /\
      extractChartsFromLists Date_now text = Ok lists /\
      parseChartsFromResponse localeCompare Date_now text =
        Ok (charts (parseJsonCandidates localeCompare Date_now text)
            ++ firstn k1 tables ++ firstn k2 lists) /\
      all_valid (charts (parseJsonCandidates localeCompare Date_now text)) /\
      Forall name_value_chart tables /\
      Forall name_value_chart lists.
Proof.
  intros cmp now text.
  destruct (parse_structure cmp now text) as (tables & lists & k1 & k2 & Ht & Hl & Hp & _).
  exists tables, lists, k1, k2. repeat split; auto.
  - apply jsonCharts_all_valid.
  - destruct (extractChartsFromTables_spec now text) as (t' & Ht' & Hall & _).
    rewrite Ht in Ht'. injection Ht' as <-. exact Hall.
  - destruct (extractChartsFromLists_spec now text) as (l' & Hl' & Hall & _).
    rewrite Hl in Hl'. injection Hl' as <-. exact Hall.
Qed.

(** C3 fails as stated: a table whose two values cancel, and a list whose
    values are all zero, each give a chart whose data the Validator
    rejects. *)
Lemma table_chart_fails_validator :
  (exists c, parseChartsFromResponse code_unit_compare 0%Z cancelling_table = Ok [c] /\
             Chart.data c = VArr [record "East" 5; record "West" (-5)] /\
             isValidChartData (Chart.data c) = Ok false) /\
  (exists c, parseChartsFromResponse code_unit_compare 0%Z zero_list = Ok [c] /\
             isValidChartData (Chart.data c) = Ok false).
Proof.
  split.
  - eexists. split; [by_evaluation |]. split; [by_evaluation |]. by_evaluation.
  - eexists. split; [by_evaluation |]. by_evaluation.
Qed.

(** C4, at a failing input.  The same table twice, the second time with its
    rows swapped, gives two ChartSpecs whose data have the same signature:
    the table extractor neither consults nor feeds the set of seen
    signatures. *)
Theorem table_duplicates_are_kept :
  exists c1 c2 sig,
    parseChartsFromResponse code_unit_compare 0%Z table_twice = Ok [c1; c2] /\
    Chart.data c1 = VArr [record "East" 120; record "West" 95] /\
    Chart.data c2 = VArr [record "West" 95; record "East" 120] /\
    createDataSignature code_unit_compare (Chart.data c1) = Ok sig /\
    createDataSignature code_unit_compare (Chart.data c2) = Ok sig.
Proof.
  do 3 eexists.
  split; [by_evaluation |]. split; [by_evaluation |]. split; [by_evaluation |].
  split; [by_evaluation |]. by_evaluation.
Qed.

(** C5, at a failing input.  A fenced dataset followed by a table gives two
    ChartSpecs; the table chart, at index 1 of the output, has the position
    of index 0, because the table extractor counts from its own list. *)
Theorem table_chart_position_restarts :
  exists c1 c2,
    parseChartsFromResponse code_unit_compare 0%Z block_then_table = Ok [c1; c2] /\
    position c1 = calculatePosition 0 /\
    position c2 = calculatePosition 0 /\
    position c2 <> calculatePosition 1.
Proof.
  do 2 eexists.
  split; [by_evaluation |]. split; [by_evaluation |]. split; [by_evaluation |].
  vm_compute. discriminate.
Qed.

(** * The Validator *)
Module ValidatorRules.
Import ValidatorFacts.

Lemma record_typeof item :
  is_record item ->
  negb (jstr_eqb (JS.typeof item) (js "object"))
  || match item with VNull => true | _ => false end = false.
Proof. destruct item; simpl; intros H; try contradiction; reflexivity. Qed.

Lemma record_has_property k item :
  is_record item ->
  JS.has_property k item =
  Ok (match JS.get_own item k with Some _ => true | None => false end).
Proof. destruct item; simpl; intros H; try contradiction; reflexivity. Qed.

Lemma record_get k item : is_record item -> JS.get item k = Ok (JS.get_own item k).
Proof. destruct item; simpl; intros H; try contradiction; reflexivity. Qed.

Lemma filterM_total {A} (f : A -> result bool) xs :
  (forall a, exists b, f a = Ok b) -> exists ys, filterM f xs = Ok ys.
Proof.
  intros Hf. induction xs as [| a xs [ys IH]]; simpl; [eauto |].
  destruct (Hf a) as [b ->]. simpl. rewrite IH. simpl. eauto.
Qed.

Lemma every_total {A} (f : A -> result bool) xs :
  (forall a, exists b, f a = Ok b) -> exists b, every f xs = Ok b.
Proof.
  intros Hf. induction xs as [| a xs [b IH]]; simpl; [eauto |].
  destruct (Hf a) as [[|] ->]; simpl; eauto.
Qed.

(** The structure check on an object or an array, case by case. *)
Lemma validItem_record_cases item ks :
  is_record item -> JS.keys item = Ok ks ->
  validItem item =
  if Nat.eqb (List.length ks) 0 then Ok false
  else if has_both (js "name") (js "value") item then
    Ok (number_where (fun v => negb (Num.isNaN v) && Num.isFinite v)
                     (JS.get_own item (js "value")))
  else if has_both (js "x") (js "y") item then
    Ok (number_where (fun _ => true) (JS.get_own item (js "x"))
        && number_where (fun _ => true) (JS.get_own item (js "y")))
  else
    bind (filterM (fun k => Ok (number_where (fun n => negb (Num.isNaN n))
                                             (JS.get_own item k))) ks)
         (fun numericFields => Ok (Nat.leb 1 (List.length numericFields))).
Proof.
  intros Hr Hk. unfold validItem, has_both.
  rewrite (@record_typeof item Hr), Hk. cbn [bind].
  destruct (Nat.eqb (List.length ks) 0); [reflexivity |].
  rewrite (@record_has_property (js "name") item Hr). cbn [bind].
  assert (Hf : forall l,
    filterM (fun k => bind (JS.get item k) (fun v =>
               Ok (number_where (fun n => negb (Num.isNaN n)) v))) l =
    filterM (fun k => Ok (number_where (fun n => negb (Num.isNaN n))
                                       (JS.get_own item k))) l).
  { induction l as [| k l IH]; cbn [filterM]; [reflexivity |].
    rewrite (@record_get k item Hr), IH. reflexivity. }
  destruct (JS.get_own item (js "name")) as [vn |].
  - rewrite (@record_has_property (js "value") item Hr). cbn [bind].
    destruct (JS.get_own item (js "value")) as [vv |] eqn:Ev.
    + rewrite (@record_get (js "value") item Hr), Ev. reflexivity.
    + rewrite (@record_has_property (js "x") item Hr). cbn [bind].
      destruct (JS.get_own item (js "x")) as [vx |] eqn:Ex.
      * rewrite (@record_has_property (js "y") item Hr). cbn [bind].
        destruct (JS.get_own item (js "y")) as [vy |] eqn:Ey.
        -- rewrite (@record_get (js "x") item Hr), (@record_get (js "y") item Hr), Ex, Ey.
           reflexivity.
        -- now rewrite Hf.
      * cbn [bind]. now rewrite Hf.
  - cbn [bind].
    rewrite (@record_has_property (js "x") item Hr). cbn [bind].
    destruct (JS.get_own item (js "x")) as [vx |] eqn:Ex.
    + rewrite (@record_has_property (js "y") item Hr). cbn [bind].
      destruct (JS.get_own item (js "y")) as [vy |] eqn:Ey.
      * rewrite (@record_get (js "x") item Hr), (@record_get (js "y") item Hr), Ex, Ey.
        destruct (JS.get_own item (js "value")); reflexivity.
      * destruct (JS.get_own item (js "value")); now rewrite Hf.
    + cbn [bind]. destruct (JS.get_own item (js "value")); now rewrite Hf.
Qed.

(** The structure check itself never throws. *)
Lemma validItem_total item : exists b, validItem item = Ok b.
Proof.
  assert (Hcase : is_record item \/ ~ is_record item)
    by (destruct item; simpl; tauto).
  destruct Hcase as [Hr | Hn].
  - destruct (keys_record _ Hr) as [ks Hk].
    rewrite (@validItem_record_cases item ks Hr Hk).
    destruct (Nat.eqb (List.length ks) 0); [eauto |].
    destruct (has_both (js "name") (js "value") item); [eauto |].
    destruct (has_both (js "x") (js "y") item); [eauto |].
    match goal with
    | |- context [filterM ?f ks] =>
        destruct (@filterM_total _ f ks) as [ys ->]; [eauto | cbn [bind]; eauto]
    end.
  - destruct item; simpl in Hn; try tauto; exists false; reflexivity.
Qed.

End ValidatorRules.

Module GenericRule.
Import ValidatorFacts ValidatorRules.

(** An item accepted under the generic rule has a field holding a number
    other than [NaN]. *)
Lemma validItem_generic item :
  validItem item = Ok true -> generic_shape item ->
  exists k n, JS.get_own item k = Some (VNum n) /\ Num.isNaN n = false.
Proof.
  intros Hv [Hnv Hxy]. pose proof (validItem_record _ Hv) as Hr.
  destruct (keys_record _ Hr) as [ks Hk].
  rewrite (@validItem_record_cases item ks Hr Hk), Hnv, Hxy in Hv.
  destruct (Nat.eqb (List.length ks) 0); [discriminate |].
  match type of Hv with
  | bind (filterM ?f ks) _ = _ => destruct (filterM f ks) as [nf |] eqn:Ef
  end; cbn [bind] in Hv; [| discriminate].
  destruct nf as [| k nf]; [discriminate |].
  destruct (filterM_In _ _ k Ef (or_introl eq_refl)) as [_ Hn].
  destruct (JS.get_own item k) as [[| | n | | |] |] eqn:Eg; try discriminate.
  exists k, n. split; [exact Eg |].
  injection Hn as Hn. now apply negb_true_iff in Hn.
Qed.

End GenericRule.

(** C6, as amended.  In a candidate array accepted by the Validator, an
    element judged by the generic shape rule (neither the name/value shape
    nor the x/y shape) has at least one field whose value is a number other
    than [NaN]; the number may be infinite. *)
Theorem generic_rule_requires_a_non_NaN_number :
  forall items item,
    isValidChartData (VArr items) = Ok true ->
    In item items ->
    generic_shape item ->
    exists k n, JS.get_own item k = Some (VNum n) /\ Num.isNaN n = false.
Proof.
  intros items item Hv Hin Hg.
  destruct (ValidatorFacts.isValidChartData_inv _ Hv) as (items' & E & _ & Hall).
  injection E as <-. rewrite Forall_forall in Hall.
  apply GenericRule.validItem_generic; auto.
Qed.

Lemma generic_rule_requires_a_non_NaN_number_witness :
  exists k n, JS.get_own infinite_record k = Some (VNum n) /\ Num.isNaN n = false.
Proof.
  apply (@generic_rule_requires_a_non_NaN_number [infinite_record] infinite_record).
  - vm_compute. reflexivity.
  - now left.
  - split; [vm_compute; reflexivity |]. vm_compute; reflexivity.
Defined.

(** C6 fails as stated: the record [{"value": 1e999}], which JSON.parse
    reads with an infinite value, is judged by the generic rule, has no
    field holding a finite number, and makes a candidate array that the
    Validator accepts (the run returns a chart for it). *)
Lemma infinite_field_passes_validator :
  JSON.parse (jsq "[{'value':1e999}]") = Ok (VArr [infinite_record]) /\
  generic_shape infinite_record /\
  (forall k n, JS.get_own infinite_record k = Some (VNum n) -> Num.isFinite n = false) /\
  isValidChartData (VArr [infinite_record]) = Ok true /\
  exists c, parseChartsFromResponse code_unit_compare 0%Z overflow_block = Ok [c] /\
            Chart.data c = VArr [infinite_record].
Proof.
  split; [vm_compute; reflexivity |].
  split; [split; [vm_compute; reflexivity |]; vm_compute; reflexivity |].
  split.
  - intros k n. unfold infinite_record. cbn [JS.get_own JS.assoc].
    destruct (jstr_eqb k (js "value")); [| discriminate].
    intros H. injection H as <-. reflexivity.
  - split; [vm_compute; reflexivity |].
    eexists. split; [vm_compute; reflexivity |]. vm_compute; reflexivity.
Qed.

Module ZeroSum.
Import ValidatorFacts ValidatorRules.

Lemma add_numbers a b : JS.add (VNum a) (VNum b) = Ok (VNum (Num.add a b)).
Proof. reflexivity. Qed.

Lemma reduce_numbers ns : forall acc,
  reduceM JS.add (List.map VNum ns) (VNum acc) = Ok (VNum (fold_left Num.add ns acc)).
Proof.
  induction ns as [| n ns IH]; intros acc; cbn [List.map reduceM fold_left]; [reflexivity |].
  rewrite add_numbers. cbn [bind]. apply IH.
Qed.

Lemma valueOrZero_reading item :
  is_record item -> numeric_or_absent item ->
  valueOrZero item = Ok (VNum (engine_reading item)).
Proof.
  intros Hr Hn. unfold valueOrZero, engine_reading, numeric_or_absent in *.
  rewrite (@record_get (js "value") item Hr). cbn [bind].
  destruct (JS.get_own item (js "value")) as [[| | n | | |] |]; try contradiction;
    [| reflexivity].
  cbn [JS.or_default JS.truthy]. destruct (Num.truthy n); reflexivity.
Qed.

Lemma mapM_readings items :
  Forall is_record items -> Forall numeric_or_absent items ->
  mapM valueOrZero items = Ok (List.map VNum (List.map engine_reading items)).
Proof.
  induction 1 as [| item items Hr _ IH]; intros Hn; cbn [mapM List.map]; [reflexivity |].
  inversion Hn; subst. rewrite (@valueOrZero_reading item Hr) by assumption. cbn [bind].
  rewrite IH by assumption. reflexivity.
Qed.

Lemma add_nan_l b : Num.add S754_nan b = S754_nan.
Proof. destruct b; reflexivity. Qed.

Lemma fold_nan ns : fold_left Num.add ns S754_nan = S754_nan.
Proof. induction ns as [| n ns IH]; cbn [fold_left]; [| rewrite add_nan_l]; auto. Qed.

Lemma fold_value_sum items acc :
  fold_left (fun a item => Num.add a (value_reading item)) items acc =
  fold_left Num.add (List.map value_reading items) acc.
Proof.
  revert acc. induction items as [| i items IH]; intros acc; cbn [fold_left List.map]; auto.
Qed.

(** One addition keeps the two running sums in step: the engine adds [0]
    where the field holds [-0], and differs from the sum of the fields by
    the sign of a zero at most. *)
Lemma step_same_or_zeros a b n :
  same_or_zeros a b -> n <> S754_nan ->
  same_or_zeros (Num.add a n) (Num.add b (if Num.truthy n then n else Num.zero)).
Proof.
  intros [<- | (sa & sb & -> & ->)] Hn.
  - destruct n as [sn | sn | | sn mn en]; cbn [Num.truthy]; try (now left); try congruence.
    destruct a as [s | s | | s m e]; try (now left).
    right. destruct s, sn; cbn; eauto.
  - destruct n as [sn | sn | | sn mn en]; cbn [Num.truthy]; try congruence.
    + right. destruct sa, sb, sn; cbn; eauto.
    + left. reflexivity.
    + left. reflexivity.
Qed.

Lemma sums_same_or_zeros items : forall a b,
  Forall numeric_or_absent items ->
  same_or_zeros a b ->
  Num.eqb (fold_left Num.add (List.map value_reading items) a) Num.zero = true ->
  Num.eqb (fold_left Num.add (List.map engine_reading items) b) Num.zero = true.
Proof.
  induction items as [| item items IH]; intros a b Hn Hab Hz; cbn [List.map fold_left] in *.
  - destruct Hab as [<- | (sa & sb & -> & ->)]; [exact Hz | reflexivity].
  - inversion Hn as [| ? ? Hi Hn']; subst.
    assert (Hread : engine_reading item =
                    if Num.truthy (value_reading item) then value_reading item
                    else Num.zero).
    { unfold engine_reading, value_reading.
      destruct (JS.get_own item (js "value")) as [[| | n | | |] |]; reflexivity. }
    destruct (value_reading item) as [sn | sn | | sn mn en] eqn:En.
    4: { eapply IH; [exact Hn' | | exact Hz]. rewrite Hread.
         apply step_same_or_zeros; [exact Hab | discriminate]. }
    3: { rewrite (match a return Num.add a S754_nan = S754_nan with
                  | S754_nan => eq_refl | _ => eq_refl end), fold_nan in Hz.
         discriminate. }
    all: eapply IH; [exact Hn' | | exact Hz]; rewrite Hread;
      apply step_same_or_zeros; [exact Hab | discriminate].
Qed.

End ZeroSum.

(** C7.  If every element's [value] field is absent or a number and the sum
    of these fields (an absent field counts as [0], whatever shape the
    element has) is exactly zero, [isValidChartData] returns false; and the
    input whose only data block is the zero-sum dataset yields no chart. *)
Theorem zero_sum_is_rejected :
  (forall items,
     Forall numeric_or_absent items ->
     Num.eqb (value_sum items) Num.zero = true ->
     isValidChartData (VArr items) = Ok false) /\
  (forall localeCompare Date_now,
     parseChartsFromResponse localeCompare Date_now zero_block = Ok []).
Proof.
  split.
  - intros items Hn Hz. unfold isValidChartData.
    destruct (Nat.eqb (List.length items) 0); [reflexivity |].
    destruct (ValidatorRules.every_total validItem items ValidatorRules.validItem_total)
      as [b Hb].
    rewrite Hb. cbn [bind]. destruct b; [| reflexivity]. cbn [negb].
    apply ValidatorFacts.every_true in Hb.
    assert (Hr : Forall ValidatorFacts.is_record items).
    { eapply Forall_impl; [| exact Hb]. apply ValidatorFacts.validItem_record. }
    rewrite (@ZeroSum.mapM_readings items Hr Hn). cbn [bind].
    rewrite ZeroSum.reduce_numbers. cbn [bind JS.is_zero].
    unfold value_sum in Hz. rewrite ZeroSum.fold_value_sum in Hz.
    rewrite (@ZeroSum.sums_same_or_zeros items Num.zero Num.zero Hn (or_introl eq_refl) Hz).
    reflexivity.
  - intros cmp now. vm_compute. reflexivity.
Qed.

Lemma zero_sum_is_rejected_witness :
  isValidChartData (VArr [record "A" 5; record "B" (-5)]) = Ok false.
Proof.
  apply (proj1 zero_sum_is_rejected).
  - repeat constructor.
  - vm_compute. reflexivity.
Defined.


(** * The time-related pattern *)
Module TimePattern.
Import Regex.

Lemma rmatch_seq_cons r rs st k :
  rmatch (seq (r :: rs)) st k = rmatch r st (fun st' => rmatch (seq rs) st' k).
Proof. destruct rs; reflexivity. Qed.

Lemma rmatch_lit_ci w : forall st k,
  rmatch (seq (List.map (fun c => Chr (fun d => N.eqb (Str.lower d) (Str.lower c))) w)) st k
  = match read_ci w st with Some st' => k st' | None => None end.
Proof.
  induction w as [| c w IH]; intros st k.
  - reflexivity.
  - cbn [List.map]. rewrite rmatch_seq_cons. cbn [rmatch read_ci].
    destruct (m_rest st) as [| d rest]; [reflexivity |].
    destruct (N.eqb (Str.lower d) (Str.lower c)); [apply IH | reflexivity].
Qed.

Lemma read_ci_starts w : forall st,
  is_some (read_ci w st) = starts_with_ci w (m_rest st).
Proof.
  induction w as [| c w IH]; intros st; cbn [read_ci starts_with_ci]; [reflexivity |].
  destruct (m_rest st) as [| d rest]; [reflexivity |].
  destruct (N.eqb (Str.lower d) (Str.lower c)); [| reflexivity].
  rewrite IH. reflexivity.
Qed.

Lemma match_lit_ci w st :
  is_some (rmatch (lit_ci w) st Some) = starts_with_ci (js w) (m_rest st).
Proof.
  unfold lit_ci. rewrite rmatch_lit_ci, <- read_ci_starts.
  destruct (read_ci (js w) st); reflexivity.
Qed.

Lemma match_alt rs st : rs <> [] ->
  is_some (rmatch (alt rs) st Some) = existsb (fun r => is_some (rmatch r st Some)) rs.
Proof.
  induction rs as [| r rs IH]; intros Hne; [contradiction |].
  destruct rs as [| r' rs].
  - cbn [alt existsb]. now rewrite orb_false_r.
  - change (alt (r :: r' :: rs)) with (Alt r (alt (r' :: rs))).
    cbn [rmatch].
    transitivity (is_some (rmatch r st Some)
                  || existsb (fun r => is_some (rmatch r st Some)) (r' :: rs));
      [| reflexivity].
    rewrite <- IH by discriminate.
    unfold or_else. destruct (rmatch r st Some); reflexivity.
Qed.

Lemma existsb_through_map {A B} (f : B -> bool) (g : A -> B) l :
  existsb f (List.map g l) = existsb (fun a => f (g a)) l.
Proof. induction l as [| a l IH]; simpl; [reflexivity | now rewrite IH]. Qed.

Lemma existsb_same {A} (f g : A -> bool) l :
  (forall a, f a = g a) -> existsb f l = existsb g l.
Proof. intros H. induction l as [| a l IH]; simpl; [reflexivity | now rewrite H, IH]. Qed.

(** At a given place, the pattern matches when one of the words starts
    there. *)
Lemma match_time_words st :
  is_some (rmatch Patterns.timePattern st Some) =
  existsb (fun w => starts_with_ci (js w) (m_rest st)) Patterns.time_words.
Proof.
  unfold Patterns.timePattern. rewrite match_alt by discriminate.
  rewrite existsb_through_map. apply existsb_same. intros w. apply match_lit_ci.
Qed.

Lemma match_at_some r i rest :
  is_some (match_at r i rest) =
  is_some (rmatch r {| m_pos := i; m_rest := rest; m_caps := [] |} Some).
Proof. unfold match_at. destruct (rmatch r _ Some); reflexivity. Qed.

Lemma search_time rest : forall i,
  is_some (search_from Patterns.timePattern i rest) = true <->
  exists pre post w, rest = pre ++ post /\ In w Patterns.time_words /\
                     starts_with_ci (js w) post = true.
Proof.
  induction rest as [| c rest IH]; intros i; cbn [search_from].
  - destruct (match_at Patterns.timePattern i []) eqn:E.
    + split; [intros _ | reflexivity].
      assert (H : is_some (match_at Patterns.timePattern i []) = true) by now rewrite E.
      rewrite match_at_some, match_time_words in H. apply existsb_exists in H.
      destruct H as (w & Hw & Hs). exists [], [], w. auto.
    + split; [discriminate |]. intros (pre & post & w & Hp & Hw & Hs).
      destruct pre; [| discriminate]. simpl in Hp. subst post.
      assert (H : is_some (match_at Patterns.timePattern i []) = true).
      { rewrite match_at_some, match_time_words. apply existsb_exists. eauto. }
      rewrite E in H. discriminate.
  - destruct (match_at Patterns.timePattern i (c :: rest)) eqn:E.
    + split; [intros _ | reflexivity].
      assert (H : is_some (match_at Patterns.timePattern i (c :: rest)) = true)
        by now rewrite E.
      rewrite match_at_some, match_time_words in H. apply existsb_exists in H.
      destruct H as (w & Hw & Hs). exists [], (c :: rest), w. auto.
    + rewrite IH. split.
      * intros (pre & post & w & -> & Hw & Hs). exists (c :: pre), post, w. auto.
      * intros (pre & post & w & Hp & Hw & Hs).
        destruct pre as [| c' pre].
        -- simpl in Hp. subst post.
           assert (H : is_some (match_at Patterns.timePattern i (c :: rest)) = true).
           { rewrite match_at_some, match_time_words. apply existsb_exists. eauto. }
           rewrite E in H. discriminate.
        -- injection Hp as <- ->. exists pre, post, w. auto.
Qed.

(** The pattern is found in a field name exactly when the name contains
    one of the words, letter case ignored. *)
Lemma test_time_related k :
  test Patterns.timePattern k = true <-> time_related k.
Proof.
  unfold test, exec, time_related, occurs_ci.
  change (match search_from Patterns.timePattern 0 k with
          | Some _ => true | None => false end)
    with (is_some (search_from Patterns.timePattern 0 k)).
  rewrite search_time. split.
  - intros (pre & post & w & Hp & Hw & Hs). exists w. split; [exact Hw | eauto].
  - intros (w & Hw & pre & post & Hp & Hs). eauto 6.
Qed.

End TimePattern.

Lemma includes_In k keys : JS.includes k keys = true <-> In k keys.
Proof.
  unfold JS.includes. rewrite existsb_exists. split.
  - intros (a & Ha & E). apply jstr_eqb_eq in E. now subst.
  - intros H. exists k. split; [exact H | now apply jstr_eqb_eq].
Qed.

(** C9.  For a non-empty valid candidate array, [detectChartType] depends
    on the field names of the first record only, tried in this order: both
    [x] and [y] present gives scatter; otherwise a name containing date,
    time, month, year, day or period, letter case ignored, gives line;
    otherwise more than five fields give table; otherwise bar. *)
Theorem detectChartType_inspects_first_record :
  forall first rest,
    isValidChartData (VArr (first :: rest)) = Ok true ->
    exists keys,
      JS.keys first = Ok keys /\
      let has_xy := In (js "x") keys /\ In (js "y") keys in
      let timed := exists k, In k keys /\ time_related k in
      (has_xy -> detectChartType (VArr (first :: rest)) = Ok (js "scatter")) /\
      (~ has_xy -> timed -> detectChartType (VArr (first :: rest)) = Ok (js "line")) /\
      (~ has_xy -> ~ timed -> 5 < List.length keys ->
       detectChartType (VArr (first :: rest)) = Ok (js "table")) /\
      (~ has_xy -> ~ timed -> List.length keys <= 5 ->
       detectChartType (VArr (first :: rest)) = Ok (js "bar")).
Proof.
  intros first rest Hv.
  destruct (ValidatorFacts.isValidChartData_inv _ Hv) as (items & E & _ & Hall).
  injection E as <-. inversion Hall as [| ? ? Hfirst _]; subst.
  apply ValidatorFacts.validItem_record in Hfirst.
  destruct (ValidatorFacts.keys_record _ Hfirst) as [keys Hk].
  exists keys. split; [exact Hk |].
  assert (Hd : detectChartType (VArr (first :: rest)) =
               if JS.includes (js "x") keys && JS.includes (js "y") keys
               then Ok (js "scatter")
               else if existsb (fun k => Regex.test Patterns.timePattern k) keys
                    then Ok (js "line")
                    else if Nat.ltb 5 (List.length keys) then Ok (js "table")
                         else Ok (js "bar")).
  { unfold detectChartType. cbn [JS.truthy negb JS.length_is_zero List.length Nat.eqb].
    change (JS.get (VArr (first :: rest)) (js "0")) with (Ok (Some first)).
    cbn [bind required]. rewrite Hk. reflexivity. }
  rewrite Hd. clear Hd. cbv zeta.
  destruct (JS.includes (js "x") keys && JS.includes (js "y") keys) eqn:Exy.
  - apply andb_true_iff in Exy. destruct Exy as [Hx Hy].
    apply includes_In in Hx. apply includes_In in Hy.
    repeat split; auto; intros Hn; exfalso; apply Hn; auto.
  - assert (Hnxy : ~ (In (js "x") keys /\ In (js "y") keys)).
    { intros [Hx Hy]. apply includes_In in Hx. apply includes_In in Hy.
      rewrite Hx, Hy in Exy. discriminate. }
    destruct (existsb (fun k => Regex.test Patterns.timePattern k) keys) eqn:Et.
    + apply existsb_exists in Et. destruct Et as (k & Hin & Ht).
      apply TimePattern.test_time_related in Ht.
      repeat split; auto; try contradiction;
        intros _ Hnt; exfalso; apply Hnt; eauto.
    + assert (Hnt : ~ (exists k, In k keys /\ time_related k)).
      { intros (k & Hin & Ht). apply TimePattern.test_time_related in Ht.
        assert (existsb (fun k => Regex.test Patterns.timePattern k) keys = true)
          by (apply existsb_exists; eauto).
        congruence. }
      destruct (Nat.ltb_spec 5 (List.length keys)).
      * repeat split; auto; try contradiction. intros; lia.
      * repeat split; auto; try contradiction. intros; lia.
Qed.

Lemma detectChartType_inspects_first_record_witness :
  detectChartType (VArr [VObj [(js "Month", VStr (js "Jan")); (js "value", VNum (Num.of_Z 3))];
                         record "x" 1]) = Ok (js "line").
Proof.
  assert (Hv : isValidChartData
                 (VArr [VObj [(js "Month", VStr (js "Jan"));
                              (js "value", VNum (Num.of_Z 3))];
                        record "x" 1]) = Ok true) by (vm_compute; reflexivity).
  destruct (@detectChartType_inspects_first_record _ _ Hv) as (keys & Hk & _ & Hline & _).
  injection Hk as <-. apply Hline.
  - intros [Hx _]. apply includes_In in Hx. vm_compute in Hx. discriminate.
  - exists (js "Month"). split; [now left |].
    exists "month"%string. split; [simpl; tauto |].
    exists [], (js "Month"). split; [reflexivity | vm_compute; reflexivity].
Defined.

(** * Sorting and the signature *)
Section Signature.

Variable cmp : jstring -> jstring -> comparison.
Hypothesis cmp_consistent : consistent_comparator cmp.

#[local] Abbreviation le := (not_after cmp).

Lemma le_total a b : cmp a b = Gt -> le b a.
Proof.
  intros H. unfold not_after. rewrite (cmp_opp cmp_consistent), H. discriminate.
Qed.

Lemma le_trans a b c : le a b -> le b c -> le a c.
Proof. apply (cmp_le_trans cmp_consistent). Qed.

(** Two strings neither of which is after the other compare equal. *)
Lemma le_both_tie a b : le a b -> le b a -> cmp a b = Eq.
Proof.
  unfold not_after. intros Hab Hba. rewrite (cmp_opp cmp_consistent a b) in Hba.
  destruct (cmp a b); [reflexivity | simpl in Hba; contradiction | contradiction].
Qed.

Lemma insert_by_perm a l : Permutation (insert_by cmp a l) (a :: l).
Proof.
  induction l as [| b l IH]; cbn [insert_by]; [reflexivity |].
  destruct (cmp a b); try reflexivity.
  rewrite perm_swap. now apply perm_skip.
Qed.

Lemma sort_by_perm l : Permutation (sort_by cmp l) l.
Proof.
  induction l as [| a l IH]; cbn [sort_by fold_right]; [reflexivity |].
  rewrite insert_by_perm. now apply perm_skip.
Qed.

Lemma insert_by_sorted a l :
  StronglySorted le l -> StronglySorted le (insert_by cmp a l).
Proof.
  induction 1 as [| b l Hs IH Hb]; cbn [insert_by].
  - repeat constructor.
  - assert (Hfront : le a b -> StronglySorted le (a :: b :: l)).
    { intros Hab. constructor; [now constructor |].
      constructor; [exact Hab |].
      eapply Forall_impl; [| exact Hb]. intros c Hc. eapply le_trans; eauto. }
    destruct (cmp a b) eqn:E.
    + apply Hfront. unfold not_after. rewrite E. discriminate.
    + apply Hfront. unfold not_after. rewrite E. discriminate.
    + constructor; [exact IH |].
      eapply Permutation_Forall; [symmetry; apply insert_by_perm |].
      constructor; [now apply le_total | exact Hb].
Qed.

Lemma sort_by_sorted l : StronglySorted le (sort_by cmp l).
Proof.
  induction l as [| a l IH]; cbn [sort_by fold_right]; [constructor |].
  now apply insert_by_sorted.
Qed.

(** Two sorted arrangements of strings that [cmp] separates are the
    same list. *)
Lemma sorted_perm_eq l1 : forall l2,
  separates cmp l1 ->
  StronglySorted le l1 -> StronglySorted le l2 -> Permutation l1 l2 -> l1 = l2.
Proof.
  induction l1 as [| a l1 IH]; intros l2 Hsep H1 H2 Hp.
  - apply Permutation_nil in Hp. now subst.
  - destruct l2 as [| b l2]; [symmetry in Hp; apply Permutation_nil_cons in Hp; contradiction |].
    inversion H1 as [| ? ? Hs1 Ha]; subst. inversion H2 as [| ? ? Hs2 Hb]; subst.
    assert (Ib : In b (a :: l1))
      by (eapply Permutation_in; [symmetry; exact Hp | now left]).
    assert (Hab : a = b).
    { assert (Ia : In a (b :: l2)) by (eapply Permutation_in; [exact Hp | now left]).
      destruct Ia as [-> | Ia]; [reflexivity |].
      destruct Ib as [-> | Ib']; [reflexivity |].
      rewrite Forall_forall in Ha, Hb.
      apply Hsep; [now left | now right |].
      apply le_both_tie; auto. }
    subst b. f_equal. apply IH; auto.
    + intros x y Hx Hy. apply Hsep; now right.
    + eapply Permutation_cons_inv; eauto.
Qed.

Lemma separates_perm l1 l2 : Permutation l1 l2 -> separates cmp l1 -> separates cmp l2.
Proof.
  intros Hp Hs a b Ha Hb.
  apply Hs; (eapply Permutation_in; [symmetry; exact Hp | assumption]).
Qed.

(** Sorting forgets the order of the input when no two different strings
    of the input tie. *)
Lemma sort_by_permutation l1 l2 :
  separates cmp l1 -> Permutation l1 l2 -> sort_by cmp l1 = sort_by cmp l2.
Proof.
  intros Hs Hp. apply sorted_perm_eq; try apply sort_by_sorted.
  - apply separates_perm with l1; [| exact Hs]. symmetry. apply sort_by_perm.
  - rewrite !sort_by_perm. exact Hp.
Qed.

End Signature.

Lemma insert_by_map {A B} (key : A -> B) (cmp : B -> B -> comparison) a l :
  List.map key (insert_by (fun x y => cmp (key x) (key y)) a l) =
  insert_by cmp (key a) (List.map key l).
Proof.
  induction l as [| b l IH]; cbn [insert_by List.map]; [reflexivity |].
  destruct (cmp (key a) (key b)); cbn [List.map]; try reflexivity.
  now rewrite IH.
Qed.

Lemma sort_by_map {A B} (key : A -> B) (cmp : B -> B -> comparison) l :
  List.map key (sort_by (fun x y => cmp (key x) (key y)) l) =
  sort_by cmp (List.map key l).
Proof.
  induction l as [| a l IH]; cbn [sort_by fold_right List.map]; [reflexivity |].
  rewrite insert_by_map. f_equal. exact IH.
Qed.

Lemma stringify_array l :
  JSON.stringify (VArr l) =
  js "[" ++ JS.join (js ",") (List.map JSON.stringify l) ++ js "]".
Proof.
  reflexivity.
Qed.

(** The signature is determined by the sorted serialized elements. *)
Lemma createDataSignature_array cmp l :
  createDataSignature cmp (VArr l) =
  Ok (js "[" ++ JS.join (js ",") (sort_by cmp (List.map JSON.stringify l)) ++ js "]").
Proof.
  unfold createDataSignature. cbn [JS.spread bind].
  rewrite stringify_array.
  rewrite (sort_by_map JSON.stringify cmp). reflexivity.
Qed.

(** C10, as amended.  [localeCompare] is a consistent comparison function.  Two
    candidate arrays with the same elements, in any order, have the same
    signature provided it returns [0] for the serialized forms of two
    elements only when these forms are the same string. *)
Theorem signature_ignores_order :
  forall localeCompare (consistent : consistent_comparator localeCompare)
         (data1 data2 : list value),
    Permutation data1 data2 ->
    separates localeCompare (List.map JSON.stringify data1) ->
    createDataSignature localeCompare (VArr data1) =
    createDataSignature localeCompare (VArr data2).
Proof.
  intros cmp Hc d1 d2 Hp Hs. rewrite !createDataSignature_array.
  rewrite (@sort_by_permutation cmp Hc (List.map JSON.stringify d1)
             (List.map JSON.stringify d2) Hs); [reflexivity |].
  now apply Permutation_map.
Qed.

Lemma code_unit_compare_refl a : code_unit_compare a a = Eq.
Proof. induction a as [| x a IH]; simpl; [reflexivity |]. now rewrite N.compare_refl. Qed.

Lemma code_unit_compare_eq a : forall b, code_unit_compare a b = Eq -> a = b.
Proof.
  induction a as [| x a IH]; intros [| y b]; simpl; intros H;
    try reflexivity; try discriminate.
  destruct (N.compare x y) eqn:E; try discriminate.
  apply N.compare_eq in E. subst. f_equal. now apply IH.
Qed.

Lemma code_unit_compare_opp a : forall b,
  code_unit_compare b a = CompOpp (code_unit_compare a b).
Proof.
  induction a as [| x a IH]; intros [| y b]; simpl; try reflexivity.
  rewrite (N.compare_antisym x y).
  destruct (N.compare x y); simpl; auto.
Qed.

Lemma code_unit_compare_lt_trans a : forall b c,
  code_unit_compare a b = Lt -> code_unit_compare b c = Lt -> code_unit_compare a c = Lt.
Proof.
  induction a as [| x a IH]; intros [| y b] [| z c]; simpl; intros H1 H2;
    try reflexivity; try discriminate.
  destruct (N.compare x y) eqn:Exy; try discriminate.
  - apply N.compare_eq in Exy. subst y.
    destruct (N.compare x z) eqn:Exz; try discriminate; try reflexivity.
    eapply IH; eauto.
  - destruct (N.compare y z) eqn:Eyz; try discriminate.
    + apply N.compare_eq in Eyz. subst z. now rewrite Exy.
    + rewrite N.compare_lt_iff in Exy, Eyz.
      assert (Hxz : (x < z)%N) by (eapply N.lt_trans; eauto).
      apply N.compare_lt_iff in Hxz. now rewrite Hxz.
Qed.

Lemma code_unit_compare_le_trans a b c :
  code_unit_compare a b <> Gt -> code_unit_compare b c <> Gt ->
  code_unit_compare a c <> Gt.
Proof.
  intros Hab Hbc.
  destruct (code_unit_compare a b) eqn:Eab; [| | contradiction].
  - apply code_unit_compare_eq in Eab. now subst.
  - destruct (code_unit_compare b c) eqn:Ebc; [| | contradiction].
    + apply code_unit_compare_eq in Ebc. subst. now rewrite Eab.
    + now rewrite (code_unit_compare_lt_trans _ _ _ Eab Ebc).
Qed.

Lemma code_unit_compare_consistent : consistent_comparator code_unit_compare.
Proof.
  constructor.
  - intros a b. apply code_unit_compare_opp.
  - apply code_unit_compare_le_trans.
Qed.

Lemma compare_ignoring_soft_hyphens_consistent :
  consistent_comparator compare_ignoring_soft_hyphens.
Proof.
  constructor; unfold compare_ignoring_soft_hyphens.
  - intros a b. apply code_unit_compare_opp.
  - intros a b c. apply code_unit_compare_le_trans.
Qed.

Lemma signature_ignores_order_witness :
  createDataSignature code_unit_compare (VArr [record "East" 120; record "West" 95]) =
  createDataSignature code_unit_compare (VArr [record "West" 95; record "East" 120]).
Proof.
  apply (@signature_ignores_order code_unit_compare code_unit_compare_consistent).
  - apply perm_swap.
  - intros a b _ _. apply code_unit_compare_eq.
Defined.

(** C10 fails as stated: a consistent comparison that ties two different
    strings, as collation does for strings that differ by a soft hyphen,
    leaves two such elements in the order of the input, and the two orders
    give two signatures. *)
Lemma tied_elements_keep_input_order :
  consistent_comparator compare_ignoring_soft_hyphens /\
  Permutation [hyphenated; unhyphenated] [unhyphenated; hyphenated] /\
  compare_ignoring_soft_hyphens (JSON.stringify hyphenated) (JSON.stringify unhyphenated)
  = Eq /\
  createDataSignature compare_ignoring_soft_hyphens (VArr [hyphenated; unhyphenated]) <>
  createDataSignature compare_ignoring_soft_hyphens (VArr [unhyphenated; hyphenated]).
Proof.
  split; [apply compare_ignoring_soft_hyphens_consistent |].
  split; [apply perm_swap |].
  split; [vm_compute; reflexivity |].
  vm_compute. discriminate.
Qed.


(** C8.  When the first fenced block holds a valid dataset and the title
    found before it is [Revenue (TYPE: line)], the first ChartSpec has the
    type [line] and the title [Revenue], whatever the shape of the dataset:
    the annotation is stripped and its kind is used without consulting
    [detectChartType]. *)
Theorem annotated_title_sets_type :
  forall localeCompare Date_now text m ms d,
    Regex.exec_all Patterns.codeBlockPattern text = m :: ms ->
    fenced_candidate text m d ->
    extractTitleBeforeCodeBlock text (Regex.index m) = Ok (Some (js "Revenue (TYPE: line)")) ->
    exists c rest,
      parseChartsFromResponse localeCompare Date_now text = Ok (c :: rest) /\
      type c = Kind (js "line") /\
      title c = js "Revenue" /\
      data c = d.
Proof.
  intros cmp now text m ms d Hms (g & Hg & Hp & Hv) Ht.
  destruct (ValidatorFacts.isValidChartData_inv _ Hv) as (items & -> & _ & _).
  (* the first iteration pushes the chart *)
  set (sig := js "[" ++ JS.join (js ",") (sort_by cmp (List.map JSON.stringify items))
              ++ js "]").
  destruct (@acceptCandidate_push cmp now (VArr items)
              (Some (js "Revenue (TYPE: line)")) initial sig
              (js "Revenue") (Some (Kind (js "line"))) Hv
              (createDataSignature_array cmp items) eq_refl)
    as (chartType & -> & Hpush); [vm_compute; reflexivity |].
  assert (Hfirst : try_catch (codeBlockBody cmp now text m) initial =
                   fst (acceptCandidate cmp now (VArr items)
                          (Ok (Some (js "Revenue (TYPE: line)"))) initial)).
  { unfold try_catch, codeBlockBody, bind_run, lift. rewrite Hg. cbn [required fst snd].
    rewrite Hp, Ht. reflexivity. }
  rewrite Hpush in Hfirst. cbn [initial charts seenDataSignatures List.length app] in Hfirst.
  (* the later iterations and the two extractors only append *)
  destruct (parse_structure cmp now text) as (tables & lists & k1 & k2 & _ & _ & Hparse & _).
  rewrite Hparse.
  assert (Hsteps : steps cmp now (try_catch (codeBlockBody cmp now text m) initial)
                     (parseJsonCandidates cmp now text)).
  { unfold parseJsonCandidates. fold initial. rewrite Hms. cbn [codeBlockLoop].
    change (Nat.leb MAX_CHARTS (List.length (charts initial))) with false. cbv iota.
    destruct (_ && _).
    - eapply steps_trans; [apply codeBlockLoop_steps | apply jsonMatchLoop_steps].
    - apply codeBlockLoop_steps. }
  apply steps_prefix in Hsteps. destruct Hsteps as [more Hmore].
  rewrite Hfirst in Hmore. cbn [charts] in Hmore. rewrite Hmore.
  cbn [app]. eexists. eexists. split; [reflexivity |]. cbn. auto.
Qed.

Lemma annotated_title_sets_type_witness :
  exists c rest,
    parseChartsFromResponse code_unit_compare 0%Z revenue_text = Ok (c :: rest) /\
    type c = Kind (js "line") /\
    title c = js "Revenue" /\
    data c = VArr [record "Q1" 10; record "Q2" 12].
Proof.
  eapply (@annotated_title_sets_type code_unit_compare 0%Z revenue_text).
  - vm_compute. reflexivity.
  - eexists. split; [vm_compute; reflexivity |].
    split; [vm_compute; reflexivity |]. vm_compute; reflexivity.
  - vm_compute. reflexivity.
Defined.

(* ===================================================================== *)
(** * Further properties of the engine                                    *)
(* ===================================================================== *)

(** X1.  The grid cells of [calculatePosition] fit in the twelve columns of
    the grid, and the cells of two different indices never overlap. *)
Theorem calculatePosition_cells_are_disjoint :
  forall i j,
    Chart.x (calculatePosition i) + Chart.w (calculatePosition i) <= 12 /\
    (i <> j -> ~ overlaps (calculatePosition i) (calculatePosition j)).
Proof.
  intros i j. unfold overlaps, calculatePosition. cbn [Chart.x Chart.y Chart.w Chart.h].
  pose proof (Nat.div_mod_eq i 2) as Hi. pose proof (Nat.div_mod_eq j 2) as Hj.
  pose proof (Nat.mod_upper_bound i 2 ltac:(discriminate)) as Hmi.
  pose proof (Nat.mod_upper_bound j 2 ltac:(discriminate)) as Hmj.
  split; [lia |]. intros Hne (H1 & H2 & H3 & H4). lia.
Qed.

Lemma calculatePosition_cells_are_disjoint_witness :
  ~ overlaps (calculatePosition 2) (calculatePosition 3).
Proof.
  apply (proj2 (calculatePosition_cells_are_disjoint 2 3)). discriminate.
Defined.

Lemma lookup_string_In k m v : lookup_string k m = Some v -> In (k, v) m.
Proof.
  induction m as [| [k' v'] m IH]; simpl; [discriminate |].
  destruct (jstr_eqb k k') eqn:E.
  - intros H. injection H as ->. apply jstr_eqb_eq in E. subst. now left.
  - intros H. right. auto.
Qed.

(** The values of [typeMap] are canonical kinds, and each of them is a key
    that maps to itself. *)
Lemma typeMap_values k v :
  In (k, v) typeMap -> In v canonical_kinds /\ normalizeChartType v = Kind v.
Proof.
  unfold typeMap. intros H.
  repeat (destruct H as [H | H];
          [injection H as <- <-; split; [simpl; tauto | vm_compute; reflexivity] |]).
  destruct H.
Qed.

Lemma normalizeChartType_cases typeStr :
  (exists k, normalizeChartType typeStr = Kind k /\ In k canonical_kinds /\
             normalizeChartType k = Kind k) \/
  (exists n, normalizeChartType typeStr = Inherited n /\
             n = Str.trim (Str.toLowerCase typeStr) /\
             (n = js "constructor" \/ n = js "__proto__")).
Proof.
  unfold normalizeChartType.
  destruct (lookup_string (Str.trim (Str.toLowerCase typeStr)) typeMap) as [v |] eqn:E.
  - left. apply lookup_string_In in E. apply typeMap_values in E.
    exists v. fold (normalizeChartType v). tauto.
  - destruct (jstr_eqb _ (js "constructor")) eqn:Ec.
    + right. apply jstr_eqb_eq in Ec. eexists. split; [reflexivity |]. split; auto.
    + destruct (jstr_eqb _ (js "__proto__")) eqn:Ep; cbn [orb].
      * right. apply jstr_eqb_eq in Ep. eexists. split; [reflexivity |]. split; auto.
      * left. exists (js "bar"). split; [reflexivity |].
        split; [simpl; tauto | vm_compute; reflexivity].
Qed.

Lemma typeMap_lookup k v : In (k, v) typeMap -> lookup_string k typeMap = Some v.
Proof.
  unfold typeMap. intros H.
  repeat (destruct H as [H | H]; [injection H as <- <-; vm_compute; reflexivity |]).
  destruct H.
Qed.

Lemma lookup_string_absent k m :
  (forall v, ~ In (k, v) m) -> lookup_string k m = None.
Proof.
  induction m as [| [k' v'] m IH]; simpl; intros H; [reflexivity |].
  destruct (jstr_eqb k k') eqn:E.
  - apply jstr_eqb_eq in E. subst k'. exfalso. apply (H v'). now left.
  - apply IH. intros v Hv. apply (H v). now right.
Qed.

Lemma jstr_eqb_neq a b : a <> b -> jstr_eqb a b = false.
Proof.
  intros H. destruct (jstr_eqb a b) eqn:E; [| reflexivity].
  apply jstr_eqb_eq in E. contradiction.
Qed.

Lemma normalizeChartType_exact typeStr :
  let normalized := Str.trim (Str.toLowerCase typeStr) in
  (forall kind, In (normalized, kind) typeMap ->
     normalizeChartType typeStr = Kind kind) /\
  (normalized = js "constructor" \/ normalized = js "__proto__" ->
     normalizeChartType typeStr = Inherited normalized) /\
  ((forall kind, ~ In (normalized, kind) typeMap) ->
   normalized <> js "constructor" -> normalized <> js "__proto__" ->
     normalizeChartType typeStr = Kind (js "bar")).
Proof.
  intros normalized. unfold normalizeChartType. fold normalized.
  split; [| split].
  - intros kind H. now rewrite (@typeMap_lookup _ _ H).
  - intros [H | H]; rewrite H; vm_compute; reflexivity.
  - intros Hno Hc Hp. rewrite (@lookup_string_absent _ _ Hno).
    now rewrite (jstr_eqb_neq Hc), (jstr_eqb_neq Hp).
Qed.

(** X2.  [normalizeChartType] lower-cases and trims the token.  A token
    that is then a key of [typeMap] gives the kind listed for it; one that
    then reads [constructor] or [__proto__] gives the member [typeMap]
    inherits from [Object.prototype] under that name, not [bar]; every other
    token gives [bar].  So the result is one of the twelve canonical kinds,
    on which the function is the identity, or one of the two inherited
    members. *)
Theorem normalizeChartType_range :
  forall typeStr,
    let normalized := Str.trim (Str.toLowerCase typeStr) in
    (forall kind, In (normalized, kind) typeMap ->
       normalizeChartType typeStr = Kind kind) /\
    (normalized = js "constructor" \/ normalized = js "__proto__" ->
       normalizeChartType typeStr = Inherited normalized) /\
    ((forall kind, ~ In (normalized, kind) typeMap) ->
     normalized <> js "constructor" -> normalized <> js "__proto__" ->
       normalizeChartType typeStr = Kind (js "bar")) /\
    ((exists k, normalizeChartType typeStr = Kind k /\ In k canonical_kinds /\
                normalizeChartType k = Kind k) \/
     (exists n, normalizeChartType typeStr = Inherited n /\
                n = normalized /\
                (n = js "constructor" \/ n = js "__proto__"))).
Proof.
  intros typeStr normalized.
  destruct (normalizeChartType_exact typeStr) as (H1 & H2 & H3).
  split; [exact H1 |]. split; [exact H2 |]. split; [exact H3 |].
  apply normalizeChartType_cases.
Qed.

Lemma normalizeChartType_range_witness :
  normalizeChartType (js " Donut") = Kind (js "pie") /\
  normalizeChartType (js "Constructor ") = Inherited (js "constructor") /\
  normalizeChartType (js "sparkline") = Kind (js "bar").
Proof.
  split; [| split].
  - apply (proj1 (normalizeChartType_range (js " Donut"))).
    vm_compute. tauto.
  - apply (proj1 (proj2 (normalizeChartType_range (js "Constructor ")))).
    left. vm_compute. reflexivity.
  - apply (proj1 (proj2 (proj2 (normalizeChartType_range (js "sparkline"))))).
    + intros kind H. vm_compute in H.
      repeat (destruct H as [H | H]; [discriminate H |]). exact H.
    + vm_compute. discriminate.
    + vm_compute. discriminate.
Defined.

(** * Trimming *)
Module TrimFacts.

Lemma trimStart_head s c t : Str.trimStart s = c :: t -> Str.is_space c = false.
Proof.
  induction s as [| d s IH]; simpl; [discriminate |].
  destruct (Str.is_space d) eqn:E; [exact IH |].
  intros H. injection H as <- _. exact E.
Qed.

Lemma trimStart_suffix s : exists pre, s = pre ++ Str.trimStart s.
Proof.
  induction s as [| d s [pre IH]]; simpl; [exists []; reflexivity |].
  destruct (Str.is_space d).
  - exists (d :: pre). simpl. now rewrite <- IH.
  - exists []. reflexivity.
Qed.

(** [trim] leaves no white space at either end. *)
Lemma trim_is_trimmed s : is_trimmed (Str.trim s) = true.
Proof.
  unfold Str.trim, Str.trimEnd.
  set (t := Str.trimStart s).
  destruct (Str.trimStart (rev t)) as [| a u] eqn:Eu; [reflexivity |].
  pose proof (trimStart_head _ Eu) as Ha.
  destruct (trimStart_suffix (rev t)) as [pre Hpre]. rewrite Eu in Hpre.
  assert (Ht : t = rev (a :: u) ++ rev pre).
  { rewrite <- rev_app_distr, <- Hpre. now rewrite rev_involutive. }
  cbn [rev] in *.
  destruct (rev u ++ [a]) as [| c r] eqn:Er.
  - destruct (rev u); discriminate.
  - unfold is_trimmed. rewrite <- Er, last_last, Ha.
    cbn [app] in Ht.
    assert (Hc : Str.is_space c = false).
    { eapply trimStart_head. unfold t in Ht. exact Ht. }
    now rewrite Hc.
Qed.

End TrimFacts.

(** The type found in an annotation is a result of [normalizeChartType]. *)
Lemma extractTitleAndType_fields titleStr title type :
  extractTitleAndType titleStr = Ok (title, type) ->
  is_trimmed title = true /\
  match type with
  | Some t => exists k, t = normalizeChartType k
  | None => True
  end.
Proof.
  unfold extractTitleAndType.
  destruct (negb (Str.nonempty titleStr)).
  { intros H. injection H as <- <-. split; [reflexivity | exact I]. }
  destruct (Regex.exec Patterns.typePattern1 titleStr) as [m1 |].
  - destruct (Regex.group titleStr m1 1) as [t |]; cbn [required bind]; [| discriminate].
    destruct (Regex.group titleStr m1 2) as [k |]; cbn [required bind]; [| discriminate].
    intros H. injection H as <- <-. split; [apply TrimFacts.trim_is_trimmed | eauto].
  - destruct (Regex.exec Patterns.typePattern2 titleStr) as [m2 |].
    + destruct (Regex.group titleStr m2 1) as [t |]; cbn [required bind]; [| discriminate].
      destruct (Regex.group titleStr m2 2) as [k |]; cbn [required bind]; [| discriminate].
      intros H. injection H as <- <-. split; [apply TrimFacts.trim_is_trimmed | eauto].
    + intros H. injection H as <- <-. split; [apply TrimFacts.trim_is_trimmed | exact I].
Qed.

(** X3.  [extractTitleAndType] never throws; the title it returns has no
    white space at either end, and the type it returns, if any, is the
    normal form of a token: a canonical kind or one of the two inherited
    members. *)
Theorem extractTitleAndType_gives_trimmed_title :
  forall titleStr,
    exists title type,
      extractTitleAndType titleStr = Ok (title, type) /\
      is_trimmed title = true /\
      match type with
      | Some t => producible_type t
      | None => True
      end.
Proof.
  intros titleStr.
  destruct (EngineFacts.extractTitleAndType_ok titleStr) as (title & type & H).
  exists title, type. split; [exact H |].
  destruct (extractTitleAndType_fields _ H) as [Ht Hty]. split; [exact Ht |].
  destruct type as [t |]; [| exact I].
  destruct Hty as [k ->].
  destruct (normalizeChartType_cases k) as [(v & -> & Hin & _) | (n & -> & _ & Hn)];
    [exact Hin | exact Hn].
Qed.

(** X4.  A title is looked for only in the text before the data: for a
    fenced block at the very start of the response, and for an inline array
    or a table found at index 0, both look-ups return [null] (the engine
    then falls back to [Chart N] or [Data Table]). *)
Theorem title_lookups_need_preceding_text :
  forall fullText,
    extractTitleBeforeCodeBlock fullText 0 = Ok None /\
    (forall dataBlock,
       Str.indexOf dataBlock fullText = Some 0 ->
       extractTitleNearData fullText dataBlock = Ok None).
Proof.
  intros fullText. split.
  - unfold extractTitleBeforeCodeBlock.
    change (Str.substring (0 - 150) 0 fullText) with (@nil char).
    vm_compute. reflexivity.
  - intros dataBlock H. unfold extractTitleNearData. rewrite H.
    change (Str.substring (0 - 200) 0 fullText) with (@nil char).
    vm_compute. reflexivity.
Qed.

Lemma title_lookups_need_preceding_text_witness :
  extractTitleNearData sales_table sales_table = Ok None.
Proof.
  apply (proj2 (title_lookups_need_preceding_text sales_table)).
  vm_compute. reflexivity.
Defined.

(** * The Validator on the two common shapes *)
Module ValidatorShapes.
Import ValidatorFacts ValidatorRules ZeroSum.

Lemma engine_reading_value_reading item :
  engine_reading item =
  if Num.truthy (value_reading item) then value_reading item else Num.zero.
Proof.
  unfold engine_reading, value_reading.
  destruct (JS.get_own item (js "value")) as [[| | n | | |] |]; reflexivity.
Qed.

(** Without [NaN] among the fields, the sum of the fields and the sum the
    engine computes agree up to the sign of a zero. *)
Lemma sums_related items : forall a b,
  Forall (fun item => value_reading item <> S754_nan) items ->
  same_or_zeros a b ->
  same_or_zeros (fold_left Num.add (List.map value_reading items) a)
                (fold_left Num.add (List.map engine_reading items) b).
Proof.
  induction items as [| item items IH]; intros a b Hn Hab; cbn [List.map fold_left].
  - exact Hab.
  - inversion Hn as [| ? ? Hi Hn']; subst. apply IH; [exact Hn' |].
    rewrite engine_reading_value_reading. now apply step_same_or_zeros.
Qed.

Lemma same_or_zeros_eqb a b :
  same_or_zeros a b -> Num.eqb a Num.zero = Num.eqb b Num.zero.
Proof.
  intros [<- | (sa & sb & -> & ->)]; [reflexivity |]. destruct sa, sb; reflexivity.
Qed.

(** Once the structure is valid and the [value] fields are absent or
    numbers other than [NaN], the verdict is the zero test on the sum of
    the fields. *)
Lemma verdict_from_sum items :
  items <> [] ->
  every validItem items = Ok true ->
  Forall numeric_or_absent items ->
  Forall (fun item => value_reading item <> S754_nan) items ->
  isValidChartData (VArr items) = Ok (negb (Num.eqb (value_sum items) Num.zero)).
Proof.
  intros Hne Hev Hnum Hnan. unfold isValidChartData.
  destruct items as [| item0 items0]; [contradiction |].
  cbn [List.length Nat.eqb]. rewrite Hev. cbn [bind negb].
  apply every_true in Hev.
  assert (Hr : Forall is_record (item0 :: items0)).
  { eapply Forall_impl; [| exact Hev]. apply validItem_record. }
  rewrite (@mapM_readings (item0 :: items0) Hr Hnum). cbn [bind].
  rewrite reduce_numbers. cbn [bind JS.is_zero].
  unfold value_sum. rewrite fold_value_sum.
  rewrite (@same_or_zeros_eqb _ _
             (@sums_related (item0 :: items0) Num.zero Num.zero Hnan (or_introl eq_refl))).
  destruct (Num.eqb _ Num.zero); reflexivity.
Qed.

Lemma every_forallb {A} (f : A -> result bool) (g : A -> bool) xs :
  Forall (fun a => f a = Ok (g a)) xs -> every f xs = Ok (forallb g xs).
Proof.
  induction 1 as [| a xs Ha _ IH]; cbn [every forallb]; [reflexivity |].
  rewrite Ha. cbn [bind]. destruct (g a); [exact IH | reflexivity].
Qed.

Lemma name_value_shaped_object item :
  name_value_shaped item -> exists fs, item = VObj fs /\ fs <> [].
Proof.
  unfold name_value_shaped. intros H.
  destruct item as [| | | | l | fs]; try (vm_compute in H; discriminate).
  exists fs. split; [reflexivity |]. intros ->. discriminate.
Qed.

Lemma validItem_name_value item :
  name_value_shaped item -> validItem item = Ok (finite_value item).
Proof.
  intros H. destruct (name_value_shaped_object H) as (fs & -> & Hne).
  rewrite (@validItem_record_cases (VObj fs) (List.map fst fs) I eq_refl).
  destruct fs as [| f fs]; [contradiction |]. cbn [List.map List.length Nat.eqb].
  unfold name_value_shaped in H. rewrite H. reflexivity.
Qed.

Lemma finite_value_reading item :
  finite_value item = true ->
  numeric_or_absent item /\ value_reading item <> S754_nan.
Proof.
  unfold finite_value, numeric_or_absent, value_reading, number_where.
  destruct (JS.get_own item (js "value")) as [[| | n | | |] |]; try discriminate.
  intros H. split; [exact I |]. intros ->. discriminate.
Qed.

Lemma name_value_verdict items :
  items <> [] ->
  Forall name_value_shaped items ->
  isValidChartData (VArr items) =
  Ok (forallb finite_value items && negb (Num.eqb (value_sum items) Num.zero)).
Proof.
  intros Hne Hshape.
  assert (Hev : every validItem items = Ok (forallb finite_value items)).
  { apply every_forallb. eapply Forall_impl; [| exact Hshape].
    apply validItem_name_value. }
  destruct (forallb finite_value items) eqn:Ef.
  - rewrite forallb_forall in Ef. cbn [andb].
    apply verdict_from_sum; auto.
    + apply Forall_forall. intros item Hin. now apply finite_value_reading, Ef.
    + apply Forall_forall. intros item Hin. now apply finite_value_reading, Ef.
  - unfold isValidChartData. destruct items; [contradiction |].
    cbn [List.length Nat.eqb]. rewrite Hev. reflexivity.
Qed.

Lemma fold_zeros items : forall a,
  Forall (fun item => JS.get_own item (js "value") = None) items ->
  fold_left (fun acc item => Num.add acc (value_reading item)) items a =
  fold_left (fun acc _ => Num.add acc Num.zero) items a.
Proof.
  induction items as [| item items IH]; intros a H; cbn [fold_left]; [reflexivity |].
  inversion H as [| ? ? Hi H']; subst.
  replace (value_reading item) with Num.zero
    by (unfold value_reading; now rewrite Hi).
  now apply IH.
Qed.

Lemma fold_add_zero {A} (items : list A) :
  fold_left (fun acc _ => Num.add acc Num.zero) items Num.zero = Num.zero.
Proof. induction items as [| i items IH]; cbn [fold_left]; [reflexivity | exact IH]. Qed.

Lemma no_value_verdict items :
  Forall (fun item => JS.get_own item (js "value") = None) items ->
  isValidChartData (VArr items) = Ok false.
Proof.
  intros H.
  destruct items as [| item0 items0] eqn:Ei; [reflexivity |]. rewrite <- Ei in *.
  assert (Hne : items <> []) by (rewrite Ei; discriminate).
  destruct (every_total validItem items validItem_total) as [b Hb].
  destruct b.
  - rewrite verdict_from_sum; auto.
    + unfold value_sum. rewrite (fold_zeros _ H), fold_add_zero. reflexivity.
    + eapply Forall_impl; [| exact H]. intros item Hi.
      unfold numeric_or_absent. now rewrite Hi.
    + eapply Forall_impl; [| exact H]. intros item Hi.
      unfold value_reading. rewrite Hi. discriminate.
  - unfold isValidChartData. rewrite Ei. cbn [List.length Nat.eqb].
    rewrite <- Ei, Hb. reflexivity.
Qed.

End ValidatorShapes.

(** X5.  On a non-empty array whose elements all have a [name] and a
    [value] field, [isValidChartData] returns true exactly when every
    [value] is a finite number and their sum is not zero; it does not
    throw. *)
Theorem name_value_data_is_valid_iff :
  forall items,
    items <> [] ->
    Forall name_value_shaped items ->
    isValidChartData (VArr items) =
    Ok (forallb finite_value items && negb (Num.eqb (value_sum items) Num.zero)).
Proof. exact ValidatorShapes.name_value_verdict. Qed.

Lemma name_value_data_is_valid_iff_witness :
  isValidChartData (VArr [record "Q1" 10; record "Q2" 12]) = Ok true.
Proof.
  rewrite (@name_value_data_is_valid_iff [record "Q1" 10; record "Q2" 12]).
  - vm_compute. reflexivity.
  - discriminate.
  - constructor; [vm_compute; reflexivity |]. constructor; [vm_compute; reflexivity |].
    constructor.
Defined.

(** X6.  An array in which no element has a [value] field is rejected,
    whatever else the elements hold: the zero test reads [value] only, so
    data given as [{x, y}] points or under other field names is never
    charted. *)
Theorem data_without_value_field_is_rejected :
  forall items,
    Forall (fun item => JS.get_own item (js "value") = None) items ->
    isValidChartData (VArr items) = Ok false.
Proof. exact ValidatorShapes.no_value_verdict. Qed.

Lemma data_without_value_field_is_rejected_witness :
  isValidChartData
    (VArr [VObj [(js "x", VNum (Num.of_Z 1)); (js "y", VNum (Num.of_Z 2))]]) = Ok false.
Proof.
  apply data_without_value_field_is_rejected.
  constructor; [vm_compute; reflexivity | constructor].
Defined.

(** * The table and list extractors, in full *)
Section ExtractorsInFull.

Variable Date_now : Z.

Import Regex RegexSpec RegexFacts EngineFacts.

Lemma or_string_nonempty a b : b <> [] -> or_string a b <> [].
Proof.
  intros Hb. unfold or_string. destruct a as [s |]; [| exact Hb].
  destruct s; [exact Hb | discriminate].
Qed.

Lemma tableChart_full text m cs :
  has_groups text m ->
  exists r, tableChart Date_now text m cs = Ok r /\
    match r with
    | Some c => table_chart c /\
                position c = calculatePosition (List.length cs) /\
                id c = chart_id Date_now (List.length cs)
    | None => True
    end.
Proof.
  intros [[g1 H1] [g2 H2]]. unfold tableChart.
  rewrite H1, H2. cbn [required bind].
  destruct (_ && _); [| exists None; split; [reflexivity | exact I]].
  match goal with |- context [filter ?f (List.map ?g ?rows)] =>
    set (data := filter f (List.map g rows));
    assert (Hdata : Forall named_nonzero data)
  end.
  { apply Forall_forall. intros r Hr. apply filter_In in Hr.
    destruct Hr as [Hr Hf]. apply in_map_iff in Hr. destruct Hr as (row & <- & _).
    rewrite name_value_get_name, name_value_get_value in Hf.
    apply andb_true_iff in Hf. destruct Hf as [Hn Hv]. cbn in Hn, Hv.
    eexists; eexists. split; [reflexivity |].
    split; [now apply nonempty_neq | exact Hv]. }
  destruct (Nat.ltb 0 (List.length data)) eqn:El;
    [| exists None; split; [reflexivity | exact I]].
  destruct (extractTitleNearData_ok text (matched text m)) as [t ->].
  cbn [bind]. eexists. split; [reflexivity |]. cbn [position id].
  split; [| split; reflexivity].
  split; [reflexivity |]. split; [reflexivity |]. split; [reflexivity |].
  split; [apply or_string_nonempty; discriminate |].
  exists data. split; [reflexivity |]. split; [| exact Hdata].
  intros E. rewrite E in El. discriminate.
Qed.

Lemma tableLoop_full text ms : Forall (has_groups text) ms ->
  forall cs, Forall table_chart cs -> positioned cs ->
  exists out, tableLoop Date_now text ms cs = Ok out /\
              Forall table_chart out /\ positioned out.
Proof.
  induction 1 as [| m ms Hm _ IH]; intros cs Hcs Hpos; cbn [tableLoop].
  - eauto.
  - destruct (@tableChart_full text m cs Hm) as (r & -> & Hr). cbn [bind].
    destruct r as [c |].
    + destruct Hr as (Hc & Hp & _). apply IH.
      * apply Forall_app. split; [exact Hcs | constructor; [exact Hc | constructor]].
      * now apply positioned_app.
    + now apply IH.
Qed.

Lemma extractChartsFromTables_full text :
  exists out, extractChartsFromTables Date_now text = Ok out /\
              Forall table_chart out /\ positioned out.
Proof.
  unfold extractChartsFromTables. apply tableLoop_full.
  - now apply exec_all_has_groups.
  - constructor.
  - apply positioned_nil.
Qed.

Lemma listChart_full text m cs :
  has_groups text m ->
  exists r, listChart Date_now text m cs = Ok r /\
    match r with
    | Some c => list_chart c /\
                position c = calculatePosition (List.length cs)
    | None => True
    end.
Proof.
  intros [[g1 H1] [g2 H2]]. unfold listChart.
  rewrite H1, H2. cbn [required bind].
  destruct (@listItems_spec g2 _
              (@exec_all_has_groups Patterns.itemPattern g2 eq_refl eq_refl)
              [] (Forall_nil _)) as (data & -> & Hdata).
  cbn [bind].
  destruct (Nat.leb 3 (List.length data)) eqn:El;
    [| exists None; split; [reflexivity | exact I]].
  eexists. split; [reflexivity |]. cbn [position].
  split; [| reflexivity].
  split; [reflexivity |]. split; [reflexivity |]. split; [reflexivity |].
  split; [apply or_string_nonempty; discriminate |].
  exists data. split; [reflexivity |]. split; [| exact Hdata].
  now apply Nat.leb_le.
Qed.

Lemma listLoop_full text ms : Forall (has_groups text) ms ->
  forall cs, Forall list_chart cs -> positioned cs ->
  exists out, listLoop Date_now text ms cs = Ok out /\
              Forall list_chart out /\ positioned out.
Proof.
  induction 1 as [| m ms Hm _ IH]; intros cs Hcs Hpos; cbn [listLoop].
  - eauto.
  - destruct (@listChart_full text m cs Hm) as (r & -> & Hr). cbn [bind].
    destruct r as [c |].
    + destruct Hr as (Hc & Hp). apply IH.
      * apply Forall_app. split; [exact Hcs | constructor; [exact Hc | constructor]].
      * now apply positioned_app.
    + now apply IH.
Qed.

Lemma extractChartsFromLists_full text :
  exists out, extractChartsFromLists Date_now text = Ok out /\
              Forall list_chart out /\ positioned out.
Proof.
  unfold extractChartsFromLists. apply listLoop_full.
  - now apply exec_all_has_groups.
  - constructor.
  - apply positioned_nil.
Qed.

End ExtractorsInFull.



(** * [extractDataFromText] *)
Module TextFacts.
Import Regex RegexSpec RegexFacts.



End TextFacts.


(** * The shape of the output *)
Section OutputShape.

Variable localeCompare : jstring -> jstring -> comparison.
Variable Date_now : Z.

Import ValidatorFacts EngineFacts.

#[local] Abbreviation parse := (parseChartsFromResponse localeCompare Date_now).
#[local] Abbreviation jsonCharts :=
  (fun text => charts (parseJsonCandidates localeCompare Date_now text)).

Lemma appendExtracted_exact extract text cs out :
  extract text = Ok out ->
  appendExtracted extract text cs = Ok (cs ++ firstn (MAX_CHARTS - List.length cs) out).
Proof.
  intros Ho. unfold appendExtracted.
  destruct (Nat.ltb_spec (List.length cs) MAX_CHARTS) as [Hlt | Hge].
  - rewrite Ho. reflexivity.
  - replace (MAX_CHARTS - List.length cs) with 0 by lia.
    cbn [firstn]. now rewrite app_nil_r.
Qed.

Lemma parse_exact text :
  exists tables lists,
    extractChartsFromTables Date_now text = Ok tables /\
    extractChartsFromLists Date_now text = Ok lists /\
    parse text =
    Ok (jsonCharts text
        ++ firstn (MAX_CHARTS - List.length (jsonCharts text)) tables
        ++ firstn (MAX_CHARTS - List.length (jsonCharts text) - List.length tables)
                  lists).
Proof.
  destruct (extractChartsFromTables_full Date_now text) as (tables & Ht & _).
  destruct (extractChartsFromLists_full Date_now text) as (lists & Hl & _).
  exists tables, lists. split; [exact Ht |]. split; [exact Hl |].
  unfold parseChartsFromResponse.
  rewrite (@appendExtracted_exact (extractChartsFromTables Date_now) text _ tables Ht).
  cbn [bind].
  rewrite (@appendExtracted_exact (extractChartsFromLists Date_now) text _ lists Hl).
  cbn [bind]. rewrite <- app_assoc. do 3 f_equal.
  rewrite length_app, length_firstn. unfold MAX_CHARTS. f_equal. lia.
Qed.

(** ** Identifiers *)

Lemma identified_nil : identified Date_now [].
Proof. intros [| i] c H; discriminate. Qed.

Lemma identified_app cs c :
  identified Date_now cs -> id c = chart_id Date_now (List.length cs) ->
  identified Date_now (cs ++ [c]).
Proof.
  intros H Hc i c' Hi.
  destruct (Nat.lt_ge_cases i (List.length cs)) as [Hlt | Hge].
  - rewrite nth_error_app1 in Hi by assumption. auto.
  - rewrite nth_error_app2 in Hi by assumption.
    destruct (i - List.length cs) as [| j] eqn:Ej; simpl in Hi.
    + injection Hi as <-. replace i with (List.length cs) by lia. exact Hc.
    + destruct j; discriminate.
Qed.

Lemma step_identified st st' :
  identified Date_now (charts st) -> step localeCompare Date_now st st' ->
  identified Date_now (charts st').
Proof.
  intros H [[Hc _] | data Hlt (c & sig & Hc & _ & _ & _ & _ & _ & _ & Hi)]; rewrite Hc.
  - exact H.
  - now apply identified_app.
Qed.

Lemma jsonCharts_identified text : identified Date_now (jsonCharts text).
Proof.
  apply (@steps_invariant localeCompare Date_now
           (fun st => identified Date_now (charts st))
           step_identified _ _
           (parseJsonCandidates_steps localeCompare Date_now text)).
  apply identified_nil.
Qed.

Lemma jsonCharts_cells text i c :
  nth_error (jsonCharts text) i = Some c ->
  position c = calculatePosition i /\ id c = chart_id Date_now i.
Proof.
  intros H. split.
  - now apply (jsonCharts_positioned localeCompare Date_now text).
  - now apply (jsonCharts_identified text).
Qed.

(** ** Signatures *)

Lemma Forall2_nth {A B} (R : A -> B -> Prop) l l' :
  Forall2 R l l' ->
  forall i a, nth_error l i = Some a -> exists b, nth_error l' i = Some b /\ R a b.
Proof.
  induction 1 as [| x y l l' Hxy _ IH]; intros [| i] a Hi; simpl in *;
    try discriminate.
  - injection Hi as <-. eauto.
  - eauto.
Qed.

Lemma jsonCharts_signatures_differ text i j c d s :
  i <> j ->
  nth_error (jsonCharts text) i = Some c ->
  nth_error (jsonCharts text) j = Some d ->
  createDataSignature localeCompare (data c) = Ok s ->
  createDataSignature localeCompare (data d) <> Ok s.
Proof.
  intros Hij Hc Hd Hs Hs'.
  destruct (jsonCharts_distinct_signatures localeCompare Date_now text)
    as (sigs & Hall & Hnd & _).
  destruct (Forall2_nth Hall _ Hc) as (sc & Hsc & Ec).
  destruct (Forall2_nth Hall _ Hd) as (sd & Hsd & Ed).
  assert (sc = s) by congruence. assert (sd = s) by congruence. subst sc sd.
  apply Hij. rewrite NoDup_nth_error in Hnd. apply Hnd; [| congruence].
  apply nth_error_Some. congruence.
Qed.

Lemma jsonCharts_have_signatures text i c :
  nth_error (jsonCharts text) i = Some c ->
  exists s, createDataSignature localeCompare (data c) = Ok s.
Proof.
  intros Hc.
  destruct (jsonCharts_distinct_signatures localeCompare Date_now text)
    as (sigs & Hall & _).
  destruct (Forall2_nth Hall _ Hc) as (s & _ & E). eauto.
Qed.

End OutputShape.

(** X10.  The output of [parseChartsFromResponse] is the charts of the
    fenced-block and inline-array loops, then the first table charts that
    fit below the limit of eight, then the first list charts that still
    fit. *)
Theorem output_is_json_then_tables_then_lists :
  forall localeCompare Date_now text,
    exists tables lists,
      extractChartsFromTables Date_now text = Ok tables /\
      extractChartsFromLists Date_now text = Ok lists /\
      let json := charts (parseJsonCandidates localeCompare Date_now text) in
      parseChartsFromResponse localeCompare Date_now text =
      Ok (json
          ++ firstn (MAX_CHARTS - List.length json) tables
          ++ firstn (MAX_CHARTS - List.length json - List.length tables) lists).
Proof. exact parse_exact. Qed.

(** X11.  A chart pushed by the fenced-block or inline-array loop sits at
    the grid cell of its index among these charts and carries the
    identifier [chart_<Date.now()>_<index>]. *)
Theorem json_chart_cell_and_id_follow_index :
  forall localeCompare Date_now text i c,
    nth_error (charts (parseJsonCandidates localeCompare Date_now text)) i = Some c ->
    position c = calculatePosition i /\ id c = chart_id Date_now i.
Proof. exact jsonCharts_cells. Qed.

Lemma json_chart_cell_and_id_follow_index_witness :
  exists c,
    nth_error (charts (parseJsonCandidates code_unit_compare 1700000000000
                         (block 1 ++ block 2))) 1 = Some c /\
    position c = calculatePosition 1 /\ id c = chart_id 1700000000000 1.
Proof.
  eexists. split; [vm_compute; reflexivity |].
  apply (json_chart_cell_and_id_follow_index code_unit_compare 1700000000000
           (block 1 ++ block 2) 1).
  vm_compute; reflexivity.
Defined.

(** X12.  Two different charts pushed by the fenced-block and inline-array
    loops never have the same data signature, and each has one. *)
Theorem json_charts_have_distinct_signatures :
  forall localeCompare Date_now text i j c d,
    i <> j ->
    nth_error (charts (parseJsonCandidates localeCompare Date_now text)) i = Some c ->
    nth_error (charts (parseJsonCandidates localeCompare Date_now text)) j = Some d ->
    exists s, createDataSignature localeCompare (data c) = Ok s /\
              createDataSignature localeCompare (data d) <> Ok s.
Proof.
  intros lc now text i j c d Hij Hc Hd.
  destruct (jsonCharts_have_signatures lc now text i Hc) as [s Hs].
  exists s. split; [exact Hs |].
  exact (jsonCharts_signatures_differ lc now text Hij Hc Hd Hs).
Qed.

Lemma json_charts_have_distinct_signatures_witness :
  exists c d,
    nth_error (charts (parseJsonCandidates code_unit_compare 0
                         (block 1 ++ block 2))) 0 = Some c /\
    nth_error (charts (parseJsonCandidates code_unit_compare 0
                         (block 1 ++ block 2))) 1 = Some d /\
    exists s, createDataSignature code_unit_compare (data c) = Ok s /\
              createDataSignature code_unit_compare (data d) <> Ok s.
Proof.
  eexists; eexists.
  split; [vm_compute; reflexivity |].
  split; [vm_compute; reflexivity |].
  apply (json_charts_have_distinct_signatures code_unit_compare 0
           (block 1 ++ block 2) (i := 0) (j := 1)).
  - discriminate.
  - vm_compute; reflexivity.
  - vm_compute; reflexivity.
Defined.

(** * The charts of the output *)
Section OutputCharts.

Variable localeCompare : jstring -> jstring -> comparison.
Variable Date_now : Z.

Import ValidatorFacts EngineFacts.

#[local] Abbreviation accept := (acceptCandidate localeCompare Date_now).

Lemma detectChartType_range data kind :
  detectChartType data = Ok kind -> In kind detected_kinds.
Proof.
  unfold detectChartType, detected_kinds.
  destruct (negb (JS.truthy data)); [intros H; injection H as <-; simpl; tauto |].
  destruct (JS.length_is_zero data); [intros H; injection H as <-; simpl; tauto |].
  destruct (JS.get data (js "0")) as [firstItem | e]; cbn [bind]; [| discriminate].
  destruct (required firstItem) as [item | e]; cbn [bind]; [| discriminate].
  destruct (JS.keys item) as [keys | e]; cbn [bind]; [| discriminate].
  repeat match goal with |- context [if ?b then _ else _] => destruct b end;
    intros H; injection H as <-; simpl; tauto.
Qed.

Lemma detected_kinds_canonical k : In k detected_kinds -> In k canonical_kinds.
Proof.
  unfold detected_kinds, canonical_kinds. simpl.
  intros [<- | [<- | [<- | [<- | []]]]]; tauto.
Qed.

Lemma normalizeChartType_producible k : producible_type (normalizeChartType k).
Proof.
  destruct (normalizeChartType_cases k) as [(v & -> & Hv & _) | (n & -> & _ & Hn)].
  - exact Hv.
  - exact Hn.
Qed.

(** One candidate: the charts are unchanged, or one chart of the expected
    shape is pushed. *)
Lemma acceptCandidate_chart data findTitle st :
  let st' := fst (accept data findTitle st) in
  charts st' = charts st \/
  exists c, charts st' = charts st ++ [c] /\ json_chart c.
Proof.
  unfold acceptCandidate.
  unfold bind_run, lift, gets, ret, add_signature, push_chart; cbn [fst snd].
  destruct (isValidChartData data) as [[|] | e] eqn:Ev; cbn; auto.
  destruct (createDataSignature localeCompare data) as [sig | e]; cbn; auto.
  destruct (set_has sig (seenDataSignatures st)) eqn:Eh; cbn; auto.
  destruct findTitle as [found | e]; cbn; rewrite ?Eh; auto.
  destruct (extractTitleAndType _) as [[title ty] | e] eqn:Et; cbn; rewrite ?Eh; auto.
  apply extractTitleAndType_fields in Et. destruct Et as [Htitle Hty].
  destruct ty as [t |]; cbn; rewrite ?Eh.
  - right. eexists. split; [reflexivity |]. unfold json_chart. cbn.
    destruct Hty as [k ->].
    split; [exact Ev |]. split; [exact Htitle |].
    split; [apply normalizeChartType_producible |]. split; reflexivity.
  - destruct (detectChartType data) as [d | e] eqn:Ed; cbn; rewrite ?Eh; auto.
    right. eexists. split; [reflexivity |]. unfold json_chart. cbn.
    split; [exact Ev |]. split; [exact Htitle |].
    split; [apply detected_kinds_canonical; now apply detectChartType_range with data |].
    split; reflexivity.
Qed.

Lemma Forall_snoc_or {A} (P : A -> Prop) l l' :
  Forall P l -> (l' = l \/ exists c, l' = l ++ [c] /\ P c) -> Forall P l'.
Proof.
  intros H [-> | (c & -> & Hc)]; [exact H |].
  apply Forall_app. split; [exact H | constructor; [exact Hc | constructor]].
Qed.

Lemma codeBlockBody_chart text m st :
  Forall json_chart (charts st) ->
  Forall json_chart
    (charts (try_catch (codeBlockBody localeCompare Date_now text m) st)).
Proof.
  intros H. unfold try_catch, codeBlockBody.
  unfold bind_run, lift, gets, ret, add_signature, push_chart; cbn [fst snd].
  destruct (required (Regex.group text m 1)) as [g | e]; cbn; [| exact H].
  destruct (JSON.parse (Str.trim g)) as [data | e]; cbn; [| exact H].
  apply (Forall_snoc_or H).
  apply (acceptCandidate_chart data
           (extractTitleBeforeCodeBlock text (Regex.index m)) st).
Qed.

Lemma jsonMatchBody_chart text match_ st :
  Forall json_chart (charts st) ->
  Forall json_chart
    (charts (try_catch (jsonMatchBody localeCompare Date_now text match_) st)).
Proof.
  intros H. unfold try_catch, jsonMatchBody.
  unfold bind_run, lift, gets, ret, add_signature, push_chart; cbn [fst snd].
  destruct (JSON.parse match_) as [data | e]; cbn; [| exact H].
  apply (Forall_snoc_or H).
  apply (acceptCandidate_chart data (extractTitleNearData text match_) st).
Qed.

Lemma codeBlockLoop_charts text ms st :
  Forall json_chart (charts st) ->
  Forall json_chart (charts (codeBlockLoop localeCompare Date_now text ms st)).
Proof.
  revert st. induction ms as [| m ms IH]; intros st H; cbn [codeBlockLoop];
    [exact H |].
  destruct (Nat.leb MAX_CHARTS (List.length (charts st))); [exact H |].
  apply IH. now apply codeBlockBody_chart.
Qed.

Lemma jsonMatchLoop_charts text ms st :
  Forall json_chart (charts st) ->
  Forall json_chart (charts (jsonMatchLoop localeCompare Date_now text ms st)).
Proof.
  revert st. induction ms as [| m ms IH]; intros st H; cbn [jsonMatchLoop];
    [exact H |].
  destruct (Nat.leb MAX_CHARTS (List.length (charts st))); [exact H |].
  apply IH. now apply jsonMatchBody_chart.
Qed.

Lemma jsonCharts_shape text :
  Forall json_chart (charts (parseJsonCandidates localeCompare Date_now text)).
Proof.
  unfold parseJsonCandidates.
  destruct (_ && _).
  - apply jsonMatchLoop_charts, codeBlockLoop_charts. constructor.
  - apply codeBlockLoop_charts. constructor.
Qed.

Lemma valid_data_detects data :
  isValidChartData data = Ok true ->
  exists kind, detectChartType data = Ok kind /\ In kind detected_kinds.
Proof.
  intros H. destruct (detectChartType_ok _ H) as [kind Hk].
  exists kind. split; [exact Hk | now apply detectChartType_range with data].
Qed.

End OutputCharts.

(** X13.  Every chart pushed by the fenced-block or inline-array loop holds
    data that passes [isValidChartData], a title without white space at
    either end, a type that is a canonical kind or one of the two inherited
    members, the legend and the grid shown, and the default colours. *)
Theorem json_charts_have_the_expected_shape :
  forall localeCompare Date_now text,
    Forall json_chart (charts (parseJsonCandidates localeCompare Date_now text)).
Proof. exact jsonCharts_shape. Qed.

(** X15.  On data that passes [isValidChartData], [detectChartType] does not
    throw and returns one of [bar], [scatter], [line] and [table]. *)
Theorem detectChartType_on_valid_data :
  forall data,
    isValidChartData data = Ok true ->
    exists kind, detectChartType data = Ok kind /\ In kind detected_kinds.
Proof. exact valid_data_detects. Qed.

Lemma detectChartType_on_valid_data_witness :
  exists kind, detectChartType (dataset 3) = Ok kind /\ In kind detected_kinds.
Proof.
  apply (detectChartType_on_valid_data (dataset 3)). vm_compute; reflexivity.
Defined.

(** * Texts in which a pattern cannot match *)
Section Requires.

Import Regex.

Variable q : char -> bool.

#[local] Abbreviation clean := (clean q).
#[local] Abbreviation passes_clean := (passes_clean q).

Lemma repeat_matcher_passes m greedy : passes_clean m ->
  forall fuel lo hi, passes_clean (repeat_matcher m greedy fuel lo hi).
Proof.
  intros Hm fuel. induction fuel as [| fuel IH]; intros lo hi st k Hst Hk;
    cbn [repeat_matcher]; [reflexivity |].
  assert (Hiter : m st (fun st' =>
             if Nat.eqb lo 0 && Nat.eqb (m_pos st') (m_pos st) then None
             else repeat_matcher m greedy fuel (pred lo) (dec_hi hi) st' k) = None).
  { apply Hm; [exact Hst |]. intros st' Hst'.
    destruct (Nat.eqb lo 0 && Nat.eqb (m_pos st') (m_pos st)); [reflexivity |].
    now apply IH. }
  destruct hi as [[| hi'] |].
  - now apply Hk.
  - destruct (Nat.ltb 0 lo); [exact Hiter |].
    destruct greedy; rewrite Hiter, (Hk st Hst); reflexivity.
  - destruct (Nat.ltb 0 lo); [exact Hiter |].
    destruct greedy; rewrite Hiter, (Hk st Hst); reflexivity.
Qed.

Lemma clean_advance st c rest :
  m_rest st = c :: rest -> clean st -> clean (advance st rest).
Proof.
  unfold clean. intros E H d Hd. apply H. rewrite E. now right.
Qed.

Lemma rmatch_passes r : passes_clean (rmatch r).
Proof.
  induction r as [| p | | | r1 IH1 r2 IH2 | r1 IH1 r2 IH2 | g lo hi r1 IH1 | n r1 IH1];
    intros st k Hst Hk; cbn [rmatch].
  - now apply Hk.
  - destruct (m_rest st) as [| c rest] eqn:E; [reflexivity |].
    destruct (p c); [| reflexivity].
    apply Hk. now apply clean_advance with c.
  - destruct (Nat.eqb (m_pos st) 0); [now apply Hk | reflexivity].
  - destruct (m_rest st); [now apply Hk | reflexivity].
  - apply IH1; [exact Hst |]. intros st' Hst'. now apply IH2.
  - rewrite (IH1 st k Hst Hk), (IH2 st k Hst Hk). reflexivity.
  - now apply repeat_matcher_passes.
  - apply IH1; [exact Hst |]. intros st' Hst'. now apply Hk.
Qed.

Lemma rmatch_blocked r : requires q r ->
  forall st k, clean st -> rmatch r st k = None.
Proof.
  induction r as [| p | | | r1 IH1 r2 IH2 | r1 IH1 r2 IH2 | g lo hi r1 IH1 | n r1 IH1];
    intros Hr st k Hst; cbn [rmatch]; cbn [requires] in Hr.
  - contradiction.
  - destruct (m_rest st) as [| c rest] eqn:E; [reflexivity |].
    destruct (p c) eqn:Ep; [| reflexivity].
    apply Hr in Ep. rewrite (Hst c) in Ep; [discriminate |].
    rewrite E. now left.
  - contradiction.
  - contradiction.
  - destruct Hr as [Hr | Hr].
    + now apply IH1.
    + apply rmatch_passes; [exact Hst |]. intros st' Hst'. now apply IH2.
  - destruct Hr as [H1 H2]. rewrite (IH1 H1 st k Hst), (IH2 H2 st k Hst). reflexivity.
  - destruct Hr as (Hlo & Hhi & Hr).
    cbn [repeat_matcher].
    destruct hi as [[| hi'] |]; [contradiction | |];
      (destruct lo as [| lo']; [inversion Hlo |]); cbn [Nat.ltb Nat.leb];
      now apply IH1.
  - now apply IH1.
Qed.

Lemma match_at_blocked r i rest :
  requires q r -> lacks q rest -> match_at r i rest = None.
Proof.
  intros Hr Hl. unfold match_at. now rewrite rmatch_blocked.
Qed.

Lemma search_from_blocked r : requires q r ->
  forall rest i, lacks q rest -> search_from r i rest = None.
Proof.
  intros Hr rest. induction rest as [| c rest IH]; intros i Hl; cbn [search_from];
    rewrite match_at_blocked by assumption; [reflexivity |].
  apply IH. intros d Hd. apply Hl. now right.
Qed.

Lemma exec_all_blocked r s : requires q r -> lacks q s -> exec_all r s = [].
Proof.
  intros Hr Hl. unfold exec_all. cbn [exec_all_fuel skipn].
  now rewrite search_from_blocked.
Qed.

Lemma lacks_weaken (p : char -> bool) s :
  (forall d, p d = true -> q d = true) -> lacks q s -> lacks p s.
Proof.
  intros H Hl d Hd. specialize (Hl d Hd).
  destruct (p d) eqn:E; [| reflexivity]. apply H in E. congruence.
Qed.

End Requires.

Module PatternNeeds.
Import Regex Patterns.

Ltac only_marker :=
  let d := fresh "d" in
  let H := fresh "H" in
  intros d H; destruct d; [discriminate H |];
  apply Pos.eqb_eq in H; subst; vm_compute; reflexivity.

Lemma codeBlockPattern_requires : requires data_marker codeBlockPattern.
Proof. cbn. left. left. only_marker. Qed.

Lemma jsonArrayPattern_requires : requires data_marker jsonArrayPattern.
Proof. cbn. left. only_marker. Qed.

Lemma tablePattern_requires : requires data_marker tablePattern.
Proof. cbn. left. only_marker. Qed.

Lemma sectionPattern_requires : requires data_marker sectionPattern.
Proof.
  cbn. do 4 right. split; [lia |]. split; [discriminate |].
  do 3 right. left. only_marker.
Qed.

Lemma bulletPattern_requires :
  requires TextPatterns.colon_or_paren TextPatterns.bulletPattern.
Proof. cbn. do 3 right. left. auto. Qed.

Lemma namePattern_requires :
  requires TextPatterns.colon_or_paren TextPatterns.namePattern.
Proof. cbn. do 2 right. left. auto. Qed.

Lemma plain_text_has_no_charts localeCompare Date_now text :
  lacks data_marker text ->
  parseChartsFromResponse localeCompare Date_now text = Ok [].
Proof.
  intros Hl.
  unfold parseChartsFromResponse, parseJsonCandidates, appendExtracted,
    extractChartsFromTables, extractChartsFromLists.
  rewrite (@exec_all_blocked data_marker codeBlockPattern text codeBlockPattern_requires Hl),
          (@exec_all_blocked data_marker jsonArrayPattern text jsonArrayPattern_requires Hl),
          (@exec_all_blocked data_marker tablePattern text tablePattern_requires Hl),
          (@exec_all_blocked data_marker sectionPattern text sectionPattern_requires Hl).
  reflexivity.
Qed.

Lemma plain_text_has_no_data text maxItems :
  lacks TextPatterns.colon_or_paren text ->
  extractDataFromText text maxItems = Ok [].
Proof.
  intros Hl. unfold extractDataFromText.
  rewrite (@exec_all_blocked _ _ text bulletPattern_requires Hl),
          (@exec_all_blocked _ _ text namePattern_requires Hl).
  cbn. now rewrite firstn_nil.
Qed.

End PatternNeeds.

(** X16.  A response that contains no backquote, no opening bracket, no
    vertical bar and no colon yields no chart. *)
Theorem text_without_data_markers_yields_no_chart :
  forall localeCompare Date_now text,
    lacks data_marker text ->
    parseChartsFromResponse localeCompare Date_now text = Ok [].
Proof. exact PatternNeeds.plain_text_has_no_charts. Qed.

Lemma text_without_data_markers_yields_no_chart_witness :
  parseChartsFromResponse code_unit_compare 0 (js "No data today.") = Ok [].
Proof.
  apply (@text_without_data_markers_yields_no_chart code_unit_compare 0
           (js "No data today.")).
  intros d Hd. vm_compute in Hd.
  repeat (destruct Hd as [<- | Hd]; [reflexivity |]). contradiction.
Defined.

(** X17.  [extractDataFromText] finds nothing in a text that contains
    neither a colon nor an opening parenthesis. *)
Theorem extractDataFromText_needs_colon_or_parenthesis :
  forall text maxItems,
    lacks TextPatterns.colon_or_paren text ->
    extractDataFromText text maxItems = Ok [].
Proof. exact PatternNeeds.plain_text_has_no_data. Qed.

Lemma extractDataFromText_needs_colon_or_parenthesis_witness :
  extractDataFromText (js "- Sales 12") 10 = Ok [].
Proof.
  apply (@extractDataFromText_needs_colon_or_parenthesis (js "- Sales 12") 10).
  intros d Hd. vm_compute in Hd.
  repeat (destruct Hd as [<- | Hd]; [reflexivity |]). contradiction.
Defined.

(** * The grid layout of DashboardPanel.jsx *)
Module GridFacts.
Import Grid.

Lemma or_nat_same a : or_nat a a = a.
Proof. destruct a; reflexivity. Qed.

Lemma layout_from_nth charts : forall k idx c,
  nth_error charts idx = Some c ->
  nth_error (layout_from k charts) idx =
  Some {| i := id c;
          x := or_nat (Chart.x (position c)) (((k + idx) mod 2) * 6);
          y := or_nat (Chart.y (position c)) (((k + idx) / 2) * 4);
          w := or_nat (Chart.w (position c)) 6;
          h := or_nat (Chart.h (position c)) 4;
          minW := 3; minH := 3 |}.
Proof.
  induction charts as [| chart rest IH]; intros k [| idx] c H; simpl in H;
    try discriminate.
  - injection H as <-. cbn [layout_from nth_error]. now rewrite Nat.add_0_r.
  - cbn [layout_from nth_error]. rewrite (@IH (S k) idx c H).
    now replace (S k + idx) with (k + S idx) by lia.
Qed.

Lemma gridLayout_positioned charts :
  positioned charts ->
  forall idx c, nth_error charts idx = Some c ->
    nth_error (gridLayout charts) idx = Some (stored_item c).
Proof.
  intros Hp idx c H. unfold gridLayout. rewrite (@layout_from_nth charts 0 idx c H).
  unfold stored_item. rewrite (Hp idx c H).
  cbn [calculatePosition Chart.x Chart.y Chart.w Chart.h Nat.add].
  now rewrite !or_nat_same.
Qed.

End GridFacts.

(** X18.  For charts that sit at the grid cells of their indices, as
    [calculatePosition] places them, the layout built in DashboardPanel.jsx
    keeps every chart's identifier and position: the fall-backs taken where
    a coordinate is [0] give that same coordinate. *)
Theorem gridLayout_keeps_calculated_positions :
  forall charts idx c,
    positioned charts ->
    nth_error charts idx = Some c ->
    nth_error (Grid.gridLayout charts) idx = Some (stored_item c).
Proof.
  intros charts idx c Hp H. now apply GridFacts.gridLayout_positioned.
Qed.

Lemma gridLayout_keeps_calculated_positions_witness :
  exists c,
    nth_error (charts (parseJsonCandidates code_unit_compare 0 (block 1 ++ block 2))) 1
    = Some c /\
    nth_error (Grid.gridLayout
                 (charts (parseJsonCandidates code_unit_compare 0 (block 1 ++ block 2))))
              1 = Some (stored_item c).
Proof.
  eexists. split; [vm_compute; reflexivity |].
  apply (@gridLayout_keeps_calculated_positions
           (charts (parseJsonCandidates code_unit_compare 0 (block 1 ++ block 2))) 1).
  - intros i c' H.
    destruct i as [| [| i]]; vm_compute in H;
      [injection H as <-; reflexivity | injection H as <-; reflexivity |].
    destruct i; discriminate H.
  - vm_compute; reflexivity.
Defined.

(** * Candidates without a title *)
Section DefaultTitle.

Variable localeCompare : jstring -> jstring -> comparison.
Variable Date_now : Z.

(** Below the limit, the fall-back title has no annotation. *)
Lemma default_title_plain n :
  n < MAX_CHARTS ->
  extractTitleAndType (js "Chart " ++ Str.of_nat (n + 1)) =
  Ok (js "Chart " ++ Str.of_nat (n + 1), None).
Proof.
  unfold MAX_CHARTS. intros H.
  do 8 (destruct n as [| n]; [vm_compute; reflexivity |]). lia.
Qed.

Lemma or_string_absent found b :
  found = None \/ found = Some [] -> or_string found b = b.
Proof. intros [-> | ->]; reflexivity. Qed.

Lemma untitled_candidate data found st sig :
  isValidChartData data = Ok true ->
  createDataSignature localeCompare data = Ok sig ->
  set_has sig (seenDataSignatures st) = false ->
  List.length (charts st) < MAX_CHARTS ->
  found = None \/ found = Some [] ->
  exists kind,
    detectChartType data = Ok kind /\
    fst (acceptCandidate localeCompare Date_now data (Ok found) st) =
    {| charts := charts st ++
         [{| id := chart_id Date_now (List.length (charts st));
             type := Kind kind;
             title := js "Chart " ++ Str.of_nat (List.length (charts st) + 1);
             data := data;
             position := calculatePosition (List.length (charts st));
             options := {| showLegend := true; showGrid := true |};
             style := {| colors := getDefaultColors |} |}];
       seenDataSignatures := seenDataSignatures st ++ [sig] |}.
Proof.
  intros Hv Hs Hh Hlt Hf.
  assert (Ht : extractTitleAndType
                 (or_string found
                    (js "Chart " ++ Str.of_nat (List.length (charts st) + 1)))
               = Ok (js "Chart " ++ Str.of_nat (List.length (charts st) + 1), None)).
  { rewrite (or_string_absent _ Hf). now apply default_title_plain. }
  destruct (@acceptCandidate_push localeCompare Date_now data found st sig _ _
              Hv Hs Hh Ht) as (chartType & (kind & Hk & ->) & E).
  exists kind. split; [exact Hk | exact E].
Qed.

End DefaultTitle.

(** X19.  When a valid dataset with a new signature is reached below the
    limit and no title is found for it, the chart pushed is titled
    [Chart <n>], with [n] one more than the number of charts so far, and
    its type is the one [detectChartType] gives for the data. *)
Theorem untitled_candidate_gets_default_title :
  forall localeCompare Date_now data found st sig,
    isValidChartData data = Ok true ->
    createDataSignature localeCompare data = Ok sig ->
    set_has sig (seenDataSignatures st) = false ->
    List.length (charts st) < MAX_CHARTS ->
    found = None \/ found = Some [] ->
    exists kind,
      detectChartType data = Ok kind /\
      fst (acceptCandidate localeCompare Date_now data (Ok found) st) =
      {| charts := charts st ++
           [{| id := chart_id Date_now (List.length (charts st));
               type := Kind kind;
               title := js "Chart " ++ Str.of_nat (List.length (charts st) + 1);
               data := data;
               position := calculatePosition (List.length (charts st));
               options := {| showLegend := true; showGrid := true |};
               style := {| colors := getDefaultColors |} |}];
         seenDataSignatures := seenDataSignatures st ++ [sig] |}.
Proof. exact untitled_candidate. Qed.

Lemma untitled_candidate_gets_default_title_witness :
  exists kind,
    detectChartType (dataset 3) = Ok kind /\
    fst (acceptCandidate code_unit_compare 0 (dataset 3) (Ok None) initial) =
    {| charts :=
         [{| id := chart_id 0 0;
             type := Kind kind;
             title := js "Chart " ++ Str.of_nat 1;
             data := dataset 3;
             position := calculatePosition 0;
             options := {| showLegend := true; showGrid := true |};
             style := {| colors := getDefaultColors |} |}];
       seenDataSignatures := [jsq "[{'name':'A','value':3}]"] |}.
Proof.
  apply (@untitled_candidate_gets_default_title code_unit_compare 0 (dataset 3) None
           initial (jsq "[{'name':'A','value':3}]")).
  - vm_compute; reflexivity.
  - vm_compute; reflexivity.
  - reflexivity.
  - vm_compute; lia.
  - left; reflexivity.
Defined.

(** * The matcher on a stack finds what the matcher of the language finds *)
Module BacktrackFacts.
Import Regex.

Lemma choice_fst d first second x y :
  fst (first (S d)) = x -> fst (second d) = y ->
  fst (Backtrack.choice d first second) = or_else x y.
Proof.
  unfold Backtrack.choice.
  destruct (first (S d)) as [[st |] n]; simpl; intros <-; [reflexivity |].
  destruct (second d) as [r n']; simpl; intros <-; reflexivity.
Qed.

Lemma repeat_matcher_fst (mn : Backtrack.matcher) (m : matcher) greedy :
  (forall kn k, same_results kn k -> forall st d, fst (mn st d kn) = m st k) ->
  forall fuel lo hi kn k, same_results kn k ->
  forall st d,
    fst (Backtrack.repeat_matcher mn greedy fuel lo hi st d kn) =
    repeat_matcher m greedy fuel lo hi st k.
Proof.
  intros Hm fuel. induction fuel as [| fuel IH]; intros lo hi kn k Hk st d;
    cbn [Backtrack.repeat_matcher repeat_matcher]; [reflexivity |].
  assert (Hiter : forall d',
            fst (mn st d' (fun st' d'' =>
                   if Nat.eqb lo 0 && Nat.eqb (m_pos st') (m_pos st) then (None, d'')
                   else Backtrack.repeat_matcher mn greedy fuel (pred lo) (dec_hi hi)
                          st' d'' kn)) =
            m st (fun st' =>
                   if Nat.eqb lo 0 && Nat.eqb (m_pos st') (m_pos st) then None
                   else repeat_matcher m greedy fuel (pred lo) (dec_hi hi) st' k)).
  { intros d'. apply Hm. intros st' d''.
    destruct (Nat.eqb lo 0 && Nat.eqb (m_pos st') (m_pos st)); [reflexivity |].
    now apply IH. }
  destruct hi as [[| hi'] |].
  - apply Hk.
  - destruct (Nat.ltb 0 lo); [apply Hiter |].
    destruct greedy; apply choice_fst; auto.
  - destruct (Nat.ltb 0 lo); [apply Hiter |].
    destruct greedy; apply choice_fst; auto.
Qed.

Lemma rmatch_fst r : forall kn k, same_results kn k ->
  forall st d, fst (Backtrack.rmatch r st d kn) = rmatch r st k.
Proof.
  induction r as [| p | | | r1 IH1 r2 IH2 | r1 IH1 r2 IH2 | g lo hi r1 IH1 | n r1 IH1];
    intros kn k Hk st d; cbn [Backtrack.rmatch rmatch].
  - apply Hk.
  - destruct (m_rest st) as [| c rest]; [reflexivity |].
    destruct (p c); [apply Hk | reflexivity].
  - destruct (Nat.eqb (m_pos st) 0); [apply Hk | reflexivity].
  - destruct (m_rest st); [apply Hk | reflexivity].
  - apply IH1. intros st' d'. now apply IH2.
  - apply choice_fst; [now apply IH1 | now apply IH2].
  - now apply repeat_matcher_fst.
  - apply IH1. intros st' d'. apply Hk.
Qed.

Lemma match_at_fst r i rest :
  fst (Backtrack.match_at r i rest) = match_at r i rest.
Proof.
  unfold Backtrack.match_at, match_at.
  rewrite <- (@rmatch_fst r (fun st d => (Some st, d)) Some
                (fun st d => eq_refl) {| m_pos := i; m_rest := rest; m_caps := [] |} 0).
  destruct (Backtrack.rmatch r _ 0 _) as [[st |] n]; reflexivity.
Qed.

Lemma search_from_fst r rest : forall i,
  fst (Backtrack.search_from r i rest) = search_from r i rest.
Proof.
  induction rest as [| c rest IH]; intros i; cbn [Backtrack.search_from search_from];
    rewrite <- (match_at_fst r i);
    destruct (Backtrack.match_at r i _) as [[m |] n]; try reflexivity.
  cbn [fst]. rewrite <- (IH (S i)).
  destruct (Backtrack.search_from r (S i) rest) as [m' n']; reflexivity.
Qed.

End BacktrackFacts.

(** * From the language to the host *)
Section Tracking.

Lemma eventually_const {A} (a : A) : eventually (fun _ => a) a.
Proof. exists 0. reflexivity. Qed.

(** The host's value may be replaced by the value it settles on. *)
Lemma eventually_subst {A B} (g : nat -> A) (F : nat -> A -> B) a b :
  eventually g a -> eventually (fun capacity => F capacity a) b ->
  eventually (fun capacity => F capacity (g capacity)) b.
Proof.
  intros [L1 H1] [L2 H2]. exists (Nat.max L1 L2). intros capacity Hc.
  rewrite H1 by lia. apply H2. lia.
Qed.

Lemma eventually_bind {A B} (h : nat -> result A) (k : nat -> A -> result B) x r :
  eventually h (Ok x) -> eventually (fun capacity => k capacity x) r ->
  eventually (fun capacity => bind (h capacity) (k capacity)) r.
Proof.
  intros Hh Hk.
  apply (@eventually_subst _ _ h (fun capacity v => bind v (k capacity)) (Ok x) r Hh).
  exact Hk.
Qed.

Lemma exhausted_or_refl {A} (r : result A) : exhausted_or r r.
Proof. now right. Qed.

Lemma exhausted_or_bind {A B} (h i : result A) (k k' : A -> result B) :
  exhausted_or h i -> (forall x, i = Ok x -> exhausted_or (k x) (k' x)) ->
  exhausted_or (bind h k) (bind i k').
Proof.
  intros [-> | ->] Hk; [now left |].
  destruct i as [x | e]; [now apply Hk | now right].
Qed.

Lemma tracks_const {A} (r : result A) : tracks (fun _ => r) r.
Proof. split; [intros c; apply exhausted_or_refl | apply eventually_const]. Qed.

Lemma tracks_bind {A B} (h : nat -> result A) (i : result A)
      (k : nat -> A -> result B) (k' : A -> result B) :
  tracks h i ->
  (forall x, i = Ok x -> tracks (fun capacity => k capacity x) (k' x)) ->
  tracks (fun capacity => bind (h capacity) (k capacity)) (bind i k').
Proof.
  intros [Hh1 Hh2] Hk. split.
  - intros c. apply exhausted_or_bind; [apply Hh1 |].
    intros x Hx. apply (Hk x Hx).
  - destruct i as [x | e].
    + apply eventually_bind with x; [exact Hh2 | apply (Hk x eq_refl)].
    + apply (@eventually_subst _ _ h (fun capacity v => bind v (k capacity))
               (Throw e) (Throw e) Hh2).
      exists 0. reflexivity.
Qed.

(** The same with the result of the language already computed. *)
Lemma tracks_bind_ok {A B} (h : nat -> result A) (x : A)
      (k : nat -> A -> result B) (r : result B) :
  tracks h (Ok x) -> tracks (fun capacity => k capacity x) r ->
  tracks (fun capacity => bind (h capacity) (k capacity)) r.
Proof.
  intros Hh Hk.
  apply (@tracks_bind _ _ h (Ok x) k (fun _ => r) Hh).
  intros y Hy. injection Hy as <-. exact Hk.
Qed.

Lemma tracks_within {A} (o : A * nat) :
  tracks (fun capacity => Host.within capacity o) (Ok (fst o)).
Proof.
  destruct o as [a deepest]. unfold Host.within. split.
  - intros c. destruct (Nat.ltb c deepest); [now left | now right].
  - exists deepest. intros c Hc. cbn [fst].
    destruct (Nat.ltb_spec c deepest); [lia | reflexivity].
Qed.

Lemma tracks_exec_from r s from :
  tracks (fun capacity => Host.exec_from capacity r s from)
         (Ok (Regex.search_from r from (skipn from s))).
Proof.
  unfold Host.exec_from. rewrite <- BacktrackFacts.search_from_fst.
  apply tracks_within.
Qed.



Lemma tracks_exec_all_fuel r s : forall fuel from,
  tracks (fun capacity => Host.exec_all_fuel capacity fuel r s from)
         (Ok (Regex.exec_all_fuel fuel r s from)).
Proof.
  induction fuel as [| fuel IH]; intros from;
    cbn [Host.exec_all_fuel Regex.exec_all_fuel]; [apply tracks_const |].
  eapply tracks_bind_ok; [apply tracks_exec_from |].
  destruct (Regex.search_from r from (skipn from s)) as [m |]; [| apply tracks_const].
  destruct (Nat.ltb (List.length s) _).
  - apply tracks_const.
  - eapply tracks_bind_ok; [apply IH | apply tracks_const].
Qed.

Lemma tracks_exec_all r s :
  tracks (fun capacity => Host.exec_all capacity r s) (Ok (Regex.exec_all r s)).
Proof. apply tracks_exec_all_fuel. Qed.


End Tracking.

(** * The functions outside the [try] blocks, on a host *)
Section HostFunctions.

Variable Date_now : Z.









Lemma tracks_listChart text m charts :
  tracks (fun capacity => Host.listChart capacity Date_now text m charts)
         (listChart Date_now text m charts).
Proof.
  unfold Host.listChart, listChart.
  destruct (required (Regex.group text m 1)) as [g1 | e]; cbn [bind];
    [| apply tracks_const].
  destruct (required (Regex.group text m 2)) as [listContent | e]; cbn [bind];
    [| apply tracks_const].
  cbv zeta.
  eapply tracks_bind_ok; [apply tracks_exec_all | apply tracks_const].
Qed.

Lemma tracks_listScan text : forall fuel from charts,
  tracks (fun capacity => Host.listScan capacity Date_now fuel text from charts)
         (listLoop Date_now text
            (Regex.exec_all_fuel fuel Patterns.sectionPattern text from) charts).
Proof.
  induction fuel as [| fuel IH]; intros from charts;
    cbn [Host.listScan Regex.exec_all_fuel listLoop]; [apply tracks_const |].
  eapply tracks_bind_ok; [apply tracks_exec_from |].
  destruct (Regex.search_from Patterns.sectionPattern from (skipn from text)) as [m |];
    cbn [listLoop]; [| apply tracks_const].
  apply tracks_bind; [apply tracks_listChart |].
  intros c _. cbv zeta.
  destruct (Nat.ltb (List.length text) _); cbn [listLoop];
    [apply tracks_const | apply IH].
Qed.

Lemma tracks_extractChartsFromLists text :
  tracks (fun capacity => Host.extractChartsFromLists capacity Date_now text)
         (extractChartsFromLists Date_now text).
Proof. apply tracks_listScan. Qed.


End HostFunctions.

(** * The fenced-block and inline-array loops on a host *)
Section HostRun.

Variable localeCompare : jstring -> jstring -> comparison.
Variable Date_now : Z.











(** ** Only a RangeError comes out *)










End HostRun.

(** * What reaches the caller *)
Section Caller.

Variable localeCompare : jstring -> jstring -> comparison.
Variable Date_now : Z.








End Caller.




(** X8.  On a host [extractChartsFromLists] has one result apart from the
    RangeError of a search that exhausts the stack, and it returns that
    result once the stack is large enough.  Every chart of it is a bar chart
    with the legend hidden, the default colours and a non-empty title, over
    at least three [{ name, value }] records whose name is not empty and
    whose value is not [NaN]; its position is that of its index in the
    returned list. *)
Theorem extractChartsFromLists_returns_list_charts :
  forall Date_now text,
    exists out,
      Forall list_chart out /\ positioned out /\
      (forall capacity,
         exhausted_or (Host.extractChartsFromLists capacity Date_now text) (Ok out)) /\
      eventually (fun capacity => Host.extractChartsFromLists capacity Date_now text)
                 (Ok out).
Proof.
  intros now text.
  destruct (extractChartsFromLists_full now text) as (out & E & Hshape & Hpos).
  exists out. split; [exact Hshape |]. split; [exact Hpos |].
  rewrite <- E. apply tracks_extractChartsFromLists.
Qed.

(** * No capacity is enough for every text *)
Module Exhaustion.
Import Regex.

Lemma rmatch_starts_with q r : starts_with q r ->
  forall st d k,
    match m_rest st with
    | [] => True
    | c :: _ => q c = false
    end ->
    Backtrack.rmatch r st d k = (None, d).
Proof.
  induction r as [| p | | | r1 IH1 r2 IH2 | r1 IH1 r2 IH2 | g lo hi r1 IH1 | n r1 IH1];
    cbn [starts_with]; intros Hr st d k Hst; try contradiction;
    cbn [Backtrack.rmatch].
  - destruct (m_rest st) as [| c rest]; [reflexivity |].
    destruct (p c) eqn:E; [| reflexivity].
    apply Hr in E. congruence.
  - now apply IH1.
  - now apply IH1.
Qed.

Lemma match_at_starts_with q r i rest :
  starts_with q r -> lacks q rest -> Backtrack.match_at r i rest = (None, 0).
Proof.
  intros Hr Hl. unfold Backtrack.match_at.
  rewrite (@rmatch_starts_with q r Hr); [reflexivity |].
  cbn [m_rest]. destruct rest as [| c rest]; [exact I |].
  apply Hl. now left.
Qed.

Lemma search_from_starts_with q r : starts_with q r ->
  forall rest i, lacks q rest -> Backtrack.search_from r i rest = (None, 0).
Proof.
  intros Hr rest. induction rest as [| c rest IH]; intros i Hl;
    cbn [Backtrack.search_from]; rewrite (@match_at_starts_with q r i _ Hr Hl);
    [reflexivity |].
  rewrite IH; [reflexivity |]. intros d Hd. apply Hl. now right.
Qed.

(** Such a search finds nothing and needs no stack. *)
Lemma exec_from_starts_with capacity q r s :
  starts_with q r -> lacks q s -> Host.exec_from capacity r s 0 = Ok None.
Proof.
  intros Hr Hl. unfold Host.exec_from. cbn [skipn].
  now rewrite (@search_from_starts_with q r Hr s 0 Hl).
Qed.

Lemma choice_deepest d first second n :
  n <= snd (first (S d)) -> n <= snd (Backtrack.choice d first second).
Proof.
  unfold Backtrack.choice. destruct (first (S d)) as [[st |] deepest]; cbn [snd];
    [auto |].
  destruct (second d) as [r deepest']. cbn [snd]. lia.
Qed.

Lemma rmatch_Chr_nil p st d k :
  m_rest st = [] -> Backtrack.rmatch (Chr p) st d k = (None, d).
Proof. intros H. cbn [Backtrack.rmatch]. now rewrite H. Qed.

Lemma rmatch_Chr_cons p st d k c rest :
  m_rest st = c :: rest -> p c = true ->
  Backtrack.rmatch (Chr p) st d k = k (advance st rest) d.
Proof. intros H Hp. cbn [Backtrack.rmatch]. now rewrite H, Hp. Qed.

(** A greedy loop over [n] code units it accepts leaves [n] exits open. *)
Lemma greedy_loop_deepest p a k : p a = true ->
  forall n fuel st d, n < fuel -> m_rest st = repeat a n ->
    d + n + 1 <=
    snd (Backtrack.repeat_matcher (Backtrack.rmatch (Chr p)) true fuel 0 None st d k).
Proof.
  intros Hp. induction n as [| n IH]; intros fuel st d Hf Hrest;
    (destruct fuel as [| fuel]; [lia |]); cbn [Backtrack.repeat_matcher Nat.ltb Nat.leb];
    apply choice_deepest.
  - rewrite rmatch_Chr_nil by exact Hrest. cbn [snd]. lia.
  - rewrite (@rmatch_Chr_cons p st (S d) _ a (repeat a n) Hrest Hp).
    change (Nat.eqb 0 0) with true. cbn [andb advance m_pos].
    replace (Nat.eqb (S (m_pos st)) (m_pos st)) with false
      by (symmetry; apply Nat.eqb_neq; lia).
    cbn [pred dec_hi option_map].
    specialize (IH fuel (advance st (repeat a n)) (S d) ltac:(lia) eq_refl).
    cbn [advance] in IH. lia.
Qed.

Lemma search_from_deepest r i rest :
  snd (Backtrack.match_at r i rest) <= snd (Backtrack.search_from r i rest).
Proof.
  destruct rest as [| c rest]; cbn [Backtrack.search_from];
    destruct (Backtrack.match_at r i _) as [[m |] deepest]; cbn [snd]; try lia.
  destruct (Backtrack.search_from r (S i) rest) as [m' deepest']. cbn [snd]. lia.
Qed.

Lemma repeat_matcher_first (m : Backtrack.matcher) greedy fuel st d k :
  Backtrack.repeat_matcher m greedy (S fuel) 1 None st d k =
  m st d (fun st' d' => Backtrack.repeat_matcher m greedy fuel 0 None st' d' k).
Proof. reflexivity. Qed.

(** The opening of a row: the bar, then the greedy loop of the first
    capture over the [S n] letters. *)
Lemma row_deepest tail n st k :
  m_rest st = open_row (S n) ->
  n <= snd (Backtrack.rmatch
              (Seq (Chr (just "|")) (Seq (Group 1 (plus (Chr not_nl))) tail)) st 0 k).
Proof.
  intros Hrest. unfold open_row in Hrest. cbn [repeat] in Hrest.
  change (Backtrack.rmatch (Seq (Chr (just "|")) (Seq (Group 1 (plus (Chr not_nl))) tail))
            st 0 k)
    with (Backtrack.rmatch (Chr (just "|")) st 0
            (fun st' d' =>
               Backtrack.rmatch (Seq (Group 1 (plus (Chr not_nl))) tail) st' d' k)).
  rewrite (@rmatch_Chr_cons (just "|") st 0 _ (ch "|") _ Hrest eq_refl).
  set (st1 := advance st (ch "a" :: repeat (ch "a") n)).
  set (k1 := fun st' d' =>
               Backtrack.rmatch tail (set_cap 1 (m_pos st1) st') d' k).
  change (Backtrack.rmatch (Seq (Group 1 (plus (Chr not_nl))) tail) st1 0 k)
    with (Backtrack.repeat_matcher (Backtrack.rmatch (Chr not_nl)) true
            (S (1 + List.length (m_rest st1))) 1 None st1 0 k1).
  rewrite repeat_matcher_first.
  rewrite (@rmatch_Chr_cons not_nl st1 0 _ (ch "a") (repeat (ch "a") n) eq_refl eq_refl).
  eapply Nat.le_trans;
    [| apply (@greedy_loop_deepest not_nl (ch "a") k1 eq_refl n)].
  - lia.
  - subst st1. cbn [advance m_rest List.length]. rewrite repeat_length. lia.
  - reflexivity.
Qed.

Lemma open_row_deepest n :
  n <= snd (Backtrack.search_from Patterns.tablePattern 0 (open_row (S n))).
Proof.
  eapply Nat.le_trans; [| apply search_from_deepest].
  unfold Backtrack.match_at.
  match goal with |- _ <= snd (match ?x with _ => _ end) =>
    assert (H : n <= snd x); [| destruct x as [[st |] deepest]; exact H]
  end.
  unfold Patterns.tablePattern. cbn [seq].
  now apply row_deepest.
Qed.

Lemma open_row_lacks q n :
  q (ch "|") = false -> q (ch "a") = false -> lacks q (open_row n).
Proof.
  intros H1 H2 d [<- | Hd]; [exact H1 |].
  apply repeat_spec in Hd. now subst.
Qed.

Lemma open_row_exhausts capacity localeCompare Date_now :
  Host.parseChartsFromResponse capacity localeCompare Date_now
    (open_row (S (S capacity))) = Throw RangeError.
Proof.
  set (text := open_row (S (S capacity))).
  assert (H0 : Host.exec_from capacity Patterns.codeBlockPattern text 0 = Ok None).
  { apply exec_from_starts_with with (Regex.just "`").
    - cbn. intros d H. unfold just. now rewrite N.eqb_sym.
    - now apply open_row_lacks. }
  assert (H1 : Host.exec_from capacity Patterns.jsonArrayPattern text 0 = Ok None).
  { apply exec_from_starts_with with (Regex.just "[").
    - cbn. auto.
    - now apply open_row_lacks. }
  assert (H2 : Host.exec_from capacity Patterns.tablePattern text 0
               = Throw RangeError).
  { unfold Host.exec_from, Host.within. cbn [skipn].
    pose proof (open_row_deepest (S capacity)) as Hd. fold text in Hd.
    destruct (Backtrack.search_from Patterns.tablePattern 0 text) as [m deepest].
    cbn [snd] in Hd.
    destruct (Nat.ltb_spec capacity deepest); [reflexivity | lia]. }
  unfold Host.parseChartsFromResponse, Host.parseJsonCandidates. cbv zeta.
  cbn [Host.codeBlockScan]. rewrite H0. cbn [bind].
  unfold Host.exec_all. cbn [Host.exec_all_fuel]. rewrite H1. cbn [bind].
  cbn [List.map Str.nonempty_list andb charts].
  unfold appendExtracted at 1. cbn [List.length Nat.ltb Nat.leb MAX_CHARTS].
  unfold Host.extractChartsFromTables. cbn [Host.tableScan]. rewrite H2.
  reflexivity.
Qed.

End Exhaustion.

(** Whatever the capacity of the stack, some text exhausts it: a vertical
    bar followed by more letters than the stack holds entries makes the
    search for tables throw. *)
Lemma every_capacity_is_exhausted_by_some_text :
  forall capacity localeCompare Date_now,
    exists text,
      Host.parseChartsFromResponse capacity localeCompare Date_now text
      = Throw RangeError.
Proof.
  intros capacity cmp now. exists (open_row (S (S capacity))).
  apply Exhaustion.open_row_exhausts.
Qed.
